(** * SlitherRL: the learning engine, embedded and verified

    A shallow embedding of the Go packages [internal/game] (snakes,
    collisions, the game loop) and [internal/ai] (network, replay buffer,
    state encoder, DQN agent) and of the episode loop of the training
    program, followed by the properties of the specification that are
    settled against it and by further properties of the code.

    Conventions of the embedding:
    - Go's [float64] is Rocq's primitive binary64 [float]; every arithmetic
      operation is written in the order the source evaluates it (no fused
      multiply-add).
    - Go's [int] is [Z]; arithmetic that can leave the 64-bit range goes
      through [GoInt.wrap64].
    - A slice is a [list]; an in-place write [s[i] = v] is [<[i:=v]> s]
      after an explicit bounds check.
    - A run-time panic (index out of range, division by zero, negative
      [make] length) is [None]; nothing in the repository recovers from a
      panic, so the state at a panic is never observed.
    - [math/rand] and [encoding/gob] belong to Go's library, not to the
      repository: they enter as the interfaces [rand.API] and [gob.API]. *)

From Stdlib Require Import ZArith Floats Lia.
From Stdlib Require Import Strings.String.
From stdpp Require Import base option list.

Set Warnings "-inexact-float".
Set Default Proof Using "Type".

(* ================================================================== *)
(** * Go integers and floats *)
(* ================================================================== *)

Module GoInt.

(** Two's-complement reduction to the range of a 64-bit [int]. *)
Definition wrap64 (z : Z) : Z := ((z + 2 ^ 63) mod 2 ^ 64 - 2 ^ 63)%Z.

Definition add (x y : Z) : Z := wrap64 (x + y).
Definition sub (x y : Z) : Z := wrap64 (x - y).
Definition mul (x y : Z) : Z := wrap64 (x * y).
Definition neg (x : Z) : Z := wrap64 (- x).

(** [x % y]: truncated remainder, panics on a zero divisor. *)
Definition rem (x y : Z) : option Z :=
  if (y =? 0)%Z then None else Some (Z.rem x y).

(** [x / y]: truncated quotient, panics on a zero divisor. *)
Definition quot (x y : Z) : option Z :=
  if (y =? 0)%Z then None else Some (wrap64 (Z.quot x y)).

Definition in_range (z : Z) : Prop := (- 2 ^ 63 <= z < 2 ^ 63)%Z.

(** [s[i]] for an [int] index. *)
Definition index {A} (s : list A) (i : Z) : option A :=
  if (i <? 0)%Z then None else s !! Z.to_nat i.

(** [make([]T, n)] filled with the zero value [z]. *)
Definition make {A} (z : A) (n : Z) : option (list A) :=
  if (n <? 0)%Z then None else Some (replicate (Z.to_nat n) z).

(** The built-in [copy(dst, src)]: overwrites the first
    [min(len(dst), len(src))] elements of [dst]. *)
Definition copy {A} (dst src : list A) : list A :=
  take (length dst) src ++ drop (length src) dst.

End GoInt.

Module F64.

(** [float64(n)] for an [int] n: round to nearest, ties to even. *)
Definition of_int (z : Z) : float :=
  SF2Prim (binary_normalize prec emax z 0 false).

Definition zero : float := 0%float.
Definition one : float := 1%float.

(** [x > y] on floats. *)
Definition gtb (x y : float) : bool := PrimFloat.ltb y x.

End F64.

(* ================================================================== *)
(** * Package [config] *)
(* ================================================================== *)

Module config.

Record TrainingConfig := mkTrainingConfig {
  InputSize : Z;
  HiddenSize1 : Z;
  HiddenSize2 : Z;
  OutputSize : Z;
  LearningRate : float;
  Gamma : float;
  EpsilonStart : float;
  EpsilonMin : float;
  EpsilonDecay : float;
  BatchSize : Z;
  BufferSize : Z;
  TargetUpdate : Z;
  Episodes : Z;
  MaxStepsPerEp : Z;
  SaveFrequency : Z
}.

Definition DefaultTrainingConfig : TrainingConfig :=
  {| InputSize := 22; HiddenSize1 := 128; HiddenSize2 := 64; OutputSize := 3;
     LearningRate := 0.001%float;
     Gamma := 0.99%float; EpsilonStart := 1.0%float;
     EpsilonMin := 0.01%float; EpsilonDecay := 0.995%float;
     BatchSize := 64; BufferSize := 100000; TargetUpdate := 1000;
     Episodes := 10000; MaxStepsPerEp := 1000;
     SaveFrequency := 500 |}.

Record GameConfig := mkGameConfig {
  BoardWidth : Z;
  BoardHeight : Z;
  GridSize : Z
}.

Definition DefaultGameConfig : GameConfig :=
  {| BoardWidth := 20; BoardHeight := 20; GridSize := 20 |}.

End config.

(* ================================================================== *)
(** * Package [game]: snakes and collisions *)
(* ================================================================== *)

Module game.

Inductive Direction := Up | Down | Left | Right.

(** [int(dir)]: the constants are declared with [iota]. *)
Definition Direction_to_int (d : Direction) : Z :=
  match d with Up => 0 | Down => 1 | Left => 2 | Right => 3 end.

Definition TurnLeft (d : Direction) : Direction :=
  match d with Up => Left | Left => Down | Down => Right | Right => Up end.

Definition TurnRight (d : Direction) : Direction :=
  match d with Up => Right | Right => Down | Down => Left | Left => Up end.

Record Position := mkPosition { X : Z; Y : Z }.

Definition Add (p : Position) (dx dy : Z) : Position :=
  {| X := GoInt.add (X p) dx; Y := GoInt.add (Y p) dy |}.

Definition Equals (p other : Position) : bool :=
  (X p =? X other)%Z && (Y p =? Y other)%Z.

Module Snake.
Record t := mk {
  ID : Z;
  Body : list Position;
  Direction : game.Direction;
  Alive : bool;
  Score : Z;
  Grew : bool
}.
End Snake.

(** [s.Body[0]]; panics on an empty body. *)
Definition Head (s : Snake.t) : option Position := Snake.Body s !! 0.

Definition Length (s : Snake.t) : Z := Z.of_nat (length (Snake.Body s)).

Definition NextHead (s : Snake.t) (dir : Direction) : option Position :=
  head ← Head s;
  Some match dir with
       | Up => Add head 0 (-1)
       | Down => Add head 0 1
       | Left => Add head (-1) 0
       | Right => Add head 1 0
       end.

Definition ContainsPosition (s : Snake.t) (pos : Position)
    (excludeHead : bool) : bool :=
  let startIdx := if excludeHead then 1 else 0 in
  existsb (fun seg => Equals seg pos) (drop startIdx (Snake.Body s)).

Definition CheckWallCollision (pos : Position) (width height : Z) : bool :=
  (X pos <? 0)%Z || (width <=? X pos)%Z || (Y pos <? 0)%Z || (height <=? Y pos)%Z.

(** The array [[2]*Snake], indexed by an [int]. *)
Definition snake_at (snakes : Snake.t * Snake.t) (i : Z) : option Snake.t :=
  if (i =? 0)%Z then Some (fst snakes)
  else if (i =? 1)%Z then Some (snd snakes)
  else None.

Definition IsDangerPosition (pos : Position) (snakeID : Z)
    (snakes : Snake.t * Snake.t) (width height : Z) : option bool :=
  if CheckWallCollision pos width height then Some true else
  ownSnake ← snake_at snakes snakeID;
  if ContainsPosition ownSnake pos true then Some true else
  let otherID := GoInt.sub 1 snakeID in
  otherSnake ← snake_at snakes otherID;
  if Snake.Alive otherSnake && ContainsPosition otherSnake pos false
  then Some true
  else Some false.

Definition ManhattanDistance (p1 p2 : Position) : Z :=
  let dx := GoInt.sub (X p1) (X p2) in
  let dy := GoInt.sub (Y p1) (Y p2) in
  let dx := if (dx <? 0)%Z then GoInt.neg dx else dx in
  let dy := if (dy <? 0)%Z then GoInt.neg dy else dy in
  GoInt.add dx dy.

Module Food.
Record t := mk { Position : game.Position; Active : bool }.
End Food.

Module GameState.
Record t := mk {
  Width : Z;
  Height : Z;
  Snakes : Snake.t * Snake.t;
  Food : Food.t;
  Turn : Z;
  GameOver : bool;
  Winner : Z
}.
End GameState.

(** ** Movement and collisions ([snake.go], [collision.go], [game.go]) *)

Definition Opposite (d : Direction) : Direction :=
  match d with Up => Down | Down => Up | Left => Right | Right => Left end.

(** [d1 == d2] on directions. *)
Definition Direction_eqb (d1 d2 : Direction) : bool :=
  (Direction_to_int d1 =? Direction_to_int d2)%Z.

(** The loop of [NewSnake], [count] iterations from index [i] on:
    [body[i] = Position{head.X + dx*i, head.Y + dy*i}]. *)
Fixpoint NewSnake_fill (head : Position) (dx dy : Z) (count : nat) (i : Z)
    (body : list Position) : option (list Position) :=
  match count with
  | O => Some body
  | S k =>
      _ ← GoInt.index body i;
      NewSnake_fill head dx dy k (i + 1)%Z
        (<[Z.to_nat i := {| X := GoInt.add (X head) (GoInt.mul dx i);
                           Y := GoInt.add (Y head) (GoInt.mul dy i) |}]> body)
  end.

Definition NewSnake (id : Z) (head : Position) (dir : Direction) (length : Z)
    : option Snake.t :=
  body ← GoInt.make {| X := 0; Y := 0 |} length;
  _ ← GoInt.index body 0;
  let body := <[0%nat := head]> body in
  let '(dx, dy) :=
    match dir with
    | Up => (0, 1)
    | Down => (0, -1)
    | Left => (1, 0)
    | Right => (-1, 0)
    end%Z in
  body ← NewSnake_fill head dx dy (Z.to_nat (length - 1)) 1 body;
  Some {| Snake.ID := id; Snake.Body := body; Snake.Direction := dir;
          Snake.Alive := true; Snake.Score := 0; Snake.Grew := false |}.

(** [s.Move(dir, grow)]: the snake after the move. *)
Definition Move (s : Snake.t) (dir : Direction) (grow : bool)
    : option Snake.t :=
  if negb (Snake.Alive s) then Some s else
  let dir :=
    if Direction_eqb dir (Opposite (Snake.Direction s))
    then Snake.Direction s else dir in
  newHead ← NextHead s dir;
  let newBody := newHead :: Snake.Body s in
  let newBody :=
    if negb grow then take (length newBody - 1) newBody else newBody in
  Some {| Snake.ID := Snake.ID s; Snake.Body := newBody;
          Snake.Direction := dir; Snake.Alive := Snake.Alive s;
          Snake.Score := Snake.Score s; Snake.Grew := grow |}.

Definition Kill (s : Snake.t) : Snake.t :=
  {| Snake.ID := Snake.ID s; Snake.Body := Snake.Body s;
     Snake.Direction := Snake.Direction s; Snake.Alive := false;
     Snake.Score := Snake.Score s; Snake.Grew := Snake.Grew s |}.

Definition CheckSelfCollision (snake : Snake.t) : option bool :=
  if negb (Snake.Alive snake) || (length (Snake.Body snake) <? 2)%nat
  then Some false
  else head ← Head snake; Some (ContainsPosition snake head true).

Definition CheckSnakeCollision (snake1 snake2 : Snake.t) : option bool :=
  if negb (Snake.Alive snake1) || negb (Snake.Alive snake2) then Some false
  else head ← Head snake1; Some (ContainsPosition snake2 head false).

Definition CheckHeadToHeadCollision (snake1 snake2 : Snake.t) : option bool :=
  if negb (Snake.Alive snake1) || negb (Snake.Alive snake2) then Some false
  else h1 ← Head snake1; h2 ← Head snake2; Some (Equals h1 h2).

Definition CheckFoodCollision (snake : Snake.t) (foodPos : Position)
    : option bool :=
  if negb (Snake.Alive snake) then Some false
  else head ← Head snake; Some (Equals head foodPos).

Definition IsValidAction (currentDir newDir : Direction) : bool :=
  negb (Direction_eqb newDir (Opposite currentDir)).

(** [calculateRewards]: the pair of rewards of the two snakes. *)
Definition calculateRewards (ateFood died : bool * bool) : float * float :=
  let reward (ate dead otherDead : bool) : float :=
    if dead then (-1.0)%float
    else
      let r := 0.01%float in
      let r := if ate then (r + 0.5)%float else r in
      if otherDead then (r + 1.0)%float else r in
  (reward ateFood.1 died.1 died.2, reward ateFood.2 died.2 died.1).

(** ** All collisions of a turn ([collision.go]) *)

Inductive CollisionType :=
| NoCollision | WallCollision | SelfCollision | OtherSnakeCollision
| HeadToHeadCollision.

Module CollisionResult.
Record t := mk {
  Type_ : CollisionType;
  SnakeID : Z;
  Position : game.Position
}.
End CollisionResult.

(** The body of the first loop of [CheckAllCollisions] for one snake:
    its wall and self collisions, in this order. *)
Definition ownCollisions (snake : Snake.t) (width height : Z)
    : option (list CollisionResult.t) :=
  if negb (Snake.Alive snake) then Some [] else
  head ← Head snake;
  let results :=
    if CheckWallCollision head width height
    then [CollisionResult.mk WallCollision 0 head] else [] in
  self ← CheckSelfCollision snake;
  Some (if (self : bool)
        then results ++ [CollisionResult.mk SelfCollision 0 head]
        else results).

Definition CheckAllCollisions (snakes : Snake.t * Snake.t) (width height : Z)
    : option (list CollisionResult.t * list CollisionResult.t) :=
  r0 ← ownCollisions snakes.1 width height;
  r1 ← ownCollisions snakes.2 width height;
  if Snake.Alive snakes.1 && Snake.Alive snakes.2 then
    headToHead ← CheckHeadToHeadCollision snakes.1 snakes.2;
    if (headToHead : bool) then
      head0 ← Head snakes.1;
      head1 ← Head snakes.2;
      Some (r0 ++ [CollisionResult.mk HeadToHeadCollision 1 head0],
            r1 ++ [CollisionResult.mk HeadToHeadCollision 0 head1])
    else
      hit0 ← CheckSnakeCollision snakes.1 snakes.2;
      r0 ← (if (hit0 : bool)
            then head0 ← Head snakes.1;
                 Some (r0 ++ [CollisionResult.mk OtherSnakeCollision 1 head0])
            else Some r0);
      hit1 ← CheckSnakeCollision snakes.2 snakes.1;
      r1 ← (if (hit1 : bool)
            then head1 ← Head snakes.2;
                 Some (r1 ++ [CollisionResult.mk OtherSnakeCollision 0 head1])
            else Some r1);
      Some (r0, r1)
  else Some (r0, r1).

End game.

(* ================================================================== *)
(** * Go library interfaces *)
(* ================================================================== *)

(** [math/rand]: the generator [*rand.Rand] and the draws the package
    makes. [New seed] stands for [rand.New(rand.NewSource(seed))]; a draw
    returns its value and the advanced generator. *)
Module rand.
Class API := {
  Rand : Type;
  New : Z -> Rand;
  Int63 : Rand -> Z * Rand;
  NormFloat64 : Rand -> float * Rand;
  Float64 : Rand -> float * Rand;
  Intn : Rand -> Z -> Z * Rand;
  Perm : Rand -> nat -> list nat * Rand
}.

(** The documented contract of [Perm]: a permutation of [0, n). *)
Definition Perm_contract `{API} : Prop :=
  forall g n, (Perm g n).1 ≡ₚ seq 0 n.
End rand.

(* ================================================================== *)
(** * Package [game]: the game loop ([game.go]) *)
(* ================================================================== *)

Module StepResult.
Record t := mk {
  Rewards : float * float;
  AteFood : bool * bool;
  Died : bool * bool;
  GameOver : bool;
  Winner : Z
}.
End StepResult.

(** The type [Game] and its methods. The state [g.State] is a pointer the
    callers keep ([Reset] and [GetState] return it): what they read
    through it afterwards is the [State] of the game as the later calls
    leave it. *)
Module Game.
Record t `{rand.API} := mk {
  State : game.GameState.t;
  rng : rand.Rand
}.

Section Methods.
Context `{rand.API}.

Definition set_Snakes (st : game.GameState.t)
    (snakes : game.Snake.t * game.Snake.t) : game.GameState.t :=
  game.GameState.mk (game.GameState.Width st) (game.GameState.Height st)
    snakes (game.GameState.Food st) (game.GameState.Turn st)
    (game.GameState.GameOver st) (game.GameState.Winner st).

Definition set_Food (st : game.GameState.t) (food : game.Food.t)
    : game.GameState.t :=
  game.GameState.mk (game.GameState.Width st) (game.GameState.Height st)
    (game.GameState.Snakes st) food (game.GameState.Turn st)
    (game.GameState.GameOver st) (game.GameState.Winner st).

Definition set_Turn (st : game.GameState.t) (turn : Z) : game.GameState.t :=
  game.GameState.mk (game.GameState.Width st) (game.GameState.Height st)
    (game.GameState.Snakes st) (game.GameState.Food st) turn
    (game.GameState.GameOver st) (game.GameState.Winner st).

Definition set_Over (st : game.GameState.t) (over : bool) (winner : Z)
    : game.GameState.t :=
  game.GameState.mk (game.GameState.Width st) (game.GameState.Height st)
    (game.GameState.Snakes st) (game.GameState.Food st)
    (game.GameState.Turn st) over winner.

(** The map [occupied] of [spawnFood], read as a set: the cells of both
    bodies. *)
Definition occupied (snakes : game.Snake.t * game.Snake.t)
    (pos : game.Position) : bool :=
  existsb (fun seg => game.Equals seg pos)
    (game.Snake.Body snakes.1 ++ game.Snake.Body snakes.2).

(** The cells [Position{x, y}] in the order of the two loops of
    [spawnFood]: [x] from 0 below [width], and for each [x], [y] from 0
    below [height]. *)
Definition cells (width height : Z) : list game.Position :=
  flat_map
    (fun x => map (fun y => game.mkPosition (Z.of_nat x) (Z.of_nat y))
                  (seq 0 (Z.to_nat height)))
    (seq 0 (Z.to_nat width)).

Definition spawnFood (g : t) : option t :=
  let st := State g in
  let emptyPositions :=
    List.filter (fun pos => negb (occupied (game.GameState.Snakes st) pos))
      (cells (game.GameState.Width st) (game.GameState.Height st)) in
  if (0 <? Z.of_nat (length emptyPositions))%Z then
    let '(idx, rng) := rand.Intn (rng g) (Z.of_nat (length emptyPositions)) in
    pos ← GoInt.index emptyPositions idx;
    Some {| State := set_Food st (game.Food.mk pos true); rng := rng |}
  else
    Some {| State :=
              set_Food st
                (game.Food.mk (game.Food.Position (game.GameState.Food st))
                              false);
            rng := rng g |}.

Definition Reset (g : t) : option t :=
  let width := game.GameState.Width (State g) in
  let height := game.GameState.Height (State g) in
  let snake0Start := game.mkPosition 3 (Z.quot height 2) in
  snake0 ← game.NewSnake 0 snake0Start game.Right 3;
  let snake1Start := game.mkPosition (GoInt.sub width 4) (Z.quot height 2) in
  snake1 ← game.NewSnake 1 snake1Start game.Left 3;
  g ← spawnFood {| State := set_Snakes (State g) (snake0, snake1);
                   rng := rng g |};
  Some {| State := set_Over (set_Turn (State g) 0) false (-1); rng := rng g |}.

(** Until [Reset] has run, the two snakes of a new game are nil
    pointers; [Reset] assigns both before anything reads them, so the
    snakes standing in for them here are never looked at. *)
Definition NewGame (cfg : config.GameConfig) (seed : Z) : option t :=
  let unset := game.Snake.mk 0 [] game.Up false 0 false in
  Reset {| State :=
             {| game.GameState.Width := config.BoardWidth cfg;
                game.GameState.Height := config.BoardHeight cfg;
                game.GameState.Snakes := (unset, unset);
                game.GameState.Food := game.Food.mk (game.mkPosition 0 0) false;
                game.GameState.Turn := 0;
                game.GameState.GameOver := false;
                game.GameState.Winner := 0 |};
           rng := rand.New seed |}.

(** The first loop of [Step] for one snake: whether it will eat. *)
Definition willEat (st : game.GameState.t) (snake : game.Snake.t)
    (action : game.Direction) : option bool :=
  if game.Snake.Alive snake then
    nextHead ← game.NextHead snake action;
    Some (game.Food.Active (game.GameState.Food st)
          && game.Equals nextHead (game.Food.Position (game.GameState.Food st)))
  else Some false.

(** [g.State.Snakes[i].Score++]. *)
Definition scored (s : game.Snake.t) : game.Snake.t :=
  game.Snake.mk (game.Snake.ID s) (game.Snake.Body s) (game.Snake.Direction s)
    (game.Snake.Alive s) (GoInt.add (game.Snake.Score s) 1) (game.Snake.Grew s).

Definition Step (g : t) (actions : game.Direction * game.Direction)
    : option (t * StepResult.t) :=
  let st := State g in
  if game.GameState.GameOver st then
    Some (g, {| StepResult.Rewards := (0, 0)%float;
                StepResult.AteFood := (false, false);
                StepResult.Died := (false, false);
                StepResult.GameOver := true;
                StepResult.Winner := game.GameState.Winner st |})
  else
  let st := set_Turn st (GoInt.add (game.GameState.Turn st) 1) in
  let snake0 := (game.GameState.Snakes st).1 in
  let snake1 := (game.GameState.Snakes st).2 in
  (* which snakes will eat, before moving *)
  eat0 ← willEat st snake0 actions.1;
  eat1 ← willEat st snake1 actions.2;
  (* move both snakes *)
  snake0 ← (if game.Snake.Alive snake0 then game.Move snake0 actions.1 eat0
            else Some snake0);
  snake1 ← (if game.Snake.Alive snake1 then game.Move snake1 actions.2 eat1
            else Some snake1);
  (* food eaten *)
  let snake0 := if (eat0 : bool) then scored snake0 else snake0 in
  let snake1 := if (eat1 : bool) then scored snake1 else snake1 in
  let g := {| State := set_Snakes st (snake0, snake1); rng := rng g |} in
  g ← (if eat0 || eat1 then spawnFood g else Some g);
  let st := State g in
  (* collisions and deaths *)
  collisions ←
    game.CheckAllCollisions (game.GameState.Snakes st)
      (game.GameState.Width st) (game.GameState.Height st);
  let died0 := (0 <? length collisions.1)%nat in
  let died1 := (0 <? length collisions.2)%nat in
  let snake0 := (game.GameState.Snakes st).1 in
  let snake1 := (game.GameState.Snakes st).2 in
  let snake0 := if died0 then game.Kill snake0 else snake0 in
  let snake1 := if died1 then game.Kill snake1 else snake1 in
  let st := set_Snakes st (snake0, snake1) in
  let rewards := game.calculateRewards (eat0, eat1) (died0, died1) in
  (* game over *)
  let alive0 := game.Snake.Alive snake0 in
  let alive1 := game.Snake.Alive snake1 in
  let '(st, over, winner) :=
    if negb alive0 && negb alive1 then (set_Over st true (-1), true, (-1)%Z)
    else if negb alive0 then (set_Over st true 1, true, 1%Z)
    else if negb alive1 then (set_Over st true 0, true, 0%Z)
    else (st, false, (-1)%Z) in
  Some ({| State := st; rng := rng g |},
        {| StepResult.Rewards := rewards;
           StepResult.AteFood := (eat0, eat1);
           StepResult.Died := (died0, died1);
           StepResult.GameOver := over;
           StepResult.Winner := winner |}).

Definition GetState (g : t) : game.GameState.t := State g.

(** [g.Clone()]: the copy, and [g] itself, whose generator has given the
    seed of the copy's. *)
Definition Clone (g : t) : t * t :=
  let '(seed, rng) := rand.Int63 (rng g) in
  ({| State := State g; rng := rand.New seed |},
   {| State := State g; rng := rng |}).

End Methods.
End Game.

(* ================================================================== *)
(** * Package [ai]: the network *)
(* ================================================================== *)

(** [[]float64] and [[][]float64]. *)
Abbreviation Vector := (list float) (only parsing).
Abbreviation Matrix := (list (list float)) (only parsing).

Module ai.

Local Open Scope float_scope.

Module QNetwork.
Record t `{rand.API} := mk {
  W1 : Matrix; B1 : Vector;
  W2 : Matrix; B2 : Vector;
  W3 : Matrix; B3 : Vector;
  InputSize : Z;
  HiddenSize1 : Z;
  HiddenSize2 : Z;
  OutputSize : Z;
  LearningRate : float;
  rng : rand.Rand
}.
End QNetwork.

Section Network.
Context `{rand.API}.

(** One row of [xavierInit]: [fanOut] draws scaled by [stddev]. *)
Fixpoint xavierRow (stddev : float) (fanOut : nat) (g : rand.Rand)
    : Vector * rand.Rand :=
  match fanOut with
  | O => ([], g)
  | S k =>
      let '(x, g) := rand.NormFloat64 g in
      let '(row, g) := xavierRow stddev k g in
      (x * stddev :: row, g)
  end.

Fixpoint xavierRows (stddev : float) (fanIn : nat) (fanOut : Z) (g : rand.Rand)
    : option (Matrix * rand.Rand) :=
  match fanIn with
  | O => Some ([], g)
  | S k =>
      _ ← GoInt.make F64.zero fanOut;
      let '(row, g) := xavierRow stddev (Z.to_nat fanOut) g in
      '(rows, g) ← xavierRows stddev k fanOut g;
      Some (row :: rows, g)
  end.

Definition xavierInit (fanIn fanOut : Z) (g : rand.Rand) : option (Matrix * rand.Rand) :=
  let stddev := sqrt (2.0 / F64.of_int (GoInt.add fanIn fanOut)) in
  _ ← GoInt.make ([] : Vector) fanIn;
  xavierRows stddev (Z.to_nat fanIn) fanOut g.

Definition NewQNetwork (inputSize hiddenSize1 hiddenSize2 outputSize : Z)
    (lr : float) (seed : Z) : option QNetwork.t :=
  let g := rand.New seed in
  '(w1, g) ← xavierInit inputSize hiddenSize1 g;
  b1 ← GoInt.make F64.zero hiddenSize1;
  '(w2, g) ← xavierInit hiddenSize1 hiddenSize2 g;
  b2 ← GoInt.make F64.zero hiddenSize2;
  '(w3, g) ← xavierInit hiddenSize2 outputSize g;
  b3 ← GoInt.make F64.zero outputSize;
  Some {| QNetwork.W1 := w1; QNetwork.B1 := b1;
          QNetwork.W2 := w2; QNetwork.B2 := b2;
          QNetwork.W3 := w3; QNetwork.B3 := b3;
          QNetwork.InputSize := inputSize;
          QNetwork.HiddenSize1 := hiddenSize1;
          QNetwork.HiddenSize2 := hiddenSize2;
          QNetwork.OutputSize := outputSize;
          QNetwork.LearningRate := lr;
          QNetwork.rng := g |}.

(** [weights[i][j]]. *)
Definition at2 (weights : Matrix) (i j : nat) : option float :=
  row ← weights !! i; row !! j.

(** [weights[i][j] = v], after [weights[i][j]] has been read. *)
Definition set2 (weights : Matrix) (i j : nat) (v : float) : Matrix :=
  alter (fun row => <[j:=v]> row) i weights.

(** The inner loop of [linearForward], from row [i] on:
    [sum += input[i] * weights[i][j]]. *)
Fixpoint sumColumn (weights : Matrix) (j i : nat) (input : Vector)
    (sum : float) : option float :=
  match input with
  | [] => Some sum
  | x :: rest =>
      w ← at2 weights i j;
      sumColumn weights j (S i) rest (sum + x * w)
  end.

(** The outer loop of [linearForward], from column [j] on. *)
Fixpoint linearForward_from (input : Vector) (weights : Matrix) (j : nat)
    (bias : Vector) : option Vector :=
  match bias with
  | [] => Some []
  | b :: rest =>
      sum ← sumColumn weights j 0 input b;
      output ← linearForward_from input weights (S j) rest;
      Some (sum :: output)
  end.

Definition linearForward (input : Vector) (weights : Matrix)
    (bias : Vector) : option Vector :=
  linearForward_from input weights 0 bias.

Definition relu (x : Vector) : Vector :=
  map (fun v => if F64.gtb v 0 then v else 0) x.

Definition reluDerivative (z : Vector) : Vector :=
  map (fun v => if F64.gtb v 0 then 1.0 else 0) z.

Definition Forward (n : QNetwork.t) (input : Vector) : option Vector :=
  h1 ← linearForward input (QNetwork.W1 n) (QNetwork.B1 n);
  let h1 := relu h1 in
  h2 ← linearForward h1 (QNetwork.W2 n) (QNetwork.B2 n);
  let h2 := relu h2 in
  linearForward h2 (QNetwork.W3 n) (QNetwork.B3 n).

Record forwardCache := mkCache {
  input : Vector;
  z1 : Vector; h1 : Vector;
  z2 : Vector; h2 : Vector
}.

Definition ForwardWithCache (n : QNetwork.t) (input : Vector)
    : option (Vector * forwardCache) :=
  z1 ← linearForward input (QNetwork.W1 n) (QNetwork.B1 n);
  let h1 := relu z1 in
  z2 ← linearForward h1 (QNetwork.W2 n) (QNetwork.B2 n);
  let h2 := relu z2 in
  output ← linearForward h2 (QNetwork.W3 n) (QNetwork.B3 n);
  Some (output, mkCache input z1 h1 z2 h2).

(** [linearBackward], gradient with respect to the input: the loop
    [dInput[i] += weights[i][j] * dOutput[j]] for one [i], from
    column [j] on. *)
Fixpoint gradInputRow (weights : Matrix) (i j : nat) (dOutput : Vector)
    (acc : float) : option float :=
  match dOutput with
  | [] => Some acc
  | d :: rest =>
      w ← at2 weights i j;
      gradInputRow weights i (S j) rest (acc + w * d)
  end.

Fixpoint gradInput_from (weights : Matrix) (dOutput : Vector) (i : nat)
    (input : Vector) : option Vector :=
  match input with
  | [] => Some []
  | _ :: rest =>
      g ← gradInputRow weights i 0 dOutput 0;
      gs ← gradInput_from weights dOutput (S i) rest;
      Some (g :: gs)
  end.

(** [weights[i][j] -= lr * input[i] * dOutput[j]] for one [i], from
    column [j] on; [x] is [input[i]]. *)
Fixpoint updateRow (lr x : float) (weights : Matrix) (i j : nat)
    (dOutput : Vector) : option Matrix :=
  match dOutput with
  | [] => Some weights
  | d :: rest =>
      w ← at2 weights i j;
      updateRow lr x (set2 weights i j (w - lr * x * d)) i (S j) rest
  end.

Fixpoint updateWeights_from (lr : float) (weights : Matrix)
    (dOutput : Vector) (i : nat) (input : Vector) : option Matrix :=
  match input with
  | [] => Some weights
  | x :: rest =>
      weights ← updateRow lr x weights i 0 dOutput;
      updateWeights_from lr weights dOutput (S i) rest
  end.

(** [bias[j] -= lr * dOutput[j]], from column [j] on. *)
Fixpoint updateBias_from (lr : float) (bias : Vector) (j : nat)
    (dOutput : Vector) : option Vector :=
  match dOutput with
  | [] => Some bias
  | d :: rest =>
      b ← bias !! j;
      updateBias_from lr (<[j := b - lr * d]> bias) (S j) rest
  end.

(** [linearBackward] returns [dInput]; the in-place updates of
    [weights] and [bias] are returned next to it. [lr] is
    [n.LearningRate]. *)
Definition linearBackward (lr : float) (input : Vector) (weights : Matrix)
    (bias : Vector) (dOutput : Vector) (update : bool)
    : option (Vector * Matrix * Vector) :=
  dInput ← gradInput_from weights dOutput 0 input;
  if update then
    weights ← updateWeights_from lr weights dOutput 0 input;
    bias ← updateBias_from lr bias 0 dOutput;
    Some (dInput, weights, bias)
  else Some (dInput, weights, bias).

(** [result[i] = a[i] * b[i]] for [i] in the range of [a]. *)
Fixpoint elementMul (a b : Vector) : option Vector :=
  match a with
  | [] => Some []
  | x :: a' =>
      match b with
      | [] => None
      | y :: b' => r ← elementMul a' b'; Some (x * y :: r)
      end
  end.

Definition Backward (n : QNetwork.t) (cache : forwardCache)
    (output : Vector) (targetAction : Z) (targetQ : float)
    : option QNetwork.t :=
  let lr := QNetwork.LearningRate n in
  dOutput ← GoInt.make F64.zero (QNetwork.OutputSize n);
  o ← GoInt.index output targetAction;
  _ ← GoInt.index dOutput targetAction;
  let dOutput := <[Z.to_nat targetAction := o - targetQ]> dOutput in
  '(dH2, w3, b3) ←
    linearBackward lr (h2 cache) (QNetwork.W3 n) (QNetwork.B3 n) dOutput true;
  dZ2 ← elementMul dH2 (reluDerivative (z2 cache));
  '(dH1, w2, b2) ←
    linearBackward lr (h1 cache) (QNetwork.W2 n) (QNetwork.B2 n) dZ2 true;
  dZ1 ← elementMul dH1 (reluDerivative (z1 cache));
  '(_, w1, b1) ←
    linearBackward lr (input cache) (QNetwork.W1 n) (QNetwork.B1 n) dZ1 true;
  Some {| QNetwork.W1 := w1; QNetwork.B1 := b1;
          QNetwork.W2 := w2; QNetwork.B2 := b2;
          QNetwork.W3 := w3; QNetwork.B3 := b3;
          QNetwork.InputSize := QNetwork.InputSize n;
          QNetwork.HiddenSize1 := QNetwork.HiddenSize1 n;
          QNetwork.HiddenSize2 := QNetwork.HiddenSize2 n;
          QNetwork.OutputSize := QNetwork.OutputSize n;
          QNetwork.LearningRate := QNetwork.LearningRate n;
          QNetwork.rng := QNetwork.rng n |}.

(** [for i := range src { copy(dst[i], src[i]) }]. *)
Fixpoint copyMatrix (dst src : Matrix) : option Matrix :=
  match src with
  | [] => Some dst
  | s :: src' =>
      match dst with
      | [] => None
      | d :: dst' =>
          rest ← copyMatrix dst' src'; Some (GoInt.copy d s :: rest)
      end
  end.

(** [n.CopyFrom(other)]: the updated [n]. *)
Definition CopyFrom (n other : QNetwork.t) : option QNetwork.t :=
  w1 ← copyMatrix (QNetwork.W1 n) (QNetwork.W1 other);
  let b1 := GoInt.copy (QNetwork.B1 n) (QNetwork.B1 other) in
  w2 ← copyMatrix (QNetwork.W2 n) (QNetwork.W2 other);
  let b2 := GoInt.copy (QNetwork.B2 n) (QNetwork.B2 other) in
  w3 ← copyMatrix (QNetwork.W3 n) (QNetwork.W3 other);
  let b3 := GoInt.copy (QNetwork.B3 n) (QNetwork.B3 other) in
  Some {| QNetwork.W1 := w1; QNetwork.B1 := b1;
          QNetwork.W2 := w2; QNetwork.B2 := b2;
          QNetwork.W3 := w3; QNetwork.B3 := b3;
          QNetwork.InputSize := QNetwork.InputSize n;
          QNetwork.HiddenSize1 := QNetwork.HiddenSize1 n;
          QNetwork.HiddenSize2 := QNetwork.HiddenSize2 n;
          QNetwork.OutputSize := QNetwork.OutputSize n;
          QNetwork.LearningRate := QNetwork.LearningRate n;
          QNetwork.rng := QNetwork.rng n |}.

Definition Clone (n : QNetwork.t) : option QNetwork.t :=
  clone ← NewQNetwork (QNetwork.InputSize n) (QNetwork.HiddenSize1 n)
             (QNetwork.HiddenSize2 n) (QNetwork.OutputSize n)
             (QNetwork.LearningRate n) 0;
  CopyFrom clone n.

(** The loop shared by [Max] and [MaxIndex], from index [i] on. *)
Fixpoint maxLoop (maxIdx : Z) (maxVal : float) (i : Z) (values : Vector)
    : Z * float :=
  match values with
  | [] => (maxIdx, maxVal)
  | v :: rest =>
      if F64.gtb v maxVal then maxLoop i v (i + 1)%Z rest
      else maxLoop maxIdx maxVal (i + 1)%Z rest
  end.

Definition MaxIndex (values : Vector) : option Z :=
  match values with
  | [] => None
  | v0 :: rest => Some (maxLoop 0 v0 1 rest).1
  end.

Definition Max (values : Vector) : option float :=
  match values with
  | [] => None
  | v0 :: rest => Some (maxLoop 0 v0 1 rest).2
  end.

End Network.

(** ** Persistence *)

Module NetworkWeights.
Record t := mk {
  W1 : Matrix; B1 : Vector;
  W2 : Matrix; B2 : Vector;
  W3 : Matrix; B3 : Vector;
  InputSize : Z;
  HiddenSize1 : Z;
  HiddenSize2 : Z;
  OutputSize : Z;
  LearningRate : float
}.
End NetworkWeights.

(** The old format, with unused two-dimensional bias fields. *)
Module legacyNetworkWeights.
Record t := mk {
  W1 : Matrix; B1 : Matrix; B1Vec : Vector;
  W2 : Matrix; B2 : Matrix; B2Vec : Vector;
  W3 : Matrix; B3 : Matrix; B3Vec : Vector;
  InputSize : Z;
  HiddenSize1 : Z;
  HiddenSize2 : Z;
  OutputSize : Z;
  LearningRate : float
}.
End legacyNetworkWeights.

(** [os] and [encoding/gob], as [LoadNetwork] uses them: opening a path
    gives the file's content or an error, and a content decodes into each
    of the two record types or fails with an error. Both decoders read
    the file from its start ([file.Seek(0, 0)] between them). *)
Module gob.
Class API := {
  error : Type;
  File : Type;
  Open : String.string -> File + error;
  Decode : File -> NetworkWeights.t + error;
  DecodeLegacy : File -> legacyNetworkWeights.t + error
}.
End gob.

Section Persistence.
Context `{rand.API} `{gob.API}.

Definition LoadNetwork (path : String.string) : QNetwork.t + gob.error :=
  match gob.Open path with
  | inr err => inr err
  | inl file =>
      let decoded :=
        match gob.Decode file with
        | inl weights => inl weights
        | inr _ =>
            match gob.DecodeLegacy file with
            | inr err => inr err
            | inl legacyWeights =>
                inl {| NetworkWeights.W1 := legacyNetworkWeights.W1 legacyWeights;
                       NetworkWeights.B1 := legacyNetworkWeights.B1Vec legacyWeights;
                       NetworkWeights.W2 := legacyNetworkWeights.W2 legacyWeights;
                       NetworkWeights.B2 := legacyNetworkWeights.B2Vec legacyWeights;
                       NetworkWeights.W3 := legacyNetworkWeights.W3 legacyWeights;
                       NetworkWeights.B3 := legacyNetworkWeights.B3Vec legacyWeights;
                       NetworkWeights.InputSize := legacyNetworkWeights.InputSize legacyWeights;
                       NetworkWeights.HiddenSize1 := legacyNetworkWeights.HiddenSize1 legacyWeights;
                       NetworkWeights.HiddenSize2 := legacyNetworkWeights.HiddenSize2 legacyWeights;
                       NetworkWeights.OutputSize := legacyNetworkWeights.OutputSize legacyWeights;
                       NetworkWeights.LearningRate := legacyNetworkWeights.LearningRate legacyWeights |}
            end
        end in
      match decoded with
      | inr err => inr err
      | inl weights =>
          inl {| QNetwork.W1 := NetworkWeights.W1 weights;
                 QNetwork.B1 := NetworkWeights.B1 weights;
                 QNetwork.W2 := NetworkWeights.W2 weights;
                 QNetwork.B2 := NetworkWeights.B2 weights;
                 QNetwork.W3 := NetworkWeights.W3 weights;
                 QNetwork.B3 := NetworkWeights.B3 weights;
                 QNetwork.InputSize := NetworkWeights.InputSize weights;
                 QNetwork.HiddenSize1 := NetworkWeights.HiddenSize1 weights;
                 QNetwork.HiddenSize2 := NetworkWeights.HiddenSize2 weights;
                 QNetwork.OutputSize := NetworkWeights.OutputSize weights;
                 QNetwork.LearningRate := NetworkWeights.LearningRate weights;
                 QNetwork.rng := rand.New 0 |}
      end
  end.

End Persistence.

(** ** The state encoder ([state.go]) *)

Definition Action := Z.
Definition GoStraight : Action := 0%Z.
Definition TurnLeft : Action := 1%Z.
Definition TurnRight : Action := 2%Z.
Definition NumActions : Z := 3%Z.

Definition ActionToDirection (currentDir : game.Direction) (action : Action)
    : game.Direction :=
  if (action =? GoStraight)%Z then currentDir
  else if (action =? TurnLeft)%Z then game.TurnLeft currentDir
  else if (action =? TurnRight)%Z then game.TurnRight currentDir
  else currentDir.

Definition StateSize : Z := 22%Z.

Definition boolToFloat (b : bool) : float := if b then 1.0 else 0.0.

Definition isDanger (pos : game.Position) (snakeID : Z)
    (state : game.GameState.t) : option bool :=
  game.IsDangerPosition pos snakeID (game.GameState.Snakes state)
    (game.GameState.Width state) (game.GameState.Height state).

Definition isDangerExtended (step1 step2 : game.Position) (snakeID : Z)
    (state : game.GameState.t) : option bool :=
  d1 ← isDanger step1 snakeID state;
  if (d1 : bool) then Some true else isDanger step2 snakeID state.

(** [features[i] = v] with its bounds check. *)
Definition store (features : Vector) (i : Z) (v : float) : option Vector :=
  _ ← GoInt.index features i; Some (<[Z.to_nat i := v]> features).

(** [&game.Snake{Body: []game.Position{p}}]: the other fields are zero. *)
Definition tempSnake (p : game.Position) : game.Snake.t :=
  {| game.Snake.ID := 0; game.Snake.Body := [p];
     game.Snake.Direction := game.Up; game.Snake.Alive := false;
     game.Snake.Score := 0; game.Snake.Grew := false |}.

(** [tempSnake.Body[0] = p]. *)
Definition setBody0 (s : game.Snake.t) (p : game.Position) : game.Snake.t :=
  {| game.Snake.ID := game.Snake.ID s;
     game.Snake.Body := <[0%nat := p]> (game.Snake.Body s);
     game.Snake.Direction := game.Snake.Direction s;
     game.Snake.Alive := game.Snake.Alive s;
     game.Snake.Score := game.Snake.Score s;
     game.Snake.Grew := game.Snake.Grew s |}.

(** The four relative-position flags written at [idx .. idx+3]. *)
Definition storeRelative (features : Vector) (idx : Z)
    (p head : game.Position) : option Vector :=
  features ← store features idx (boolToFloat (game.Y p <? game.Y head)%Z);
  features ← store features (idx + 1) (boolToFloat (game.Y head <? game.Y p)%Z);
  features ← store features (idx + 2) (boolToFloat (game.X p <? game.X head)%Z);
  store features (idx + 3) (boolToFloat (game.X head <? game.X p)%Z).

Definition EncodeState (state : game.GameState.t) (snakeID : Z)
    : option Vector :=
  features ← GoInt.make F64.zero StateSize;
  snake ← game.snake_at (game.GameState.Snakes state) snakeID;
  otherSnake ← game.snake_at (game.GameState.Snakes state) (GoInt.sub 1 snakeID);
  if negb (game.Snake.Alive snake) then Some features else
  head ← game.Head snake;
  let dir := game.Snake.Direction snake in
  (* 1. danger straight, left, right [0-2] *)
  straightPos ← game.NextHead snake dir;
  leftPos ← game.NextHead snake (game.TurnLeft dir);
  rightPos ← game.NextHead snake (game.TurnRight dir);
  d ← isDanger straightPos snakeID state;
  features ← store features 0 (boolToFloat d);
  d ← isDanger leftPos snakeID state;
  features ← store features 1 (boolToFloat d);
  d ← isDanger rightPos snakeID state;
  features ← store features 2 (boolToFloat d);
  (* 2. current direction, one-hot [3-6] *)
  features ← store features (3 + game.Direction_to_int dir) 1.0;
  (* 3. food direction [7-10] *)
  features ←
    (if game.Food.Active (game.GameState.Food state)
     then storeRelative features 7
            (game.Food.Position (game.GameState.Food state)) head
     else Some features);
  (* 4. opponent direction [11-14] *)
  features ←
    (if game.Snake.Alive otherSnake
     then oppHead ← game.Head otherSnake; storeRelative features 11 oppHead head
     else Some features);
  (* 5. distance to the opponent's head [15] *)
  features ←
    (if game.Snake.Alive otherSnake
     then oppHead ← game.Head otherSnake;
          let maxDist := F64.of_int (GoInt.add (game.GameState.Width state)
                                               (game.GameState.Height state)) in
          let dist := F64.of_int (game.ManhattanDistance head oppHead) in
          store features 15 (1.0 - dist / maxDist)
     else Some features);
  (* 6. distance to the nearest opponent segment [16] *)
  features ←
    (if game.Snake.Alive otherSnake
     then let minDist :=
            fold_left
              (fun minDist segment =>
                 let dist := F64.of_int (game.ManhattanDistance head segment) in
                 if PrimFloat.ltb dist minDist then dist else minDist)
              (game.Snake.Body otherSnake)
              (F64.of_int (GoInt.add (game.GameState.Width state)
                                     (game.GameState.Height state))) in
          let maxDist := F64.of_int (GoInt.add (game.GameState.Width state)
                                               (game.GameState.Height state)) in
          store features 16 (1.0 - minDist / maxDist)
     else Some features);
  (* 7. own length [17] *)
  let maxLength :=
    F64.of_int (GoInt.wrap64 (Z.quot (GoInt.mul (game.GameState.Width state)
                                                (game.GameState.Height state)) 2)) in
  features ← store features 17 (F64.of_int (game.Length snake) / maxLength);
  (* 8. opponent length [18] *)
  features ←
    (if game.Snake.Alive otherSnake
     then store features 18 (F64.of_int (game.Length otherSnake) / maxLength)
     else Some features);
  (* 9. extended danger, two steps ahead [19-21] *)
  let temp := tempSnake straightPos in
  straight2 ← game.NextHead temp dir;
  let temp := setBody0 temp leftPos in
  left2 ← game.NextHead temp (game.TurnLeft dir);
  let temp := setBody0 temp rightPos in
  right2 ← game.NextHead temp (game.TurnRight dir);
  d ← isDangerExtended straightPos straight2 snakeID state;
  features ← store features 19 (boolToFloat d);
  d ← isDangerExtended leftPos left2 snakeID state;
  features ← store features 20 (boolToFloat d);
  d ← isDangerExtended rightPos right2 snakeID state;
  store features 21 (boolToFloat d).

Definition CalculateShapingReward (prevState newState : game.GameState.t)
    (snakeID : Z) : option float :=
  prevSnake ← game.snake_at (game.GameState.Snakes prevState) snakeID;
  newSnake ← game.snake_at (game.GameState.Snakes newState) snakeID;
  if negb (game.Snake.Alive prevSnake) || negb (game.Snake.Alive newSnake)
  then Some 0.0 else
  if negb (game.Food.Active (game.GameState.Food prevState))
     || negb (game.Food.Active (game.GameState.Food newState))
  then Some 0.0 else
  prevHead ← game.Head prevSnake;
  let prevDist :=
    game.ManhattanDistance prevHead
      (game.Food.Position (game.GameState.Food prevState)) in
  newHead ← game.Head newSnake;
  let newDist :=
    game.ManhattanDistance newHead
      (game.Food.Position (game.GameState.Food newState)) in
  if (newDist <? prevDist)%Z then Some 0.1
  else if (prevDist <? newDist)%Z then Some (-0.1)
  else Some 0.0.

(** ** The replay buffer ([replay.go]) *)

Module Experience.
Record t := mk {
  State : Vector;
  Action : ai.Action;
  Reward : float;
  NextState : Vector;
  Done : bool
}.
(** Go's zero value of the struct. *)
Definition zero : t := mk [] 0%Z 0 [] false.
End Experience.

(** The private fields [capacity], [position] and [size] only ever hold
    lengths of and indices into [buffer], so they are natural numbers. *)
Module ReplayBuffer.
Record t `{rand.API} := mk {
  buffer : list Experience.t;
  capacity : nat;
  position : nat;
  size : nat;
  rng : rand.Rand
}.
End ReplayBuffer.

Section Replay.
Context `{rand.API}.

Definition NewReplayBuffer (capacity : Z) (seed : Z)
    : option ReplayBuffer.t :=
  buffer ← GoInt.make Experience.zero capacity;
  Some {| ReplayBuffer.buffer := buffer;
          ReplayBuffer.capacity := Z.to_nat capacity;
          ReplayBuffer.position := 0;
          ReplayBuffer.size := 0;
          ReplayBuffer.rng := rand.New seed |}.

(** [make] and [copy] of a slice: a fresh slice with the same values. *)
Definition copySlice (s : Vector) : Vector :=
  GoInt.copy (replicate (length s) F64.zero) s.

Definition Add (rb : ReplayBuffer.t) (exp : Experience.t)
    : option ReplayBuffer.t :=
  let stateCopy := copySlice (Experience.State exp) in
  let nextStateCopy := copySlice (Experience.NextState exp) in
  _ ← ReplayBuffer.buffer rb !! ReplayBuffer.position rb;
  let buffer :=
    <[ReplayBuffer.position rb :=
        {| Experience.State := stateCopy;
           Experience.Action := Experience.Action exp;
           Experience.Reward := Experience.Reward exp;
           Experience.NextState := nextStateCopy;
           Experience.Done := Experience.Done exp |}]>
      (ReplayBuffer.buffer rb) in
  if (ReplayBuffer.capacity rb =? 0)%nat then None else
  let position := ((ReplayBuffer.position rb + 1) mod ReplayBuffer.capacity rb)%nat in
  let size :=
    if (ReplayBuffer.size rb <? ReplayBuffer.capacity rb)%nat
    then S (ReplayBuffer.size rb) else ReplayBuffer.size rb in
  Some {| ReplayBuffer.buffer := buffer;
          ReplayBuffer.capacity := ReplayBuffer.capacity rb;
          ReplayBuffer.position := position;
          ReplayBuffer.size := size;
          ReplayBuffer.rng := ReplayBuffer.rng rb |}.

(** [Sample] returns the batch; the buffer comes back with its
    generator advanced by the draw of [Perm]. *)
Definition Sample (rb : ReplayBuffer.t) (batchSize : Z)
    : option (list Experience.t * ReplayBuffer.t) :=
  let batchSize :=
    if (Z.of_nat (ReplayBuffer.size rb) <? batchSize)%Z
    then Z.of_nat (ReplayBuffer.size rb) else batchSize in
  _ ← GoInt.make Experience.zero batchSize;
  let '(perm, g) := rand.Perm (ReplayBuffer.rng rb) (ReplayBuffer.size rb) in
  if (Z.of_nat (length perm) <? batchSize)%Z then None else
  let indices := take (Z.to_nat batchSize) perm in
  batch ← mapM (fun idx => ReplayBuffer.buffer rb !! idx) indices;
  Some (batch,
        {| ReplayBuffer.buffer := ReplayBuffer.buffer rb;
           ReplayBuffer.capacity := ReplayBuffer.capacity rb;
           ReplayBuffer.position := ReplayBuffer.position rb;
           ReplayBuffer.size := ReplayBuffer.size rb;
           ReplayBuffer.rng := g |}).

Definition Size (rb : ReplayBuffer.t) : Z := Z.of_nat (ReplayBuffer.size rb).

Definition IsFull (rb : ReplayBuffer.t) : bool :=
  (ReplayBuffer.size rb =? ReplayBuffer.capacity rb)%nat.

Definition Clear (rb : ReplayBuffer.t) : ReplayBuffer.t :=
  {| ReplayBuffer.buffer := ReplayBuffer.buffer rb;
     ReplayBuffer.capacity := ReplayBuffer.capacity rb;
     ReplayBuffer.position := 0;
     ReplayBuffer.size := 0;
     ReplayBuffer.rng := ReplayBuffer.rng rb |}.

End Replay.

(** ** The agent ([DQNAgent]) *)

Module DQNAgent.
Record t `{rand.API} := mk {
  PolicyNet : QNetwork.t;
  TargetNet : QNetwork.t;
  ReplayBuffer : ai.ReplayBuffer.t;
  Gamma : float;
  Epsilon : float;
  EpsilonMin : float;
  EpsilonDecay : float;
  BatchSize : Z;
  StepCount : Z;
  TargetUpdate : Z;
  TrainInterval : Z;
  rng : rand.Rand
}.

Section Setters.
Context `{rand.API}.

Definition set_PolicyNet (a : t) (n : QNetwork.t) : t :=
  mk _ n (TargetNet a) (ReplayBuffer a) (Gamma a) (Epsilon a)
     (EpsilonMin a) (EpsilonDecay a) (BatchSize a) (StepCount a)
     (TargetUpdate a) (TrainInterval a) (rng a).

Definition set_TargetNet (a : t) (n : QNetwork.t) : t :=
  mk _ (PolicyNet a) n (ReplayBuffer a) (Gamma a) (Epsilon a)
     (EpsilonMin a) (EpsilonDecay a) (BatchSize a) (StepCount a)
     (TargetUpdate a) (TrainInterval a) (rng a).

Definition set_ReplayBuffer (a : t) (rb : ai.ReplayBuffer.t) : t :=
  mk _ (PolicyNet a) (TargetNet a) rb (Gamma a) (Epsilon a)
     (EpsilonMin a) (EpsilonDecay a) (BatchSize a) (StepCount a)
     (TargetUpdate a) (TrainInterval a) (rng a).

Definition set_Epsilon (a : t) (eps : float) : t :=
  mk _ (PolicyNet a) (TargetNet a) (ReplayBuffer a) (Gamma a) eps
     (EpsilonMin a) (EpsilonDecay a) (BatchSize a) (StepCount a)
     (TargetUpdate a) (TrainInterval a) (rng a).

Definition set_StepCount (a : t) (n : Z) : t :=
  mk _ (PolicyNet a) (TargetNet a) (ReplayBuffer a) (Gamma a) (Epsilon a)
     (EpsilonMin a) (EpsilonDecay a) (BatchSize a) n
     (TargetUpdate a) (TrainInterval a) (rng a).

Definition set_rng (a : t) (g : rand.Rand) : t :=
  mk _ (PolicyNet a) (TargetNet a) (ReplayBuffer a) (Gamma a) (Epsilon a)
     (EpsilonMin a) (EpsilonDecay a) (BatchSize a) (StepCount a)
     (TargetUpdate a) (TrainInterval a) g.
End Setters.
End DQNAgent.

Section Agent.
Context `{rand.API}.

Definition NewDQNAgent (cfg : config.TrainingConfig) (seed : Z)
    : option DQNAgent.t :=
  let rng := rand.New seed in
  let '(seed1, rng) := rand.Int63 rng in
  policyNet ← NewQNetwork (config.InputSize cfg) (config.HiddenSize1 cfg)
                 (config.HiddenSize2 cfg) (config.OutputSize cfg)
                 (config.LearningRate cfg) seed1;
  targetNet ← Clone policyNet;
  let '(seed2, rng) := rand.Int63 rng in
  replayBuffer ← NewReplayBuffer (config.BufferSize cfg) seed2;
  Some {| DQNAgent.PolicyNet := policyNet;
          DQNAgent.TargetNet := targetNet;
          DQNAgent.ReplayBuffer := replayBuffer;
          DQNAgent.Gamma := config.Gamma cfg;
          DQNAgent.Epsilon := config.EpsilonStart cfg;
          DQNAgent.EpsilonMin := config.EpsilonMin cfg;
          DQNAgent.EpsilonDecay := config.EpsilonDecay cfg;
          DQNAgent.BatchSize := config.BatchSize cfg;
          DQNAgent.StepCount := 0;
          DQNAgent.TargetUpdate := config.TargetUpdate cfg;
          DQNAgent.TrainInterval := 4;
          DQNAgent.rng := rng |}.

Definition SelectActionGreedy (a : DQNAgent.t) (state : Vector)
    : option Action :=
  qValues ← Forward (DQNAgent.PolicyNet a) state;
  MaxIndex qValues.

Definition SelectAction (a : DQNAgent.t) (state : Vector)
    : option (Action * DQNAgent.t) :=
  let '(u, g) := rand.Float64 (DQNAgent.rng a) in
  if PrimFloat.ltb u (DQNAgent.Epsilon a) then
    let '(k, g) := rand.Intn g NumActions in
    Some (k, DQNAgent.set_rng a g)
  else
    let a := DQNAgent.set_rng a g in
    act ← SelectActionGreedy a state;
    Some (act, a).

Definition Remember (a : DQNAgent.t) (state : Vector) (action : Action)
    (reward : float) (nextState : Vector) (done : bool)
    : option DQNAgent.t :=
  rb ← Add (DQNAgent.ReplayBuffer a)
          (Experience.mk state action reward nextState done);
  Some (DQNAgent.set_ReplayBuffer a rb).

(** The value of [targetQ] in [trainOnExperience]. *)
Definition targetQ_of (a : DQNAgent.t) (exp : Experience.t) : option float :=
  if Experience.Done exp then Some (Experience.Reward exp)
  else
    nextQValues ← Forward (DQNAgent.TargetNet a) (Experience.NextState exp);
    maxNextQ ← Max nextQValues;
    Some (Experience.Reward exp + DQNAgent.Gamma a * maxNextQ).

Definition trainOnExperience (a : DQNAgent.t) (exp : Experience.t)
    : option (DQNAgent.t * float) :=
  targetQ ← targetQ_of a exp;
  '(output, cache) ← ForwardWithCache (DQNAgent.PolicyNet a) (Experience.State exp);
  currentQ ← GoInt.index output (Experience.Action exp);
  let loss := (currentQ - targetQ) * (currentQ - targetQ) * 0.5 in
  policy ← Backward (DQNAgent.PolicyNet a) cache output
              (Experience.Action exp) targetQ;
  Some (DQNAgent.set_PolicyNet a policy, loss).

Definition UpdateTargetNetwork (a : DQNAgent.t) : option DQNAgent.t :=
  target ← CopyFrom (DQNAgent.TargetNet a) (DQNAgent.PolicyNet a);
  Some (DQNAgent.set_TargetNet a target).

(** The loop [for _, exp := range batch] of [Train]. *)
Fixpoint trainBatch (a : DQNAgent.t) (batch : list Experience.t)
    (totalLoss : float) : option (DQNAgent.t * float) :=
  match batch with
  | [] => Some (a, totalLoss)
  | exp :: rest =>
      '(a, loss) ← trainOnExperience a exp;
      trainBatch a rest (totalLoss + loss)
  end.

Definition Train (a : DQNAgent.t) : option (DQNAgent.t * float) :=
  let a := DQNAgent.set_StepCount a (GoInt.add (DQNAgent.StepCount a) 1) in
  if (Size (DQNAgent.ReplayBuffer a) <? DQNAgent.BatchSize a)%Z
  then Some (a, 0.0) else
  r ← GoInt.rem (DQNAgent.StepCount a) (DQNAgent.TrainInterval a);
  if negb (r =? 0)%Z then Some (a, 0.0) else
  '(batch, rb) ← Sample (DQNAgent.ReplayBuffer a) (DQNAgent.BatchSize a);
  let a := DQNAgent.set_ReplayBuffer a rb in
  '(a, totalLoss) ← trainBatch a batch 0.0;
  r ← GoInt.rem (DQNAgent.StepCount a) (DQNAgent.TargetUpdate a);
  a ← (if (r =? 0)%Z then UpdateTargetNetwork a else Some a);
  Some (a, totalLoss / F64.of_int (Z.of_nat (length batch))).

Definition DecayEpsilon (a : DQNAgent.t) : DQNAgent.t :=
  let a := DQNAgent.set_Epsilon a (DQNAgent.Epsilon a * DQNAgent.EpsilonDecay a) in
  if PrimFloat.ltb (DQNAgent.Epsilon a) (DQNAgent.EpsilonMin a)
  then DQNAgent.set_Epsilon a (DQNAgent.EpsilonMin a)
  else a.

Definition SetEpsilon (a : DQNAgent.t) (eps : float) : DQNAgent.t :=
  DQNAgent.set_Epsilon a eps.

Definition GetQValues (a : DQNAgent.t) (state : Vector) : option Vector :=
  Forward (DQNAgent.PolicyNet a) state.

(** [Load] returns the agent and Go's [error] result ([None] for
    [nil]). The outer [option] is a panic, which only [Clone] can
    raise here. *)
Definition Load `{gob.API} (a : DQNAgent.t) (path : String.string)
    : option (DQNAgent.t * option gob.error) :=
  match LoadNetwork path with
  | inr err => Some (a, Some err)
  | inl net =>
      let a := DQNAgent.set_PolicyNet a net in
      target ← Clone net;
      Some (DQNAgent.set_TargetNet a target, None)
  end.

End Agent.

(** ** Checkpoints and saving *)

Module AgentState.
Record t := mk { Epsilon : float; StepCount : Z }.
End AgentState.

Section Checkpoint.
Context `{rand.API}.

Definition GetState (a : DQNAgent.t) : AgentState.t :=
  {| AgentState.Epsilon := DQNAgent.Epsilon a;
     AgentState.StepCount := DQNAgent.StepCount a |}.

Definition SetState (a : DQNAgent.t) (state : AgentState.t) : DQNAgent.t :=
  let a := DQNAgent.set_Epsilon a (AgentState.Epsilon state) in
  DQNAgent.set_StepCount a (AgentState.StepCount state).

End Checkpoint.

(** The files [Save] writes and [LoadNetwork] reads. [Create path] is the
    outcome of [os.Create] ([None] for success), [Encode] gives the bytes
    the gob encoder leaves in the file and its error, if any, and the two
    decoders are those of [gob.API]. A disk maps a path to the content of
    the file there; opening a path that holds no file fails with
    [NotExist]. *)
Module disk.
Class Codec := {
  File : Type;
  error : Type;
  Create : string -> option error;
  NotExist : string -> error;
  Encode : NetworkWeights.t -> File * option error;
  Decode : File -> NetworkWeights.t + error;
  DecodeLegacy : File -> legacyNetworkWeights.t + error
}.

Definition Disk `{Codec} : Type := string -> option File.

(** The disk after [path] has been written with [content]. *)
Definition write `{Codec} (d : Disk) (path : string) (content : File) : Disk :=
  fun p => if String.eqb p path then Some content else d p.

(** Reading from a disk, as the interface [LoadNetwork] is written on. *)
Definition reader `{Codec} (d : Disk) : gob.API :=
  {| gob.error := error;
     gob.File := File;
     gob.Open := fun p =>
       match d p with Some f => inl f | None => inr (NotExist p) end;
     gob.Decode := Decode;
     gob.DecodeLegacy := DecodeLegacy |}.
End disk.

Section Saving.
Context `{rand.API} `{disk.Codec}.

(** [n.Save(path)]: the disk afterwards and the error returned. *)
Definition Save (n : QNetwork.t) (path : string) (d : disk.Disk)
    : disk.Disk * option disk.error :=
  match disk.Create path with
  | Some err => (d, Some err)
  | None =>
      let weights :=
        {| NetworkWeights.W1 := QNetwork.W1 n;
           NetworkWeights.B1 := QNetwork.B1 n;
           NetworkWeights.W2 := QNetwork.W2 n;
           NetworkWeights.B2 := QNetwork.B2 n;
           NetworkWeights.W3 := QNetwork.W3 n;
           NetworkWeights.B3 := QNetwork.B3 n;
           NetworkWeights.InputSize := QNetwork.InputSize n;
           NetworkWeights.HiddenSize1 := QNetwork.HiddenSize1 n;
           NetworkWeights.HiddenSize2 := QNetwork.HiddenSize2 n;
           NetworkWeights.OutputSize := QNetwork.OutputSize n;
           NetworkWeights.LearningRate := QNetwork.LearningRate n |} in
      let '(content, err) := disk.Encode weights in
      (disk.write d path content, err)
  end.

(** [a.Save(path)] saves the policy network. *)
Definition DQNAgent_Save (a : DQNAgent.t) (path : string) (d : disk.Disk)
    : disk.Disk * option disk.error :=
  Save (DQNAgent.PolicyNet a) path d.

End Saving.

End ai.

(* ================================================================== *)
(** * The training program: one episode ([main.go]) *)
(* ================================================================== *)

(** The inner loop of the training program, which plays one episode:
    [state] is the pointer [g.Reset()] returned, so what the loop reads
    through it is the state of [g] at that moment; [prevState] is the
    state of a clone and keeps the position before the step. *)
Module trainer.
Section Episode.
Context `{rand.API}.
Import ai.

(** The body of the loop: the agent and the game after it, and the two
    rewards it adds to [episodeReward]. *)
Definition trainingStep (agent : DQNAgent.t) (g : Game.t)
    : option (DQNAgent.t * Game.t * (float * float)) :=
  let state := Game.State g in
  state0 ← EncodeState state 0;
  state1 ← EncodeState state 1;
  '(action0, agent) ← SelectAction agent state0;
  '(action1, agent) ← SelectAction agent state1;
  let dir0 :=
    ActionToDirection (game.Snake.Direction (game.GameState.Snakes state).1)
      action0 in
  let dir1 :=
    ActionToDirection (game.Snake.Direction (game.GameState.Snakes state).2)
      action1 in
  let '(clone, g) := Game.Clone g in
  let prevState := Game.State clone in
  '(g, result) ← Game.Step g (dir0, dir1);
  let state := Game.State g in
  nextState0 ← EncodeState state 0;
  nextState1 ← EncodeState state 1;
  shaping0 ← CalculateShapingReward prevState state 0;
  let reward0 := ((StepResult.Rewards result).1 + shaping0)%float in
  shaping1 ← CalculateShapingReward prevState state 1;
  let reward1 := ((StepResult.Rewards result).2 + shaping1)%float in
  agent ← Remember agent state0 action0 reward0 nextState0
            ((StepResult.Died result).1 || StepResult.GameOver result);
  agent ← Remember agent state1 action1 reward1 nextState1
            ((StepResult.Died result).2 || StepResult.GameOver result);
  '(agent, _) ← Train agent;
  Some (agent, g, (reward0, reward1)).

(** [for !state.GameOver && steps < trainCfg.MaxStepsPerEp]: [steps]
    goes up by one in every round, so the loop makes at most
    [remaining = MaxStepsPerEp - steps] rounds. *)
Fixpoint innerLoop (remaining : nat) (agent : DQNAgent.t) (g : Game.t)
    (episodeReward : float * float) (steps : Z)
    : option (DQNAgent.t * Game.t * (float * float) * Z) :=
  match remaining with
  | O => Some (agent, g, episodeReward, steps)
  | S remaining =>
      if game.GameState.GameOver (Game.State g)
      then Some (agent, g, episodeReward, steps)
      else
        let steps := (steps + 1)%Z in
        '(agent, g, reward) ← trainingStep agent g;
        innerLoop remaining agent g
          ((episodeReward.1 + reward.1)%float,
           (episodeReward.2 + reward.2)%float) steps
  end.

(** [state := g.Reset()] and the loop after it. *)
Definition playEpisode (maxStepsPerEp : Z) (agent : DQNAgent.t) (g : Game.t)
    : option (DQNAgent.t * Game.t * (float * float) * Z) :=
  g ← Game.Reset g;
  innerLoop (Z.to_nat maxStepsPerEp) agent g (0, 0)%float 0.

End Episode.
End trainer.

(* ================================================================== *)
(** * Concrete instances used by the examples *)
(* ================================================================== *)

Module Fixtures.

Import ai.
Local Open Scope float_scope.

(** A deterministic generator: the state counts the draws, [Perm]
    returns the reversed identity. *)
#[export] Instance counterRand : rand.API := {|
  rand.Rand := Z;
  rand.New := fun seed => seed;
  rand.Int63 := fun g => (g, (g + 1)%Z);
  rand.NormFloat64 := fun g => (0.5, (g + 1)%Z);
  rand.Float64 := fun g => (0.5, (g + 1)%Z);
  rand.Intn := fun g _ => (0%Z, (g + 1)%Z);
  rand.Perm := fun g n => (rev (seq 0 n), (g + 1)%Z)
|}.

(** A file system with no readable model: one path is absent, the other
    holds bytes that neither decoder accepts. Errors are numbered. *)
#[export] Instance noModelFiles : gob.API := {|
  gob.error := nat;
  gob.File := unit;
  gob.Open := fun path =>
    if String.eqb path "models/garbage.gob"%string then inl tt else inr 2%nat;
  gob.Decode := fun _ => inr 11%nat;
  gob.DecodeLegacy := fun _ => inr 12%nat
|}.

(** A 2-2-2-3 network with dyadic weights. *)
Definition net0 : QNetwork.t :=
  {| QNetwork.W1 := [[0.5; 0.25]; [0.25; 0.5]]; QNetwork.B1 := [0; 0];
     QNetwork.W2 := [[0.5; 0.25]; [0.25; 0.5]]; QNetwork.B2 := [0; 0];
     QNetwork.W3 := [[1; 0.5; 0.25]; [0.5; 1; 0.25]]; QNetwork.B3 := [0; 0; 0];
     QNetwork.InputSize := 2; QNetwork.HiddenSize1 := 2;
     QNetwork.HiddenSize2 := 2; QNetwork.OutputSize := 3;
     QNetwork.LearningRate := 0.5;
     QNetwork.rng := 0%Z |}.

Definition emptyBuffer (capacity : nat) : ReplayBuffer.t :=
  {| ReplayBuffer.buffer := replicate capacity Experience.zero;
     ReplayBuffer.capacity := capacity;
     ReplayBuffer.position := 0;
     ReplayBuffer.size := 0;
     ReplayBuffer.rng := 0%Z |}.

(** An agent as [NewDQNAgent] lays it out (train interval 4, policy and
    target equal), over [net0]. *)
Definition agent0 (capacity : nat) (batchSize targetUpdate : Z) : DQNAgent.t :=
  {| DQNAgent.PolicyNet := net0;
     DQNAgent.TargetNet := net0;
     DQNAgent.ReplayBuffer := emptyBuffer capacity;
     DQNAgent.Gamma := 0.99;
     DQNAgent.Epsilon := 1.0;
     DQNAgent.EpsilonMin := 0.01;
     DQNAgent.EpsilonDecay := 0.995;
     DQNAgent.BatchSize := batchSize;
     DQNAgent.StepCount := 0;
     DQNAgent.TargetUpdate := targetUpdate;
     DQNAgent.TrainInterval := 4;
     DQNAgent.rng := 0%Z |}.

Definition terminalExp : Experience.t :=
  Experience.mk [1; 0] TurnLeft (-1) [0; 1] true.

Definition stepExp : Experience.t :=
  Experience.mk [1; 1] GoStraight 0.5 [1; 0] false.

(** [Remember] applied to each experience in turn. *)
Fixpoint rememberAll (a : DQNAgent.t) (exps : list Experience.t)
    : option DQNAgent.t :=
  match exps with
  | [] => Some a
  | e :: rest =>
      a ← Remember a (Experience.State e) (Experience.Action e)
            (Experience.Reward e) (Experience.NextState e) (Experience.Done e);
      rememberAll a rest
  end.

(** [n] successive calls of [Train], losses dropped. *)
Fixpoint trainTimes (n : nat) (a : DQNAgent.t) : option DQNAgent.t :=
  match n with
  | O => Some a
  | S k => '(a, _) ← Train a; trainTimes k a
  end.

(** A codec that stores the record itself: creating and encoding never
    fail, and the current-format decoder reads back what was written. *)
#[export] Instance plainCodec : disk.Codec := {|
  disk.File := NetworkWeights.t;
  disk.error := nat;
  disk.Create := fun _ => None;
  disk.NotExist := fun _ => 2%nat;
  disk.Encode := fun w => (w, None);
  disk.Decode := fun f => inl f;
  disk.DecodeLegacy := fun _ => inr 12%nat
|}.

(** A disk without files. *)
Definition emptyDisk : disk.Disk := fun _ => None.

(** A configuration of the size of [net0]: batches of one transition, a
    buffer of four slots, a target sync every second step. *)
Definition smallConfig : config.TrainingConfig :=
  {| config.InputSize := 2; config.HiddenSize1 := 2; config.HiddenSize2 := 2;
     config.OutputSize := 3; config.LearningRate := 0.5;
     config.Gamma := 0.99; config.EpsilonStart := 1.0;
     config.EpsilonMin := 0.01; config.EpsilonDecay := 0.995;
     config.BatchSize := 1; config.BufferSize := 4; config.TargetUpdate := 2;
     config.Episodes := 1; config.MaxStepsPerEp := 10;
     config.SaveFrequency := 1 |}.

(** A configuration for the 22 features of the state encoder, with
    small hidden layers. *)
Definition episodeConfig : config.TrainingConfig :=
  {| config.InputSize := 22; config.HiddenSize1 := 3; config.HiddenSize2 := 3;
     config.OutputSize := 3; config.LearningRate := 0.5;
     config.Gamma := 0.99; config.EpsilonStart := 1.0;
     config.EpsilonMin := 0.01; config.EpsilonDecay := 0.995;
     config.BatchSize := 2; config.BufferSize := 8; config.TargetUpdate := 4;
     config.Episodes := 1; config.MaxStepsPerEp := 3;
     config.SaveFrequency := 1 |}.

End Fixtures.

(* ================================================================== *)
(** * The vocabulary of the properties *)
(* ================================================================== *)

Section Vocabulary.
Import ai.
Context `{rand.API}.
Local Open Scope float_scope.


(** A call of [Train] reaches the batch loop when neither early return is taken. *)
Definition updates (a : DQNAgent.t) : Prop :=
  (DQNAgent.BatchSize a <= Size (DQNAgent.ReplayBuffer a))%Z /\
  GoInt.rem (GoInt.add (DQNAgent.StepCount a) 1) (DQNAgent.TrainInterval a)
    = Some 0%Z.

(** The TD target in the specification's words: the reward alone for a
    terminal transition, else [reward + gamma * max(Q_target(nextState))]. *)
Definition spec_td_target (gamma : float) (target : QNetwork.t)
    (exp : Experience.t) : option float :=
  if Experience.Done exp then Some (Experience.Reward exp)
  else
    q ← Forward target (Experience.NextState exp);
    m ← Max q;
    Some (Experience.Reward exp + gamma * m).

(** [BackwardCalls p batch ts p']: starting from policy [p], [Backward]
    is called once for each transition of [batch], in order, on the
    cache and output of a forward pass through the current policy, with
    the targets [ts]; each call yields the policy the next one starts
    from, and the last one yields [p']. *)
Inductive BackwardCalls :
    QNetwork.t -> list Experience.t -> list float -> QNetwork.t -> Prop :=
| calls_done p : BackwardCalls p [] [] p
| calls_step p exp rest t ts out cache p1 p' :
    ForwardWithCache p (Experience.State exp) = Some (out, cache) ->
    Backward p cache out (Experience.Action exp) t = Some p1 ->
    BackwardCalls p1 rest ts p' ->
    BackwardCalls p (exp :: rest) (t :: ts) p'.

(** The TD errors [output[action] - targetQ] of a batch, in the
    specification's words: each output is taken from the policy as it is
    before that sample's update, and the update is applied before the
    next sample. *)
Fixpoint spec_td_errors (gamma : float) (target policy : QNetwork.t)
    (batch : list Experience.t) : option (list float) :=
  match batch with
  | [] => Some []
  | exp :: rest =>
      t ← spec_td_target gamma target exp;
      '(out, cache) ← ForwardWithCache policy (Experience.State exp);
      q ← GoInt.index out (Experience.Action exp);
      policy ← Backward policy cache out (Experience.Action exp) t;
      errs ← spec_td_errors gamma target policy rest;
      Some (q - t :: errs)
  end.

(** Left-to-right sum from 0 divided by the count, as [Train] forms it. *)
Definition mean (xs : list float) : float :=
  fold_left PrimFloat.add xs 0.0 / F64.of_int (Z.of_nat (length xs)).

Definition squared (d : float) : float := d * d.

Definition half_squared (d : float) : float := d * d * 0.5.

(** [Add] applied to each experience in turn. *)
Fixpoint addAll (rb : ReplayBuffer.t) (exps : list Experience.t)
    : option ReplayBuffer.t :=
  match exps with
  | [] => Some rb
  | e :: rest => rb ← Add rb e; addAll rb rest
  end.

(** The ring after the experiences [h] have been added, oldest first:
    the cursor sits at [length h mod c], the count is [min (length h) c],
    and the slot [j mod c] holds the [j]-th experience for each of the
    last [c] positions [j]. *)
Definition ring (c : nat) (h : list Experience.t) (rb : ReplayBuffer.t)
    : Prop :=
  ReplayBuffer.capacity rb = c /\
  length (ReplayBuffer.buffer rb) = c /\
  ReplayBuffer.position rb = length h mod c /\
  ReplayBuffer.size rb = min (length h) c /\
  forall j, j < length h -> length h <= j + c ->
    ReplayBuffer.buffer rb !! (j mod c) = h !! j.

(** The cell one step from [p] in direction [d]. *)
Definition cell_ahead (p : game.Position) (d : game.Direction)
    : game.Position :=
  match d with
  | game.Up => game.Add p 0 (-1)
  | game.Down => game.Add p 0 1
  | game.Left => game.Add p (-1) 0
  | game.Right => game.Add p 1 0
  end.

(** The two-step danger flag of a relative action, in the
    specification's words: with [d] the direction the action turns the
    snake to, the one-step cell lies one step from the head in direction
    [d], the two-step cell one more step from there in the same
    direction [d], and the flag is 1 exactly when one of the two cells
    is dangerous. *)
Definition two_step_flag (state : game.GameState.t) (snakeID : Z)
    (head : game.Position) (dir : game.Direction) (action : Action)
    (flag : float) : Prop :=
  let d := ActionToDirection dir action in
  let step1 := cell_ahead head d in
  let step2 := cell_ahead step1 d in
  exists d1 d2,
    isDanger step1 snakeID state = Some d1 /\
    isDanger step2 snakeID state = Some d2 /\
    flag = boolToFloat (d1 || d2).

(** [rows] rows of [cols] entries each. *)
Definition has_shape (m : Matrix) (rows cols : nat) : Prop :=
  length m = rows /\ Forall (fun row => length row = cols) m.

(** The data-model invariant of the network: every matrix and bias
    vector has the size its layer widths give it. *)
Definition well_shaped (n : QNetwork.t) : Prop :=
  (0 <= QNetwork.InputSize n)%Z /\ (0 <= QNetwork.HiddenSize1 n)%Z /\
  (0 <= QNetwork.HiddenSize2 n)%Z /\ (0 <= QNetwork.OutputSize n)%Z /\
  has_shape (QNetwork.W1 n) (Z.to_nat (QNetwork.InputSize n))
            (Z.to_nat (QNetwork.HiddenSize1 n)) /\
  length (QNetwork.B1 n) = Z.to_nat (QNetwork.HiddenSize1 n) /\
  has_shape (QNetwork.W2 n) (Z.to_nat (QNetwork.HiddenSize1 n))
            (Z.to_nat (QNetwork.HiddenSize2 n)) /\
  length (QNetwork.B2 n) = Z.to_nat (QNetwork.HiddenSize2 n) /\
  has_shape (QNetwork.W3 n) (Z.to_nat (QNetwork.HiddenSize2 n))
            (Z.to_nat (QNetwork.OutputSize n)) /\
  length (QNetwork.B3 n) = Z.to_nat (QNetwork.OutputSize n).

(** The network with its first weight matrix replaced. *)
Definition with_W1 (n : QNetwork.t) (w1 : Matrix) : QNetwork.t :=
  QNetwork.mk _ w1 (QNetwork.B1 n) (QNetwork.W2 n) (QNetwork.B2 n)
    (QNetwork.W3 n) (QNetwork.B3 n) (QNetwork.InputSize n)
    (QNetwork.HiddenSize1 n) (QNetwork.HiddenSize2 n)
    (QNetwork.OutputSize n) (QNetwork.LearningRate n) (QNetwork.rng n).

(** The three weight matrices and three bias vectors of a network. *)
Definition weights_of (n : QNetwork.t) :=
  (QNetwork.W1 n, QNetwork.B1 n, QNetwork.W2 n, QNetwork.B2 n,
   QNetwork.W3 n, QNetwork.B3 n).

(** Their sizes: the length of every row and of every bias vector. *)
Definition shape_of (n : QNetwork.t) :=
  (map length (QNetwork.W1 n), length (QNetwork.B1 n),
   map length (QNetwork.W2 n), length (QNetwork.B2 n),
   map length (QNetwork.W3 n), length (QNetwork.B3 n)).

(** A transition the networks can process: its vectors are no longer than
    the input width and its action indexes an output. *)
Definition fits (n : QNetwork.t) (e : Experience.t) : Prop :=
  (Z.of_nat (length (Experience.State e)) <= QNetwork.InputSize n)%Z /\
  (Z.of_nat (length (Experience.NextState e)) <= QNetwork.InputSize n)%Z /\
  (0 <= Experience.Action e < QNetwork.OutputSize n)%Z.

(** The agents the training loop is run on. *)
Definition trainable (a : DQNAgent.t) : Prop :=
  well_shaped (DQNAgent.PolicyNet a) /\
  well_shaped (DQNAgent.TargetNet a) /\
  shape_of (DQNAgent.TargetNet a) = shape_of (DQNAgent.PolicyNet a) /\
  QNetwork.InputSize (DQNAgent.TargetNet a)
    = QNetwork.InputSize (DQNAgent.PolicyNet a) /\
  (0 < QNetwork.OutputSize (DQNAgent.TargetNet a))%Z /\
  DQNAgent.TrainInterval a <> 0%Z /\
  DQNAgent.TargetUpdate a <> 0%Z /\
  (0 <= DQNAgent.BatchSize a)%Z /\
  ReplayBuffer.size (DQNAgent.ReplayBuffer a)
    <= length (ReplayBuffer.buffer (DQNAgent.ReplayBuffer a)) /\
  forall i e,
    i < ReplayBuffer.size (DQNAgent.ReplayBuffer a) ->
    ReplayBuffer.buffer (DQNAgent.ReplayBuffer a) !! i = Some e ->
    fits (DQNAgent.PolicyNet a) e.

(** Coordinates far from the ends of the [int] range, as every board
    coordinate is. *)
Definition near_origin (p : game.Position) : Prop :=
  (- 2 ^ 61 < game.X p < 2 ^ 61)%Z /\ (- 2 ^ 61 < game.Y p < 2 ^ 61)%Z.

(** The snake with identifier [snakeID] facing its opponent. *)
Definition opponent (snakes : game.Snake.t * game.Snake.t) (snakeID : Z)
    : game.Snake.t :=
  if (snakeID =? 0)%Z then snakes.2 else snakes.1.

(** The direction [Move] takes when asked for [dir]. *)
Definition effective (s : game.Snake.t) (dir : game.Direction)
    : game.Direction :=
  if game.Direction_eqb dir (game.Opposite (game.Snake.Direction s))
  then game.Snake.Direction s else dir.

(** The snake with identifier [snakeID] (0 or anything else for 1). *)
Definition own (snakes : game.Snake.t * game.Snake.t) (snakeID : Z)
    : game.Snake.t :=
  if (snakeID =? 0)%Z then snakes.1 else snakes.2.

(** The cell is outside a [width] by [height] board. *)
Definition off_board (pos : game.Position) (width height : Z) : Prop :=
  (game.X pos < 0 \/ width <= game.X pos \/
   game.Y pos < 0 \/ height <= game.Y pos)%Z.

(** The cell from which one step in direction [d] leads to [p]. *)
Definition cell_behind (p : game.Position) (d : game.Direction)
    : game.Position :=
  cell_ahead p (game.Opposite d).

(** The sum of [row[j] * dOutput[j]] over the columns [j] of [dOutput],
    accumulated from the left starting at 0, as [linearBackward]
    accumulates [dInput[i]]. *)
Definition weighted_sum (row dOutput : Vector) : float :=
  fold_left (fun acc p => (acc + p.1 * p.2)%float) (zip row dOutput) 0%float.

(** The contract of [Float64]: a draw lies in [0, 1). *)
Definition Float64_contract : Prop :=
  forall g, PrimFloat.leb 0 (rand.Float64 g).1 = true /\
            PrimFloat.ltb (rand.Float64 g).1 1 = true.

(** A replay buffer as [NewReplayBuffer], [Add] and [Clear] leave it,
    with room for at least one transition: the cursor is inside the
    slice, and while the buffer is filling up it sits right after the
    stored transitions. *)
Definition sound_buffer (rb : ReplayBuffer.t) : Prop :=
  length (ReplayBuffer.buffer rb) = ReplayBuffer.capacity rb /\
  (0 < ReplayBuffer.capacity rb)%nat /\
  (ReplayBuffer.position rb < ReplayBuffer.capacity rb)%nat /\
  (ReplayBuffer.size rb <= ReplayBuffer.capacity rb)%nat /\
  ((ReplayBuffer.size rb < ReplayBuffer.capacity rb)%nat ->
   ReplayBuffer.position rb = ReplayBuffer.size rb).

(** An agent on which every method can be called: its networks and
    settings are those of a [trainable] agent, its buffer is sound, and
    its policy network reads [inputSize] inputs and gives [outputSize]
    outputs. *)
Definition ready (inputSize outputSize : Z) (a : DQNAgent.t) : Prop :=
  trainable a /\
  sound_buffer (DQNAgent.ReplayBuffer a) /\
  QNetwork.InputSize (DQNAgent.PolicyNet a) = inputSize /\
  QNetwork.OutputSize (DQNAgent.PolicyNet a) = outputSize.

(** The calls the training and playing loops make on an agent. *)
Inductive call :=
| CallSelectAction (state : Vector)
| CallSelectActionGreedy (state : Vector)
| CallGetQValues (state : Vector)
| CallRemember (exp : Experience.t)
| CallTrain
| CallUpdateTargetNetwork
| CallDecayEpsilon
| CallSetEpsilon (eps : float)
| CallSetState (state : AgentState.t).

(** The agent after a call, results dropped; [None] when the call
    panics. *)
Definition perform (a : DQNAgent.t) (c : call) : option DQNAgent.t :=
  match c with
  | CallSelectAction state => '(_, a) ← SelectAction a state; Some a
  | CallSelectActionGreedy state => _ ← SelectActionGreedy a state; Some a
  | CallGetQValues state => _ ← GetQValues a state; Some a
  | CallRemember exp =>
      Remember a (Experience.State exp) (Experience.Action exp)
        (Experience.Reward exp) (Experience.NextState exp) (Experience.Done exp)
  | CallTrain => '(a, _) ← Train a; Some a
  | CallUpdateTargetNetwork => UpdateTargetNetwork a
  | CallDecayEpsilon => Some (DecayEpsilon a)
  | CallSetEpsilon eps => Some (SetEpsilon a eps)
  | CallSetState state => Some (SetState a state)
  end.

Fixpoint performAll (a : DQNAgent.t) (calls : list call)
    : option DQNAgent.t :=
  match calls with
  | [] => Some a
  | c :: rest => a ← perform a c; performAll a rest
  end.

(** A call whose arguments the networks can process: a state no longer
    than the input width, a transition with such states and an action
    that indexes an output. *)
Definition admissible (inputSize outputSize : Z) (c : call) : Prop :=
  match c with
  | CallSelectAction state | CallSelectActionGreedy state
  | CallGetQValues state =>
      (Z.of_nat (length state) <= inputSize)%Z
  | CallRemember exp =>
      (Z.of_nat (length (Experience.State exp)) <= inputSize)%Z /\
      (Z.of_nat (length (Experience.NextState exp)) <= inputSize)%Z /\
      (0 <= Experience.Action exp < outputSize)%Z
  | _ => True
  end.

(** The four flags the encoder writes for a position [p] seen from
    [head]: above, below, to the left, to the right. (The Y axis grows
    downward.) *)
Definition relative_flags (p head : game.Position) : Vector :=
  [boolToFloat (game.Y p <? game.Y head)%Z;
   boolToFloat (game.Y head <? game.Y p)%Z;
   boolToFloat (game.X p <? game.X head)%Z;
   boolToFloat (game.X head <? game.X p)%Z].

(** The one-hot encoding of a direction, in the order Up, Down, Left,
    Right. *)
Definition one_hot (d : game.Direction) : Vector :=
  [boolToFloat (game.Direction_eqb d game.Up);
   boolToFloat (game.Direction_eqb d game.Down);
   boolToFloat (game.Direction_eqb d game.Left);
   boolToFloat (game.Direction_eqb d game.Right)].

(** [float64(state.Width + state.Height)]. *)
Definition maxDist (state : game.GameState.t) : float :=
  F64.of_int (GoInt.add (game.GameState.Width state)
                        (game.GameState.Height state)).

(** [float64(state.Width * state.Height / 2)]. *)
Definition maxLength (state : game.GameState.t) : float :=
  F64.of_int (GoInt.wrap64 (Z.quot (GoInt.mul (game.GameState.Width state)
                                              (game.GameState.Height state)) 2)).

(** The least of [maxDist] and the distances from [head] to the
    segments, as the encoder's loop finds it. *)
Definition nearest (state : game.GameState.t) (head : game.Position)
    (segments : list game.Position) : float :=
  fold_left
    (fun minDist segment =>
       let dist := F64.of_int (game.ManhattanDistance head segment) in
       if PrimFloat.ltb dist minDist then dist else minDist)
    segments (maxDist state).

(** The eight features about the opponent (11 to 18 without 17): its
    direction from the head, the closeness of its head and of its nearest
    segment, and its length. *)
Definition opponent_flags (other : game.Snake.t) (oppHead head : game.Position)
    : Vector :=
  if game.Snake.Alive other then relative_flags oppHead head
  else [0; 0; 0; 0]%float.

Definition opponent_closeness (state : game.GameState.t)
    (other : game.Snake.t) (oppHead head : game.Position) : Vector :=
  if game.Snake.Alive other
  then [1.0 - F64.of_int (game.ManhattanDistance head oppHead) / maxDist state;
        1.0 - nearest state head (game.Snake.Body other) / maxDist state]%float
  else [0; 0]%float.

Definition opponent_length (state : game.GameState.t) (other : game.Snake.t)
    : float :=
  if game.Snake.Alive other
  then (F64.of_int (game.Length other) / maxLength state)%float
  else 0%float.

(** The record [Save] encodes for a network. *)
Definition saved (n : QNetwork.t) : NetworkWeights.t :=
  {| NetworkWeights.W1 := QNetwork.W1 n; NetworkWeights.B1 := QNetwork.B1 n;
     NetworkWeights.W2 := QNetwork.W2 n; NetworkWeights.B2 := QNetwork.B2 n;
     NetworkWeights.W3 := QNetwork.W3 n; NetworkWeights.B3 := QNetwork.B3 n;
     NetworkWeights.InputSize := QNetwork.InputSize n;
     NetworkWeights.HiddenSize1 := QNetwork.HiddenSize1 n;
     NetworkWeights.HiddenSize2 := QNetwork.HiddenSize2 n;
     NetworkWeights.OutputSize := QNetwork.OutputSize n;
     NetworkWeights.LearningRate := QNetwork.LearningRate n |}.

(** The network [LoadNetwork] builds from a decoded record: the fields
    of the record and a generator seeded with 0. *)
Definition restored (w : NetworkWeights.t) : QNetwork.t :=
  {| QNetwork.W1 := NetworkWeights.W1 w; QNetwork.B1 := NetworkWeights.B1 w;
     QNetwork.W2 := NetworkWeights.W2 w; QNetwork.B2 := NetworkWeights.B2 w;
     QNetwork.W3 := NetworkWeights.W3 w; QNetwork.B3 := NetworkWeights.B3 w;
     QNetwork.InputSize := NetworkWeights.InputSize w;
     QNetwork.HiddenSize1 := NetworkWeights.HiddenSize1 w;
     QNetwork.HiddenSize2 := NetworkWeights.HiddenSize2 w;
     QNetwork.OutputSize := NetworkWeights.OutputSize w;
     QNetwork.LearningRate := NetworkWeights.LearningRate w;
     QNetwork.rng := rand.New 0 |}.

(** The record of the current format a legacy record is converted to:
    the biases come from the [B1Vec], [B2Vec] and [B3Vec] fields, the
    two-dimensional bias fields are dropped. *)
Definition converted (l : legacyNetworkWeights.t) : NetworkWeights.t :=
  {| NetworkWeights.W1 := legacyNetworkWeights.W1 l;
     NetworkWeights.B1 := legacyNetworkWeights.B1Vec l;
     NetworkWeights.W2 := legacyNetworkWeights.W2 l;
     NetworkWeights.B2 := legacyNetworkWeights.B2Vec l;
     NetworkWeights.W3 := legacyNetworkWeights.W3 l;
     NetworkWeights.B3 := legacyNetworkWeights.B3Vec l;
     NetworkWeights.InputSize := legacyNetworkWeights.InputSize l;
     NetworkWeights.HiddenSize1 := legacyNetworkWeights.HiddenSize1 l;
     NetworkWeights.HiddenSize2 := legacyNetworkWeights.HiddenSize2 l;
     NetworkWeights.OutputSize := legacyNetworkWeights.OutputSize l;
     NetworkWeights.LearningRate := legacyNetworkWeights.LearningRate l |}.

(** The contract of [Intn]: a draw below a positive bound lies in
    [0, n). *)
Definition Intn_contract : Prop :=
  forall g n, (0 < n)%Z -> (0 <= (rand.Intn g n).1 < n)%Z.

(** A cell food can be spawned on: inside the board and in neither
    body. *)
Definition free_cell (st : game.GameState.t) (pos : game.Position) : Prop :=
  (0 <= game.X pos < game.GameState.Width st)%Z /\
  (0 <= game.Y pos < game.GameState.Height st)%Z /\
  (pos ∉ game.Snake.Body (game.GameState.Snakes st).1) /\
  (pos ∉ game.Snake.Body (game.GameState.Snakes st).2).

(** A snake after its move of a turn: moved by [Move], growing when it
    eats, and its score raised when it eats. *)
Definition after_move (s : game.Snake.t) (action : game.Direction)
    (eats : bool) : game.Snake.t :=
  match game.Move s action eats with
  | Some m => if eats then Game.scored m else m
  | None => s
  end.

(** The cell the snake's head is on hits a wall, a later segment of its
    own body, or any segment of the other snake. *)
Definition hits (me other : game.Snake.t) (width height : Z) : Prop :=
  exists head, game.Head me = Some head /\
    (off_board head width height \/
     head ∈ drop 1 (game.Snake.Body me) \/
     head ∈ game.Snake.Body other).

(** [hits] as the program computes it. *)
Definition dies (me other : game.Snake.t) (width height : Z) : bool :=
  match game.Head me with
  | Some head =>
      game.CheckWallCollision head width height
      || game.ContainsPosition me head true
      || game.ContainsPosition other head false
  | None => false
  end.

(** Whether a turn ends the game, and the winner it reports, from the
    deaths of the two snakes. *)
Definition outcome (died0 died1 : bool) : bool * Z :=
  if died0 && died1 then (true, -1)%Z
  else if died0 then (true, 1%Z)
  else if died1 then (true, 0%Z)
  else (false, (-1)%Z).

(** The snake, killed if it died. *)
Definition survivor (died : bool) (s : game.Snake.t) : game.Snake.t :=
  if died then game.Kill s else s.

(** The layout [Reset] gives a game on a [width] by [height] board:
    turn 0, nobody has won, two living snakes of three segments in a
    straight line at mid-height, snake 0 heading right from column 3,
    snake 1 heading left from the fourth column from the right, and
    food on a free cell if there is one. *)
Definition fresh_layout (width height : Z) (g : Game.t) : Prop :=
  let st := Game.State g in
  let start0 := game.mkPosition 3 (Z.quot height 2) in
  let start1 := game.mkPosition (GoInt.sub width 4) (Z.quot height 2) in
  game.GameState.Width st = width /\
  game.GameState.Height st = height /\
  game.GameState.Turn st = 0%Z /\
  game.GameState.GameOver st = false /\
  game.GameState.Winner st = (-1)%Z /\
  game.GameState.Snakes st =
    (game.Snake.mk 0
       [start0; cell_behind start0 game.Right;
        cell_behind (cell_behind start0 game.Right) game.Right]
       game.Right true 0 false,
     game.Snake.mk 1
       [start1; cell_behind start1 game.Left;
        cell_behind (cell_behind start1 game.Left) game.Left]
       game.Left true 0 false) /\
  ((exists pos, free_cell st pos) ->
   game.Food.Active (game.GameState.Food st) = true /\
   free_cell st (game.Food.Position (game.GameState.Food st))) /\
  ((forall pos, ~ free_cell st pos) ->
   game.Food.Active (game.GameState.Food st) = false).

(** A game the loop of an episode goes on with: not over, both snakes
    alive, each with a head. *)
Definition playable (g : Game.t) : Prop :=
  let st := Game.State g in
  game.GameState.GameOver st = false /\
  game.Snake.Alive (game.GameState.Snakes st).1 = true /\
  game.Snake.Alive (game.GameState.Snakes st).2 = true /\
  is_Some (game.Head (game.GameState.Snakes st).1) /\
  is_Some (game.Head (game.GameState.Snakes st).2).

End Vocabulary.


(** C4 as the specification words it: the returned value is the mean of
    the squared TD errors themselves. *)
Definition Train_returns_mean_squared_error : Prop :=
  forall (R : rand.API) (a a' : ai.DQNAgent.t) (loss : float) batch rb errs,
    ai.Train a = Some (a', loss) -> updates a ->
    ai.Sample (ai.DQNAgent.ReplayBuffer a) (ai.DQNAgent.BatchSize a)
      = Some (batch, rb) ->
    spec_td_errors (ai.DQNAgent.Gamma a) (ai.DQNAgent.TargetNet a)
      (ai.DQNAgent.PolicyNet a) batch = Some errs ->
    loss = mean (map squared errs).

(** C5 as the specification words it: an input of any length other than
    the input width makes [Forward] fail. *)
Definition Forward_rejects_every_mismatch : Prop :=
  forall (R : rand.API) (n : ai.QNetwork.t) (input : Vector),
    well_shaped n ->
    Z.of_nat (length input) <> ai.QNetwork.InputSize n ->
    ai.Forward n input = None.

(** C3 as the specification words it: whenever the step counter is a
    multiple of the target-sync interval after a call of [Train], the
    target network equals the policy network, whether or not that call
    updated the policy. *)
Definition Train_syncs_on_every_multiple : Prop :=
  forall (R : rand.API) (a a' : ai.DQNAgent.t) (loss : float),
    ai.Train a = Some (a', loss) ->
    (ai.DQNAgent.TargetUpdate a | ai.DQNAgent.StepCount a')%Z ->
    shape_of (ai.DQNAgent.TargetNet a) = shape_of (ai.DQNAgent.PolicyNet a) ->
    weights_of (ai.DQNAgent.TargetNet a') = weights_of (ai.DQNAgent.PolicyNet a').

(* ================================================================== *)
(** * Scenarios *)
(* ================================================================== *)

Module Scenarios.

Import ai Fixtures.
Local Open Scope float_scope.

(** The value of a computation that does not panic. *)
Definition get {A} (o : option A) (d : A) : A := from_option id d o.

(** Capacity 10, batch size 4, three transitions stored. *)
Definition agent3 : DQNAgent.t :=
  get (rememberAll (agent0 10 4 1000) [stepExp; terminalExp; stepExp])
      (agent0 10 4 1000).

(** The same with a fourth transition, three calls of [Train] later:
    the next call is the fourth step and the first update. *)
Definition agent4 : DQNAgent.t :=
  get (a ← rememberAll (agent0 10 4 1000)
             [stepExp; terminalExp; stepExp; stepExp];
       trainTimes 3 a)
      (agent0 10 4 1000).

(** Batch size 1 and one transition, target-sync interval [sync], after
    [n] calls of [Train]. *)
Definition solo (sync : Z) (n : nat) : DQNAgent.t :=
  get (a ← rememberAll (agent0 10 1 sync) [stepExp]; trainTimes n a)
      (agent0 10 1 sync).

Definition after (a : DQNAgent.t) : DQNAgent.t := (get (Train a) (a, 0)).1.

Definition loss_of (a : DQNAgent.t) : float := (get (Train a) (a, 0)).2.

(** The opening position of a 20 x 20 game, with food at (10, 4). *)
Definition opening : game.GameState.t :=
  {| game.GameState.Width := 20; game.GameState.Height := 20;
     game.GameState.Snakes :=
       (game.Snake.mk 0 [game.mkPosition 3 10; game.mkPosition 2 10;
                         game.mkPosition 1 10] game.Right true 0 false,
        game.Snake.mk 1 [game.mkPosition 16 10; game.mkPosition 17 10;
                         game.mkPosition 18 10] game.Left true 0 false);
     game.GameState.Food := game.Food.mk (game.mkPosition 10 4) true;
     game.GameState.Turn := 0; game.GameState.GameOver := false;
     game.GameState.Winner := (-1) |}.

(** Three stored transitions, as [Add] leaves them. *)
Definition buffer3 : ReplayBuffer.t :=
  get (addAll (emptyBuffer 10) [stepExp; terminalExp; stepExp])
      (emptyBuffer 10).

(** Snake 0 of the opening position, and the position after it has moved
    one cell to the right while everything else stayed. *)
Definition snake0 : game.Snake.t := (game.GameState.Snakes opening).1.

Definition opening_moved : game.GameState.t :=
  {| game.GameState.Width := 20; game.GameState.Height := 20;
     game.GameState.Snakes :=
       (get (game.Move snake0 game.Right false) snake0,
        (game.GameState.Snakes opening).2);
     game.GameState.Food := game.GameState.Food opening;
     game.GameState.Turn := 1; game.GameState.GameOver := false;
     game.GameState.Winner := (-1) |}.

(** The agent [NewDQNAgent] makes from [smallConfig]. *)
Definition smallAgent : DQNAgent.t :=
  get (NewDQNAgent smallConfig 7) (agent0 4 1 2).

(** The output and cache of a forward pass of [net0]. *)
Definition pass0 : Vector * forwardCache :=
  get (ForwardWithCache net0 [1; 1]) ([], mkCache [] [] [] [] []).

(** A gradient step of a 2 x 2 layer. *)
Definition step0 : Vector * Matrix * Vector :=
  get (linearBackward 0.5 [1; 2] [[1; 2]; [3; 4]] [0; 0] [1; 0.5] true)
      ([], [], []).

(** The disk after [agent0] has been saved. *)
Definition savedDisk : disk.Disk :=
  (DQNAgent_Save (agent0 10 4 1000) "models/agent.gob" emptyDisk).1.

(** A game standing at the opening position. *)
Definition openingGame : Game.t := Game.mk _ opening 0%Z.

(** The agent [NewDQNAgent] makes from [episodeConfig]. *)
Definition episodeAgent : DQNAgent.t :=
  get (NewDQNAgent episodeConfig 1) (agent0 8 2 4).

End Scenarios.

(* ================================================================== *)
(** * Facts about the binary64 order *)
(* ================================================================== *)

Section FloatOrder.

Lemma SFcompare_antisym (x y : spec_float) :
  SFcompare x y = option_map CompOpp (SFcompare y x).
Proof.
  destruct x as [sx | sx | | sx mx ex], y as [sy | sy | | sy my ey];
    simpl; try reflexivity;
    try (destruct sx; reflexivity); try (destruct sy; reflexivity);
    try (destruct sx, sy; reflexivity).
  destruct sx, sy; simpl; try reflexivity;
    rewrite (Z.compare_antisym ex ey);
    destruct (ex ?= ey)%Z; simpl; try reflexivity;
    rewrite (Pos.compare_cont_antisym my mx Eq); simpl;
    try rewrite CompOpp_involutive; reflexivity.
Qed.

Lemma SFcompare_refl (x : spec_float) :
  SFcompare x x = match x with S754_nan => None | _ => Some Eq end.
Proof.
  destruct x as [s | s | | s m e]; simpl; try reflexivity.
  - destruct s; reflexivity.
  - rewrite Z.compare_refl, Pos.compare_cont_refl. destruct s; reflexivity.
Qed.

Lemma ltb_irrefl (x : float) : PrimFloat.ltb x x = false.
Proof.
  rewrite FloatAxioms.ltb_spec. unfold SFltb. rewrite SFcompare_refl.
  destruct (Prim2SF x); reflexivity.
Qed.

Lemma ltb_asym (x y : float) :
  PrimFloat.ltb x y = true -> PrimFloat.ltb y x = false.
Proof.
  rewrite !FloatAxioms.ltb_spec. unfold SFltb. rewrite (SFcompare_antisym (Prim2SF y)).
  destruct (SFcompare (Prim2SF x) (Prim2SF y)) as [[]|]; simpl; congruence.
Qed.





End FloatOrder.

(* ================================================================== *)
(** * The agent: exploration rate, loading, the early returns of [Train] *)
(* ================================================================== *)


Section AgentFacts.
Import ai.
Context `{rand.API}.
Local Open Scope float_scope.


(** The other fields of the agent are not touched by [DecayEpsilon]. *)
Lemma DecayEpsilon_frame (a : DQNAgent.t) :
  DecayEpsilon a = DQNAgent.set_Epsilon a (DQNAgent.Epsilon (DecayEpsilon a)).
Proof.
  unfold DecayEpsilon. simpl. destruct (_ <? _); reflexivity.
Qed.

Section Loading.
Context `{gob.API}.

(** [LoadNetwork] fails exactly when the file cannot be opened or
    neither encoding decodes, with the error of the failing step. *)
Lemma LoadNetwork_fails (path : string) (err : gob.error) :
  LoadNetwork path = inr err <->
  gob.Open path = inr err \/
  exists file e1, gob.Open path = inl file /\ gob.Decode file = inr e1 /\
                  gob.DecodeLegacy file = inr err.
Proof.
  unfold LoadNetwork. destruct (gob.Open path) as [file|e0] eqn:Eo.
  - destruct (gob.Decode file) as [w|e1] eqn:Ed.
    + split; [discriminate|].
      intros [?|(f&e&?&?&?)]; [discriminate|]. congruence.
    + destruct (gob.DecodeLegacy file) as [lw|e2] eqn:El.
      * split; [discriminate|].
        intros [?|(f&e&?&?&?)]; [discriminate|]. congruence.
      * split.
        -- intros [= <-]. right. by exists file, e1.
        -- intros [?|(f&e&?&?&?)]; [discriminate|]. congruence.
  - split.
    + intros [= <-]. by left.
    + intros [[= <-]|(f&e&?&?&?)]; [done|discriminate].
Qed.

(** C10: when the file cannot be opened, or neither the current nor
    the legacy encoding decodes, [Load] returns that error and the
    agent it was called on is unchanged: same policy network, same
    target network, same everything else. *)
Theorem Load_failure_leaves_agent (a : DQNAgent.t) (path : string)
    (err : gob.error) :
  (gob.Open path = inr err \/
   exists file e1, gob.Open path = inl file /\ gob.Decode file = inr e1 /\
                   gob.DecodeLegacy file = inr err) ->
  LoadNetwork path = inr err /\
  exists a', Load a path = Some (a', Some err) /\ a' = a /\
             DQNAgent.PolicyNet a' = DQNAgent.PolicyNet a /\
             DQNAgent.TargetNet a' = DQNAgent.TargetNet a.
Proof.
  intros Hfail. apply LoadNetwork_fails in Hfail.
  split; [exact Hfail|]. exists a. unfold Load. rewrite Hfail. done.
Qed.

(** [Load] reports an error only on those failures. *)
Lemma Load_error_inv (a a' : DQNAgent.t) (path : string) (err : gob.error) :
  Load a path = Some (a', Some err) -> LoadNetwork path = inr err /\ a' = a.
Proof.
  unfold Load. destruct (LoadNetwork path) as [net|e].
  - destruct (Clone net); simpl; intros; simplify_eq.
  - intros; by simplify_eq.
Qed.

End Loading.

End AgentFacts.

Section GoIntFacts.

Lemma wrap64_in_range (z : Z) : GoInt.in_range z -> GoInt.wrap64 z = z.
Proof.
  unfold GoInt.in_range, GoInt.wrap64. intros Hz.
  rewrite Z.mod_small; lia.
Qed.

Lemma rem_zero_iff (x y r : Z) :
  GoInt.rem x y = Some r -> (r = 0 <-> (y | x))%Z.
Proof.
  unfold GoInt.rem. destruct (Z.eqb_spec y 0) as [|Hy]; [discriminate|].
  intros [= <-]. by apply Z.rem_divide.
Qed.

Lemma rem_nonzero (x y : Z) :
  y <> 0%Z -> ~ (y | x)%Z ->
  exists r, GoInt.rem x y = Some r /\ (r =? 0)%Z = false.
Proof.
  intros Hy Hd. unfold GoInt.rem.
  destruct (Z.eqb_spec y 0) as [|_]; [done|].
  eexists; split; [reflexivity|].
  apply Z.eqb_neq. intros Hr. apply Hd. by apply Z.rem_divide.
Qed.

End GoIntFacts.

Section TrainFacts.
Import ai.
Context `{rand.API}.
Local Open Scope float_scope.

(** [trainOnExperience] and the batch loop write [PolicyNet] only. *)
Lemma trainOnExperience_frame (a a' : DQNAgent.t) exp loss :
  trainOnExperience a exp = Some (a', loss) ->
  a' = DQNAgent.set_PolicyNet a (DQNAgent.PolicyNet a').
Proof.
  unfold trainOnExperience. intros Ht.
  repeat (simplify_option_eq; try case_match); done.
Qed.

Lemma trainBatch_frame batch : forall (a a' : DQNAgent.t) total total',
  trainBatch a batch total = Some (a', total') ->
  a' = DQNAgent.set_PolicyNet a (DQNAgent.PolicyNet a').
Proof.
  induction batch as [|exp rest IH]; simpl; intros a a' total total' Ht.
  - simplify_eq. by destruct a'.
  - destruct (trainOnExperience a exp) as [[a1 loss]|] eqn:E1; [|done].
    simpl in Ht. apply IH in Ht. apply trainOnExperience_frame in E1.
    rewrite Ht, E1. reflexivity.
Qed.

(** What a completed, updating call of [Train] did, step by step. *)
Lemma Train_updates_inv (a a' : DQNAgent.t) loss :
  Train a = Some (a', loss) -> updates a ->
  exists batch rb policy total,
    let a1 := DQNAgent.set_StepCount a (GoInt.add (DQNAgent.StepCount a) 1) in
    let a2 := DQNAgent.set_ReplayBuffer a1 rb in
    let a3 := DQNAgent.set_PolicyNet a2 policy in
    Sample (DQNAgent.ReplayBuffer a) (DQNAgent.BatchSize a) = Some (batch, rb) /\
    trainBatch a2 batch 0.0 = Some (a3, total) /\
    loss = total / F64.of_int (Z.of_nat (length batch)) /\
    exists r, GoInt.rem (DQNAgent.StepCount a1) (DQNAgent.TargetUpdate a) = Some r /\
      if (r =? 0)%Z then UpdateTargetNetwork a3 = Some a' else a' = a3.
Proof.
  intros Ht [Hsz Hrem]. unfold Train in Ht. simpl in Ht.
  destruct (Z.ltb_spec (Size (DQNAgent.ReplayBuffer a)) (DQNAgent.BatchSize a));
    [lia|].
  rewrite Hrem in Ht. simpl in Ht.
  destruct (Sample _ _) as [[batch rb]|] eqn:Es; [|done]. simpl in Ht.
  destruct (trainBatch _ batch _) as [[a3 total]|] eqn:Eb; [|done].
  simpl in Ht.
  pose proof (trainBatch_frame _ _ _ _ _ Eb) as Hfr.
  exists batch, rb, (DQNAgent.PolicyNet a3), total. simpl.
  rewrite <- Hfr. split; [done|]. split; [done|].
  rewrite Hfr in Ht. simpl in Ht. rewrite <- Hfr in Ht.
  destruct (GoInt.rem _ (DQNAgent.TargetUpdate a)) as [r|] eqn:Er; [|done].
  simpl in Ht.
  destruct (r =? 0)%Z eqn:Ez.
  - destruct (UpdateTargetNetwork a3) as [a4|] eqn:Eu; [|done].
    simpl in Ht. simplify_eq. split; [done|]. exists r. by rewrite Ez.
  - simpl in Ht. simplify_eq. split; [done|]. exists r. by rewrite Ez.
Qed.

Lemma UpdateTargetNetwork_frame (a a' : DQNAgent.t) :
  UpdateTargetNetwork a = Some a' ->
  a' = DQNAgent.set_TargetNet a (DQNAgent.TargetNet a').
Proof.
  unfold UpdateTargetNetwork. intros Hu. by simplify_option_eq.
Qed.

Lemma NewDQNAgent_TrainInterval cfg seed (a : DQNAgent.t) :
  NewDQNAgent cfg seed = Some a -> DQNAgent.TrainInterval a = 4%Z.
Proof.
  unfold NewDQNAgent. intros Hn.
  repeat (simplify_option_eq; try case_match); done.
Qed.

(** Every completed call of [Train] has incremented the step counter
    and left the train interval alone. *)
Lemma Train_counts (a : DQNAgent.t) : forall a' loss,
  Train a = Some (a', loss) ->
  DQNAgent.StepCount a' = GoInt.add (DQNAgent.StepCount a) 1 /\
  DQNAgent.TrainInterval a' = DQNAgent.TrainInterval a.
Proof.
  intros a' loss Ht. pose proof Ht as Ht'. unfold Train in Ht. simpl in Ht.
  destruct (_ <? _)%Z eqn:Esz; [by simplify_eq|].
  destruct (GoInt.rem _ (DQNAgent.TrainInterval a)) as [r|] eqn:Er; [|done].
  simpl in Ht. destruct (r =? 0)%Z eqn:Ez; simpl in Ht; [|by simplify_eq].
  apply Z.eqb_eq in Ez; subst r.
  assert (Hup : updates a).
  { split; [|done]. by apply Z.ltb_ge. }
  destruct (Train_updates_inv _ _ _ Ht' Hup)
    as (batch & rb & policy & total & _ & _ & _ & r & _ & Hsync).
  destruct (r =? 0)%Z.
  - apply UpdateTargetNetwork_frame in Hsync. by rewrite Hsync.
  - by subst a'.
Qed.

(** C2: every call of [Train] that returns has incremented the step
    counter (Go's [++]: plus one inside the [int] range) and kept the
    train interval, which [NewDQNAgent] fixes at 4; and when the buffer
    holds fewer entries than the batch size, or the incremented counter
    is not a multiple of the train interval, [Train] returns 0.0 and
    changes nothing but the counter: both networks keep their weights
    and biases. *)
Theorem Train_early_return_is_noop (a : DQNAgent.t) :
  (forall a' loss, Train a = Some (a', loss) ->
     DQNAgent.StepCount a' = GoInt.add (DQNAgent.StepCount a) 1 /\
     DQNAgent.TrainInterval a' = DQNAgent.TrainInterval a) /\
  (GoInt.in_range (DQNAgent.StepCount a + 1) ->
     GoInt.add (DQNAgent.StepCount a) 1 = (DQNAgent.StepCount a + 1)%Z) /\
  (forall cfg seed a0, NewDQNAgent cfg seed = Some a0 ->
     DQNAgent.TrainInterval a0 = 4%Z) /\
  ((Size (DQNAgent.ReplayBuffer a) < DQNAgent.BatchSize a)%Z \/
   (DQNAgent.TrainInterval a <> 0%Z /\
    ~ (DQNAgent.TrainInterval a | GoInt.add (DQNAgent.StepCount a) 1)%Z) ->
   exists a', Train a = Some (a', 0.0) /\
     a' = DQNAgent.set_StepCount a (GoInt.add (DQNAgent.StepCount a) 1) /\
     DQNAgent.PolicyNet a' = DQNAgent.PolicyNet a /\
     DQNAgent.TargetNet a' = DQNAgent.TargetNet a).
Proof.
  split; [|split; [|split]].
  - apply Train_counts.
  - intros Hr. by apply wrap64_in_range.
  - intros cfg seed a0. apply NewDQNAgent_TrainInterval.
  - intros Hearly. eexists. split; [|done].
    unfold Train. simpl.
    destruct (Z.ltb_spec (Size (DQNAgent.ReplayBuffer a)) (DQNAgent.BatchSize a))
      as [|Hge]; [done|].
    destruct Hearly as [?|[Hti Hnd]]; [lia|].
    destruct (rem_nonzero _ _ Hti Hnd) as (r & -> & Hr). simpl.
    by rewrite Hr.
Qed.

End TrainFacts.

(* ================================================================== *)
(** * [Train]: targets, order of the updates, reported loss *)
(* ================================================================== *)

Section TrainSpec.
Import ai.
Context `{rand.API}.
Local Open Scope float_scope.

Lemma trainOnExperience_inv (a a1 : DQNAgent.t) exp loss :
  trainOnExperience a exp = Some (a1, loss) ->
  exists t out cache q,
    spec_td_target (DQNAgent.Gamma a) (DQNAgent.TargetNet a) exp = Some t /\
    ForwardWithCache (DQNAgent.PolicyNet a) (Experience.State exp)
      = Some (out, cache) /\
    GoInt.index out (Experience.Action exp) = Some q /\
    Backward (DQNAgent.PolicyNet a) cache out (Experience.Action exp) t
      = Some (DQNAgent.PolicyNet a1) /\
    a1 = DQNAgent.set_PolicyNet a (DQNAgent.PolicyNet a1) /\
    loss = half_squared (q - t).
Proof.
  unfold trainOnExperience, targetQ_of, spec_td_target. intros Ht.
  destruct (if Experience.Done exp then _ else _) as [t|] eqn:Et; [|done].
  simpl in Ht.
  destruct (ForwardWithCache _ _) as [[out cache]|] eqn:Ef; [|done].
  simpl in Ht.
  destruct (GoInt.index out _) as [q|] eqn:Eq; [|done]. simpl in Ht.
  destruct (Backward _ _ _ _ _) as [p1|] eqn:Eb; [|done]. simpl in Ht.
  simplify_eq. by exists t, out, cache, q.
Qed.

Lemma trainBatch_calls batch : forall (a a' : DQNAgent.t) total total',
  trainBatch a batch total = Some (a', total') ->
  exists ts,
    BackwardCalls (DQNAgent.PolicyNet a) batch ts (DQNAgent.PolicyNet a') /\
    Forall2 (fun exp t =>
               spec_td_target (DQNAgent.Gamma a) (DQNAgent.TargetNet a) exp
                 = Some t) batch ts.
Proof.
  induction batch as [|exp rest IH]; simpl; intros a a' total total' Ht.
  - simplify_eq. exists []. split; constructor.
  - destruct (trainOnExperience a exp) as [[a1 loss]|] eqn:E1; [|done].
    simpl in Ht.
    destruct (trainOnExperience_inv _ _ _ _ E1)
      as (t & out & cache & q & Htq & Hf & _ & Hb & Ha1 & _).
    destruct (IH _ _ _ _ Ht) as (ts & Hcalls & Hts).
    rewrite Ha1 in Hts. simpl in Hts.
    exists (t :: ts). split; [by econstructor|by constructor].
Qed.

Lemma trainBatch_loss batch : forall (a a' : DQNAgent.t) total total',
  trainBatch a batch total = Some (a', total') ->
  exists errs,
    spec_td_errors (DQNAgent.Gamma a) (DQNAgent.TargetNet a)
      (DQNAgent.PolicyNet a) batch = Some errs /\
    length errs = length batch /\
    total' = fold_left PrimFloat.add (map half_squared errs) total.
Proof.
  induction batch as [|exp rest IH]; simpl; intros a a' total total' Ht.
  - simplify_eq. by exists [].
  - destruct (trainOnExperience a exp) as [[a1 loss]|] eqn:E1; [|done].
    simpl in Ht.
    destruct (trainOnExperience_inv _ _ _ _ E1)
      as (t & out & cache & q & Htq & Hf & Hq & Hb & Ha1 & ->).
    destruct (IH _ _ _ _ Ht) as (errs & Herrs & Hlen & ->).
    rewrite Ha1 in Herrs. simpl in Herrs.
    exists (q - t :: errs).
    rewrite Htq, Hf. simpl. rewrite Hq. simpl. rewrite Hb. simpl.
    rewrite Herrs. simpl. by rewrite Hlen.
Qed.

(** C1: in a training step, with [batch] the sample drawn, [Backward] is
    called once per transition in batch order, each call starting from
    the policy the previous call left; the target of the call for a
    transition is its reward alone when it is terminal and
    [reward + gamma * Max(TargetNet.Forward(nextState))] otherwise, the
    target network being the one [Train] was entered with. The policy
    [Train] returns is the one the last call left. *)
Theorem Train_td_targets (a a' : DQNAgent.t) (loss : float) :
  Train a = Some (a', loss) -> updates a ->
  exists batch rb ts,
    Sample (DQNAgent.ReplayBuffer a) (DQNAgent.BatchSize a) = Some (batch, rb) /\
    BackwardCalls (DQNAgent.PolicyNet a) batch ts (DQNAgent.PolicyNet a') /\
    Forall2
      (fun exp t =>
         if Experience.Done exp then t = Experience.Reward exp
         else exists q m,
             Forward (DQNAgent.TargetNet a) (Experience.NextState exp) = Some q /\
             Max q = Some m /\
             t = Experience.Reward exp + DQNAgent.Gamma a * m)
      batch ts.
Proof.
  intros Ht Hup.
  destruct (Train_updates_inv _ _ _ Ht Hup)
    as (batch & rb & policy & total & Hs & Hb & _ & r & _ & Hsync).
  simpl in *. apply trainBatch_calls in Hb as (ts & Hcalls & Hts).
  simpl in *. exists batch, rb, ts. split; [done|]. split.
  - destruct (r =? 0)%Z; [|by subst a'].
    apply UpdateTargetNetwork_frame in Hsync. by rewrite Hsync.
  - eapply Forall2_impl; [exact Hts|]. intros exp t. simpl.
    unfold spec_td_target. destruct (Experience.Done exp).
    + by intros [= ->].
    + intros Hq.
      destruct (Forward _ _) as [q|] eqn:Ef; [|done]. simpl in Hq.
      destruct (Max q) as [m|] eqn:Em; [|done]. simpl in Hq. simplify_eq.
      by exists q, m.
Qed.

(** C4 (amended): when [Train] updates, the value it returns is the mean
    over the batch of half the squared TD error,
    [(output[action] - targetQ)^2 * 0.5], each output being the policy's
    output for the taken action before that sample's update. *)
Theorem Train_loss_is_mean_half_squared (a a' : DQNAgent.t) (loss : float) :
  Train a = Some (a', loss) -> updates a ->
  exists batch rb errs,
    Sample (DQNAgent.ReplayBuffer a) (DQNAgent.BatchSize a) = Some (batch, rb) /\
    spec_td_errors (DQNAgent.Gamma a) (DQNAgent.TargetNet a)
      (DQNAgent.PolicyNet a) batch = Some errs /\
    length errs = length batch /\
    loss = mean (map half_squared errs).
Proof.
  intros Ht Hup.
  destruct (Train_updates_inv _ _ _ Ht Hup)
    as (batch & rb & policy & total & Hs & Hb & -> & _).
  simpl in *. apply trainBatch_loss in Hb as (errs & Herrs & Hlen & ->).
  simpl in *. exists batch, rb, errs. repeat split; try done.
  unfold mean. by rewrite length_map, Hlen.
Qed.

End TrainSpec.

(* ================================================================== *)
(** * The replay buffer *)
(* ================================================================== *)

Section ReplayFacts.
Import ai.
Context `{rand.API}.

Lemma copySlice_id (s : Vector) : copySlice s = s.
Proof.
  unfold copySlice, GoInt.copy.
  rewrite length_replicate, firstn_all, drop_ge, app_nil_r;
    [done|by rewrite length_replicate].
Qed.

Lemma mod_differs (c j n : nat) :
  j < n -> n < j + c -> j mod c <> n mod c.
Proof.
  intros Hjn Hnc Heq.
  pose proof (Nat.div_mod_eq n c) as Hn.
  pose proof (Nat.div_mod_eq j c) as Hj.
  assert (Hq : n / c = j / c \/ n / c < j / c \/ j / c < n / c) by lia.
  destruct Hq as [Hq|[Hq|Hq]]; nia.
Qed.

Lemma NewReplayBuffer_ring capacity seed (rb : ReplayBuffer.t) :
  NewReplayBuffer capacity seed = Some rb -> ring (Z.to_nat capacity) [] rb.
Proof.
  unfold NewReplayBuffer, GoInt.make. intros Hn.
  destruct (capacity <? 0)%Z; [done|]. simpl in Hn. simplify_eq.
  unfold ring. simpl. rewrite length_replicate.
  repeat split; try done.
  - by rewrite Nat.Div0.mod_0_l.
  - intros j Hj. lia.
Qed.

Lemma Add_ring c h (rb : ReplayBuffer.t) (e : Experience.t) :
  0 < c -> ring c h rb ->
  exists rb', Add rb e = Some rb' /\ ring c (h ++ [e]) rb' /\
              ReplayBuffer.rng rb' = ReplayBuffer.rng rb.
Proof.
  intros Hc (Hcap & Hlen & Hpos & Hsize & Hslots).
  assert (Hlt : ReplayBuffer.position rb < length (ReplayBuffer.buffer rb)).
  { rewrite Hpos, Hlen. apply Nat.mod_upper_bound. lia. }
  unfold Add. rewrite !copySlice_id.
  destruct (lookup_lt_is_Some_2 _ _ Hlt) as [old ->]. simpl.
  rewrite Hcap. destruct (Nat.eqb_spec c 0) as [|_]; [lia|].
  eexists. split; [reflexivity|]. split; [|done].
  unfold ring. simpl. rewrite length_insert, length_app. simpl.
  repeat split; try done.
  - rewrite Hpos, Nat.Div0.add_mod_idemp_l. done.
  - rewrite Hsize. destruct (Nat.ltb_spec (min (length h) c) c); lia.
  - intros j Hj Hjc. rewrite Hpos.
    destruct (decide (j = length h)) as [->|Hne].
    + rewrite list_lookup_insert_eq; [|rewrite Hlen; apply Nat.mod_upper_bound; lia].
      rewrite lookup_app_r, Nat.sub_diag; [|done]. simpl. by destruct e.
    + rewrite list_lookup_insert_ne; [|apply not_eq_sym, mod_differs; lia].
      rewrite lookup_app_l; [|lia]. apply Hslots; lia.
Qed.

Lemma addAll_ring c exps : forall h (rb : ReplayBuffer.t),
  0 < c -> ring c h rb ->
  exists rb', addAll rb exps = Some rb' /\ ring c (h ++ exps) rb'.
Proof.
  induction exps as [|e rest IH]; intros h rb Hc Hring; simpl.
  - exists rb. by rewrite app_nil_r.
  - destruct (Add_ring c h rb e Hc Hring) as (rb1 & -> & Hring1 & _). simpl.
    destruct (IH _ _ Hc Hring1) as (rb' & -> & Hring').
    exists rb'. by rewrite <- app_assoc in Hring'.
Qed.

(** A full ring holds the last [c] experiences, each once. *)
Lemma ring_full_Permutation c h (rb : ReplayBuffer.t) :
  0 < c -> c <= length h -> ring c h rb ->
  ReplayBuffer.buffer rb ≡ₚ drop (length h - c) h.
Proof.
  intros Hc Hn (_ & Hlen & _ & _ & Hslots). symmetry.
  apply Permutation_inj. split; [rewrite length_drop; lia|].
  exists (fun i => if decide (i < c) then (length h - c + i) mod c else i).
  split.
  - intros i i'. do 2 case_decide; intros Heq; try done.
    + destruct (decide (i = i')) as [|Hne]; [done|]. exfalso.
      destruct (decide (i < i')).
      * eapply (mod_differs c (length h - c + i) (length h - c + i')); [lia..|done].
      * eapply (mod_differs c (length h - c + i') (length h - c + i)); [lia..|done].
    + pose proof (Nat.mod_upper_bound (length h - c + i) c). lia.
    + pose proof (Nat.mod_upper_bound (length h - c + i') c). lia.
  - intros i. rewrite lookup_drop. case_decide.
    + symmetry. apply Hslots; lia.
    + rewrite !lookup_ge_None_2; [done|lia..].
Qed.

(** C8: on a buffer made with capacity [c > 0], every sequence of [Add]
    operations succeeds and leaves the count at [min(n, c)], never above
    [c]; once [c + k] items have gone in ([k > 0], and equally for
    [k = 0]), the buffer holds exactly the most recent [c] of them: the
    slot [j mod c] holds the [j]-th item for each of the last [c]
    positions, so the oldest [k] have been overwritten in wrap-around
    order. *)
Theorem Add_wraps_around capacity seed (rb0 : ReplayBuffer.t)
    (exps : list Experience.t) :
  NewReplayBuffer capacity seed = Some rb0 -> (0 < capacity)%Z ->
  let c := Z.to_nat capacity in
  let n := length exps in
  exists rb, addAll rb0 exps = Some rb /\
    ReplayBuffer.size rb <= c /\
    ReplayBuffer.size rb = min n c /\
    length (ReplayBuffer.buffer rb) = c /\
    ReplayBuffer.position rb = n mod c /\
    (c <= n ->
       ReplayBuffer.buffer rb ≡ₚ drop (n - c) exps /\
       forall j, n - c <= j < n ->
         ReplayBuffer.buffer rb !! (j mod c) = exps !! j).
Proof.
  intros Hnew Hcap c n.
  assert (Hc : 0 < c) by (subst c; lia).
  apply NewReplayBuffer_ring in Hnew.
  destruct (addAll_ring c exps [] rb0 Hc Hnew) as (rb & Hadd & Hring).
  simpl in Hring. exists rb. split; [done|].
  pose proof Hring as (_ & Hlen & Hpos & Hsize & Hslots).
  repeat split; try done; try lia.
  - by apply ring_full_Permutation.
  - intros j Hj. apply Hslots; lia.
Qed.

(** Every buffer that [NewReplayBuffer], [Add] and [Clear] produce keeps
    its count within its storage. *)
Lemma built_buffer_fits capacity seed (rb0 rb : ReplayBuffer.t) exps :
  NewReplayBuffer capacity seed = Some rb0 -> addAll rb0 exps = Some rb ->
  ReplayBuffer.size rb <= length (ReplayBuffer.buffer rb) /\
  ReplayBuffer.size (Clear rb) <= length (ReplayBuffer.buffer (Clear rb)).
Proof.
  intros Hnew Hadd. split; [|simpl; lia].
  apply NewReplayBuffer_ring in Hnew.
  destruct (decide (0 < Z.to_nat capacity)) as [Hc|Hc].
  - destruct (addAll_ring _ exps [] rb0 Hc Hnew) as (rb' & Hadd' & Hring).
    rewrite Hadd in Hadd'. injection Hadd' as <-.
    destruct Hring as (_ & -> & _ & -> & _). lia.
  - destruct Hnew as (_ & Hlen & _ & Hsize & _).
    destruct exps as [|e rest]; simpl in Hadd.
    + injection Hadd as <-. simpl in Hsize. lia.
    + unfold Add in Hadd.
      rewrite (lookup_ge_None_2 (ReplayBuffer.buffer rb0)) in Hadd; [done|].
      rewrite Hlen. lia.
Qed.

(** C7: on a buffer whose count does not exceed its storage, and with
    [Perm] a permutation of [0, count), [Sample(batchSize)] for a
    non-negative [batchSize] returns exactly [min(batchSize, count)]
    transitions, read at pairwise distinct indices below [count]: no
    stored entry is returned twice. The buffer's entries are left as
    they were. *)
Theorem Sample_without_replacement (rb : ReplayBuffer.t) (batchSize : Z) :
  rand.Perm_contract ->
  ReplayBuffer.size rb <= length (ReplayBuffer.buffer rb) ->
  (0 <= batchSize)%Z ->
  exists batch rb' indices,
    Sample rb batchSize = Some (batch, rb') /\
    length batch = min (Z.to_nat batchSize) (ReplayBuffer.size rb) /\
    NoDup indices /\
    Forall (fun i => i < ReplayBuffer.size rb) indices /\
    Forall2 (fun i e => ReplayBuffer.buffer rb !! i = Some e) indices batch /\
    ReplayBuffer.buffer rb' = ReplayBuffer.buffer rb /\
    ReplayBuffer.size rb' = ReplayBuffer.size rb.
Proof.
  intros Hperm Hwf Hb. unfold Sample.
  set (size := ReplayBuffer.size rb) in *.
  set (k := if (Z.of_nat size <? batchSize)%Z then Z.of_nat size else batchSize).
  assert (Hk : Z.to_nat k = min (Z.to_nat batchSize) size /\ (0 <= k)%Z).
  { subst k. destruct (Z.ltb_spec (Z.of_nat size) batchSize); lia. }
  destruct Hk as [Hk Hk0].
  unfold GoInt.make. destruct (Z.ltb_spec k 0) as [|_]; [lia|]. simpl.
  specialize (Hperm (ReplayBuffer.rng rb) size).
  destruct (rand.Perm (ReplayBuffer.rng rb) size) as [perm g]. simpl in Hperm.
  assert (Hplen : length perm = size).
  { by rewrite Hperm, length_seq. }
  destruct (Z.ltb_spec (Z.of_nat (length perm)) k) as [|_]; [lia|].
  set (indices := take (Z.to_nat k) perm).
  assert (Hnd : NoDup indices).
  { eapply sublist_NoDup; [|apply sublist_take].
    rewrite Hperm. apply NoDup_seq. }
  assert (Hlt : Forall (fun i => i < size) indices).
  { apply Forall_forall. intros i Hi.
    apply elem_of_take in Hi as (j & Hj & _).
    apply list_elem_of_lookup_2 in Hj. rewrite Hperm in Hj.
    apply elem_of_seq in Hj. lia. }
  assert (Hsome : is_Some (mapM (fun idx => ReplayBuffer.buffer rb !! idx) indices)).
  { apply mapM_is_Some. eapply Forall_impl; [exact Hlt|].
    intros i Hi. cbv beta in Hi. unfold compose.
    apply lookup_lt_is_Some_2. lia. }
  destruct Hsome as [batch Hbatch]. rewrite Hbatch. simpl.
  exists batch, (ReplayBuffer.mk _ (ReplayBuffer.buffer rb)
                  (ReplayBuffer.capacity rb) (ReplayBuffer.position rb)
                  size g), indices.
  split; [done|]. split.
  - rewrite <- (length_mapM _ _ _ Hbatch). subst indices.
    rewrite length_take. lia.
  - repeat split; try done. by apply mapM_Some.
Qed.

End ReplayFacts.

(* ================================================================== *)
(** * The state encoder *)
(* ================================================================== *)

Section EncoderFacts.
Import ai.
Local Open Scope float_scope.

Lemma NextHead_cell_ahead (s : game.Snake.t) head d :
  game.Head s = Some head -> game.NextHead s d = Some (cell_ahead head d).
Proof. unfold game.NextHead. intros ->. by destruct d. Qed.

Lemma snake_at_inv snakes i s :
  game.snake_at snakes i = Some s ->
  (i = 0%Z /\ s = snakes.1 /\ game.snake_at snakes (GoInt.sub 1 i) = Some snakes.2) \/
  (i = 1%Z /\ s = snakes.2 /\ game.snake_at snakes (GoInt.sub 1 i) = Some snakes.1).
Proof.
  unfold game.snake_at.
  destruct (Z.eqb_spec i 0) as [->|]; [intros [= <-]; by left|].
  destruct (Z.eqb_spec i 1) as [->|]; [intros [= <-]; by right|done].
Qed.

Lemma isDanger_total state snakeID s pos :
  game.snake_at (game.GameState.Snakes state) snakeID = Some s ->
  is_Some (isDanger pos snakeID state).
Proof.
  intros Hs. unfold isDanger, game.IsDangerPosition.
  destruct (game.CheckWallCollision _ _ _); [done|].
  rewrite Hs. simpl. destruct (game.ContainsPosition s pos true); [done|].
  destruct (snake_at_inv _ _ _ Hs) as [(_&_&->)|(_&_&->)]; simpl;
    by destruct (_ && _).
Qed.

Lemma isDangerExtended_or state snakeID step1 step2 d1 d2 :
  isDanger step1 snakeID state = Some d1 ->
  isDanger step2 snakeID state = Some d2 ->
  isDangerExtended step1 step2 snakeID state = Some (d1 || d2).
Proof.
  unfold isDangerExtended. intros -> H2. simpl. by destruct d1.
Qed.

(** The second cell is not examined once the first is dangerous. *)
Lemma isDangerExtended_short_circuit state snakeID step1 step2 :
  isDanger step1 snakeID state = Some true ->
  isDangerExtended step1 step2 snakeID state = Some true.
Proof. unfold isDangerExtended. by intros ->. Qed.

Lemma store_Some (features : Vector) (i : Z) (v : float) :
  (0 <= i < Z.of_nat (length features))%Z ->
  store features i v = Some (<[Z.to_nat i := v]> features).
Proof.
  intros Hi. unfold store, GoInt.index.
  destruct (Z.ltb_spec i 0) as [|_]; [lia|].
  destruct (lookup_lt_is_Some_2 features (Z.to_nat i)) as [x ->]; [lia|done].
Qed.

Lemma store_22 (features : Vector) (i : Z) (v : float) :
  length features = 22%nat -> (0 <= i < 22)%Z ->
  exists features', store features i v = Some features' /\
                    length features' = 22%nat.
Proof.
  intros Hl Hi. rewrite store_Some; [|lia].
  eexists. split; [done|]. by rewrite length_insert.
Qed.

Lemma storeRelative_22 (features : Vector) (idx : Z) p head :
  length features = 22%nat -> (0 <= idx /\ idx + 3 < 22)%Z ->
  exists features', storeRelative features idx p head = Some features' /\
                    length features' = 22%nat.
Proof.
  intros Hl Hi. unfold storeRelative.
  destruct (store_22 features idx (boolToFloat (game.Y p <? game.Y head)%Z))
    as (f1 & -> & Hl1); [done|lia|]. simpl.
  destruct (store_22 f1 (idx + 1) (boolToFloat (game.Y head <? game.Y p)%Z))
    as (f2 & -> & Hl2); [done|lia|]. simpl.
  destruct (store_22 f2 (idx + 2) (boolToFloat (game.X p <? game.X head)%Z))
    as (f3 & -> & Hl3); [done|lia|]. simpl.
  apply store_22; [done|lia].
Qed.

Lemma setBody0_tempSnake (q p : game.Position) :
  setBody0 (tempSnake q) p = tempSnake p.
Proof. reflexivity. Qed.

Lemma NextHead_tempSnake (p : game.Position) (d : game.Direction) :
  game.NextHead (tempSnake p) d = Some (cell_ahead p d).
Proof. by apply NextHead_cell_ahead. Qed.

(** Runs the next closed [store] or [storeRelative] of the goal. *)
Ltac run_store :=
  lazymatch goal with
  | |- context [store ?f ?i ?v ≫= _] =>
      let f' := fresh "features" in
      let Hs := fresh "Hs" in
      let Hl := fresh "Hl" in
      destruct (store_22 f i v) as (f' & Hs & Hl); [assumption|lia|];
      rewrite Hs; clear Hs; cbn [mbind option_bind]
  | |- context [storeRelative ?f ?i ?p ?h ≫= _] =>
      let f' := fresh "features" in
      let Hs := fresh "Hs" in
      let Hl := fresh "Hl" in
      destruct (storeRelative_22 f i p h) as (f' & Hs & Hl); [assumption|lia|];
      rewrite Hs; clear Hs; cbn [mbind option_bind]
  end.

(** C6: for a living agent (whose body has a head, as has the
    opponent's when alive) the encoder returns 22 features, and the
    entries 19, 20 and 21 are the two-step danger flags of going
    straight, turning left and turning right: each is 1 exactly when the
    one-step cell or the two-step cell is dangerous, the two-step cell
    being one more step from the one-step cell in the direction the
    action turned to. *)
Theorem EncodeState_two_step_danger (state : game.GameState.t)
    (snakeID : Z) (snake : game.Snake.t) (head : game.Position) :
  game.snake_at (game.GameState.Snakes state) snakeID = Some snake ->
  game.Snake.Alive snake = true ->
  game.Head snake = Some head ->
  (forall other,
     game.snake_at (game.GameState.Snakes state) (GoInt.sub 1 snakeID)
       = Some other ->
     game.Snake.Alive other = true -> is_Some (game.Head other)) ->
  exists features f19 f20 f21,
    EncodeState state snakeID = Some features /\
    length features = 22%nat /\
    features !! 19%nat = Some f19 /\
    features !! 20%nat = Some f20 /\
    features !! 21%nat = Some f21 /\
    two_step_flag state snakeID head (game.Snake.Direction snake) GoStraight f19 /\
    two_step_flag state snakeID head (game.Snake.Direction snake) TurnLeft f20 /\
    two_step_flag state snakeID head (game.Snake.Direction snake) TurnRight f21.
Proof.
  intros Hsnake Halive Hhead Hother.
  set (dir := game.Snake.Direction snake).
  assert (Hid : exists other,
             game.snake_at (game.GameState.Snakes state) (GoInt.sub 1 snakeID)
               = Some other).
  { destruct (snake_at_inv _ _ _ Hsnake) as [(_&_&?)|(_&_&?)]; eauto. }
  destruct Hid as [other Hoth]. specialize (Hother other Hoth).
  pose proof (fun pos => isDanger_total state snakeID snake pos Hsnake) as Hd.
  destruct (Hd (cell_ahead head dir)) as [ds Hds].
  destruct (Hd (cell_ahead head (game.TurnLeft dir))) as [dl Hdl].
  destruct (Hd (cell_ahead head (game.TurnRight dir))) as [dr Hdr].
  destruct (Hd (cell_ahead (cell_ahead head dir) dir)) as [ds2 Hds2].
  destruct (Hd (cell_ahead (cell_ahead head (game.TurnLeft dir)) (game.TurnLeft dir)))
    as [dl2 Hdl2].
  destruct (Hd (cell_ahead (cell_ahead head (game.TurnRight dir)) (game.TurnRight dir)))
    as [dr2 Hdr2].
  unfold EncodeState. cbn [GoInt.make StateSize Z.ltb Z.compare mbind option_bind].
  rewrite Hsnake, Hoth. cbn [mbind option_bind]. rewrite Halive. cbn [negb].
  rewrite Hhead. cbn [mbind option_bind].
  rewrite !(NextHead_cell_ahead snake head _ Hhead). cbn [mbind option_bind].
  fold dir. rewrite Hds, Hdl, Hdr. cbn [mbind option_bind].
  assert (Hl0 : length (replicate (Z.to_nat 22) F64.zero) = 22%nat) by done.
  assert (Hdir : (0 <= game.Direction_to_int dir < 4)%Z) by (by destruct dir).
  do 4 run_store.
  destruct (game.Food.Active (game.GameState.Food state));
    destruct (game.Snake.Alive other) eqn:Ealive;
    try (destruct (Hother eq_refl) as [oppHead Hopp]; rewrite Hopp);
    cbn [mbind option_bind]; repeat run_store;
    rewrite !setBody0_tempSnake, !NextHead_tempSnake;
    cbn [mbind option_bind];
    rewrite (isDangerExtended_or _ _ _ _ _ _ Hds Hds2),
            (isDangerExtended_or _ _ _ _ _ _ Hdl Hdl2),
            (isDangerExtended_or _ _ _ _ _ _ Hdr Hdr2);
    cbn [mbind option_bind];
    (rewrite store_Some; [|lia]); cbn [mbind option_bind];
    (rewrite store_Some; [|rewrite !length_insert; lia]); cbn [mbind option_bind];
    (rewrite store_Some; [|rewrite !length_insert; lia]);
    change (Z.to_nat 19) with 19%nat; change (Z.to_nat 20) with 20%nat;
    change (Z.to_nat 21) with 21%nat;
    (eexists _, (boolToFloat (ds || ds2)), (boolToFloat (dl || dl2)),
             (boolToFloat (dr || dr2)));
    (split; [reflexivity|]);
    (split; [by rewrite !length_insert|]);
    (split; [rewrite list_lookup_insert_ne, list_lookup_insert_ne,
               list_lookup_insert_eq by lia; done|]);
    (split; [rewrite list_lookup_insert_ne, list_lookup_insert_eq
               by (rewrite ?length_insert; lia); done|]);
    (split; [rewrite list_lookup_insert_eq
               by (rewrite ?length_insert; lia); done|]);
    unfold two_step_flag; cbn [ActionToDirection GoStraight TurnLeft TurnRight
                                 Z.eqb];
    (split; [by exists ds, ds2|]); (split; [by exists dl, dl2|by exists dr, dr2]).
Qed.

End EncoderFacts.

(* ================================================================== *)
(** * The network: shapes, the forward pass, copies *)
(* ================================================================== *)

Section NetworkFacts.
Import ai.
Context `{rand.API}.
Local Open Scope float_scope.

Lemma at2_shape (w : Matrix) rows cols i j :
  has_shape w rows cols -> i < rows -> j < cols -> is_Some (at2 w i j).
Proof.
  intros [Hr Hc] Hi Hj. unfold at2.
  destruct (lookup_lt_is_Some_2 w i) as [row Hrow]; [lia|].
  rewrite Hrow. simpl. apply lookup_lt_is_Some_2.
  rewrite Forall_forall in Hc.
  rewrite (Hc row); [done|]. by eapply list_elem_of_lookup_2.
Qed.

Lemma sumColumn_Some (w : Matrix) rows cols j input : forall i sum,
  has_shape w rows cols -> j < cols -> i + length input <= rows ->
  is_Some (sumColumn w j i input sum).
Proof.
  induction input as [|x rest IH]; intros i sum Hw Hj Hi; simpl; [done|].
  simpl in Hi.
  destruct (at2_shape w rows cols i j Hw) as [v ->]; [lia|done|]. simpl.
  apply IH; [done..|lia].
Qed.

Lemma sumColumn_None (w : Matrix) j input : forall i sum,
  i <= length w -> length w < i + length input ->
  sumColumn w j i input sum = None.
Proof.
  induction input as [|x rest IH]; intros i sum Hi Hlen; simpl in *; [lia|].
  unfold at2. destruct (w !! i) as [row|] eqn:Erow; [|done]. simpl.
  destruct (row !! j); [|done]. simpl.
  apply lookup_lt_Some in Erow. apply IH; lia.
Qed.

(** Rows beyond the end of the input are never read. *)
Lemma sumColumn_take (w : Matrix) j input : forall i sum,
  sumColumn (take (i + length input) w) j i input sum
  = sumColumn w j i input sum.
Proof.
  induction input as [|x rest IH]; intros i sum; simpl; [done|].
  unfold at2. rewrite lookup_take_lt by lia.
  destruct (w !! i) as [row|]; [|done]. simpl.
  destruct (row !! j); [|done]. simpl.
  rewrite <- (IH (S i)). do 2 f_equal. lia.
Qed.

Lemma linearForward_from_Some (w : Matrix) rows cols input bias : forall j,
  has_shape w rows cols -> length input <= rows -> j + length bias <= cols ->
  exists out, linearForward_from input w j bias = Some out /\
              length out = length bias.
Proof.
  induction bias as [|b rest IH]; intros j Hw Hin Hj; simpl.
  - by exists [].
  - simpl in Hj.
    destruct (sumColumn_Some w rows cols j input 0 b Hw) as [s ->]; [lia..|].
    simpl. destruct (IH (S j) Hw Hin) as (out & -> & Hout); [lia|]. simpl.
    exists (s :: out). by rewrite <- Hout.
Qed.

Lemma linearForward_from_take (w : Matrix) input bias : forall j,
  linearForward_from input (take (length input) w) j bias
  = linearForward_from input w j bias.
Proof.
  induction bias as [|b rest IH]; intros j; simpl; [done|].
  pose proof (sumColumn_take w j input 0 b) as Hs. simpl in Hs.
  by rewrite Hs, IH.
Qed.

Lemma linearForward_take (w : Matrix) input bias :
  linearForward input (take (length input) w) bias
  = linearForward input w bias.
Proof. apply linearForward_from_take. Qed.

Lemma linearForward_Some (w : Matrix) rows cols input bias :
  has_shape w rows cols -> length input <= rows -> length bias = cols ->
  exists out, linearForward input w bias = Some out /\
              length out = cols.
Proof.
  intros Hw Hin Hb. unfold linearForward.
  destruct (linearForward_from_Some w rows cols input bias 0 Hw Hin)
    as (out & -> & Hout); [lia|].
  exists out. split; [done|lia].
Qed.

Lemma linearForward_None (w : Matrix) input bias :
  length w < length input -> bias <> [] ->
  linearForward input w bias = None.
Proof.
  intros Hlen Hb. unfold linearForward. destruct bias as [|b rest]; [done|].
  simpl. rewrite sumColumn_None; [done|lia|lia].
Qed.

Lemma length_relu (x : Vector) : length (relu x) = length x.
Proof. apply length_map. Qed.

(** C5 (amended): on a network that satisfies its shape invariant,
    [Forward] fails (an index-out-of-range panic) on every input longer
    than the input width, provided the first hidden layer is not empty;
    on an input no longer than the input width, shorter ones included,
    it does not fail: it returns [OutputSize] values, computed from the
    first [len(input)] rows of [W1] alone. *)
Theorem Forward_on_mismatched_input (n : QNetwork.t) (input : Vector) :
  well_shaped n ->
  ((QNetwork.InputSize n < Z.of_nat (length input))%Z ->
   (0 < QNetwork.HiddenSize1 n)%Z -> Forward n input = None) /\
  ((Z.of_nat (length input) <= QNetwork.InputSize n)%Z ->
   exists out, Forward n input = Some out /\
     Z.of_nat (length out) = QNetwork.OutputSize n /\
     Forward (with_W1 n (take (length input) (QNetwork.W1 n))) input
       = Some out).
Proof.
  intros (Hi & Hh1 & Hh2 & Ho & Hw1 & Hb1 & Hw2 & Hb2 & Hw3 & Hb3). split.
  - intros Hlong Hpos. unfold Forward.
    rewrite linearForward_None; [done| |].
    + destruct Hw1 as [-> _]. lia.
    + intros Hnil. rewrite Hnil in Hb1. simpl in Hb1. lia.
  - intros Hshort.
    destruct (linearForward_Some _ _ _ input (QNetwork.B1 n) Hw1)
      as (z1 & Hz1 & Hl1); [lia|done|].
    destruct (linearForward_Some _ _ _ (relu z1) (QNetwork.B2 n) Hw2)
      as (z2 & Hz2 & Hl2); [rewrite length_relu; lia|done|].
    destruct (linearForward_Some _ _ _ (relu z2) (QNetwork.B3 n) Hw3)
      as (out & Hout & Hl3); [rewrite length_relu; lia|done|].
    assert (Hf : Forward n input = Some out).
    { unfold Forward. rewrite Hz1. simpl. rewrite Hz2. simpl. done. }
    exists out. split; [done|]. split; [lia|].
    rewrite <- Hf. unfold Forward. simpl.
    by rewrite linearForward_take.
Qed.

End NetworkFacts.

Section CopyFacts.
Import ai.
Context `{rand.API}.
Local Open Scope float_scope.

Lemma set2_shape (w : Matrix) i j v :
  map length (set2 w i j v) = map length w.
Proof.
  unfold set2. revert i. induction w as [|row w IH]; intros [|i]; simpl;
    [done|done| |].
  - by rewrite length_insert.
  - f_equal. apply IH.
Qed.

Lemma updateRow_shape lr x i dOutput : forall j (w w' : Matrix),
  updateRow lr x w i j dOutput = Some w' -> map length w' = map length w.
Proof.
  induction dOutput as [|d rest IH]; intros j w w' Hu; simpl in Hu.
  - by simplify_eq.
  - destruct (at2 w i j) as [v|]; [|done]. simpl in Hu.
    apply IH in Hu. by rewrite Hu, set2_shape.
Qed.

Lemma updateWeights_from_shape lr dOutput input : forall i (w w' : Matrix),
  updateWeights_from lr w dOutput i input = Some w' ->
  map length w' = map length w.
Proof.
  induction input as [|x rest IH]; intros i w w' Hu; simpl in Hu.
  - by simplify_eq.
  - destruct (updateRow lr x w i 0 dOutput) as [w1|] eqn:E1; [|done].
    simpl in Hu. apply IH in Hu. apply updateRow_shape in E1. congruence.
Qed.

Lemma updateBias_from_length lr dOutput : forall j (b b' : Vector),
  updateBias_from lr b j dOutput = Some b' -> length b' = length b.
Proof.
  induction dOutput as [|d rest IH]; intros j b b' Hu; simpl in Hu.
  - by simplify_eq.
  - destruct (b !! j) as [v|]; [|done]. simpl in Hu.
    apply IH in Hu. by rewrite Hu, length_insert.
Qed.

Lemma linearBackward_shape lr input (w : Matrix) (b : Vector) dOutput
    dInput w' b' :
  linearBackward lr input w b dOutput true = Some (dInput, w', b') ->
  map length w' = map length w /\ length b' = length b.
Proof.
  unfold linearBackward. intros Hl.
  destruct (gradInput_from w dOutput 0 input); [|done]. simpl in Hl.
  destruct (updateWeights_from lr w dOutput 0 input) as [w1|] eqn:Ew; [|done].
  simpl in Hl.
  destruct (updateBias_from lr b 0 dOutput) as [b1|] eqn:Eb; [|done].
  simpl in Hl. simplify_eq.
  split; [by eapply updateWeights_from_shape|by eapply updateBias_from_length].
Qed.

(** [Backward] rewrites entries in place: no size changes. *)
Lemma Backward_shape (n n' : QNetwork.t) cache output action targetQ :
  Backward n cache output action targetQ = Some n' ->
  shape_of n' = shape_of n.
Proof.
  unfold Backward. intros Hb.
  destruct (GoInt.make _ _) as [dOut|]; [|done]. simpl in Hb.
  destruct (GoInt.index output action) as [o|]; [|done]. simpl in Hb.
  destruct (GoInt.index dOut action); [|done]. simpl in Hb.
  destruct (linearBackward _ (h2 cache) _ _ _ _) as [[[dH2 w3] b3]|] eqn:E3;
    [|done]. simpl in Hb.
  destruct (elementMul dH2 _) as [dZ2|]; [|done]. simpl in Hb.
  destruct (linearBackward _ (h1 cache) _ _ _ _) as [[[dH1 w2] b2]|] eqn:E2;
    [|done]. simpl in Hb.
  destruct (elementMul dH1 _) as [dZ1|]; [|done]. simpl in Hb.
  destruct (linearBackward _ (input cache) _ _ _ _) as [[[dIn w1] b1]|] eqn:E1;
    [|done]. simpl in Hb. simplify_eq.
  apply linearBackward_shape in E1 as [? ?], E2 as [? ?], E3 as [? ?].
  unfold shape_of. simpl. congruence.
Qed.

Lemma trainBatch_shape batch : forall (a a' : DQNAgent.t) total total',
  trainBatch a batch total = Some (a', total') ->
  shape_of (DQNAgent.PolicyNet a') = shape_of (DQNAgent.PolicyNet a).
Proof.
  induction batch as [|exp rest IH]; simpl; intros a a' total total' Ht.
  - by simplify_eq.
  - destruct (trainOnExperience a exp) as [[a1 loss]|] eqn:E1; [|done].
    simpl in Ht. apply IH in Ht. rewrite Ht.
    destruct (trainOnExperience_inv _ _ _ _ E1)
      as (t & out & cache & q & _ & _ & _ & Hb & _ & _).
    by eapply Backward_shape.
Qed.

Lemma copy_same_length {A} (dst src : list A) :
  length dst = length src -> GoInt.copy dst src = src.
Proof.
  intros Hl. unfold GoInt.copy.
  rewrite Hl, firstn_all, drop_ge, app_nil_r; [done|lia].
Qed.

Lemma copyMatrix_same_shape (src : Matrix) : forall dst : Matrix,
  map length dst = map length src -> copyMatrix dst src = Some src.
Proof.
  induction src as [|s src IH]; intros [|d dst] Hs; simpl in *; try done.
  injection Hs as Hd Hrest. rewrite IH by done. simpl.
  by rewrite copy_same_length.
Qed.

(** Between networks of the same sizes [CopyFrom] copies everything. *)
Lemma CopyFrom_same_shape (n other : QNetwork.t) :
  shape_of n = shape_of other ->
  exists n', CopyFrom n other = Some n' /\ weights_of n' = weights_of other.
Proof.
  unfold shape_of. intros [= H1 H2 H3 H4 H5 H6]. unfold CopyFrom.
  rewrite !copyMatrix_same_shape by done. simpl.
  eexists. split; [done|]. unfold weights_of. simpl.
  by rewrite !copy_same_length.
Qed.

(** C3 (amended): when a call of [Train] performs the network update
    (the buffer holds a batch and the incremented step counter is a
    multiple of the train interval) and the incremented step counter is
    also a multiple of the target-sync interval, then on return the
    target network's weights and biases equal the policy network's
    current ones, the two networks having matrices and vectors of the
    same sizes. *)
Theorem Train_syncs_target_when_updating (a a' : DQNAgent.t) (loss : float) :
  Train a = Some (a', loss) ->
  updates a ->
  (DQNAgent.TargetUpdate a | DQNAgent.StepCount a')%Z ->
  shape_of (DQNAgent.TargetNet a) = shape_of (DQNAgent.PolicyNet a) ->
  weights_of (DQNAgent.TargetNet a') = weights_of (DQNAgent.PolicyNet a').
Proof.
  intros Ht Hup Hdiv Hshape.
  destruct (Train_counts a _ _ Ht) as [Hstep _].
  destruct (Train_updates_inv _ _ _ Ht Hup)
    as (batch & rb & policy & total & _ & Hb & _ & r & Hr & Hsync).
  simpl in *. rewrite Hstep in Hdiv.
  apply (rem_zero_iff _ _ _ Hr) in Hdiv. subst r. simpl in Hsync.
  apply trainBatch_shape in Hb. simpl in Hb.
  unfold UpdateTargetNetwork in Hsync. simpl in Hsync.
  destruct (CopyFrom_same_shape (DQNAgent.TargetNet a) policy)
    as (target & Hcopy & Hw); [congruence|].
  rewrite Hcopy in Hsync. simpl in Hsync. injection Hsync as Ha.
  subst a'. exact Hw.
Qed.

End CopyFacts.

(* ================================================================== *)
(** * Constructed networks and agents *)
(* ================================================================== *)

Section Construction.
Import ai.
Context `{rand.API}.
Local Open Scope float_scope.

Lemma xavierRow_length stddev fanOut : forall g,
  length (xavierRow stddev fanOut g).1 = fanOut.
Proof.
  induction fanOut as [|k IH]; intros g; simpl; [done|].
  destruct (rand.NormFloat64 g) as [x g1].
  specialize (IH g1). destruct (xavierRow stddev k g1) as [row g2].
  simpl in *. by rewrite IH.
Qed.

Lemma xavierRows_shape stddev fanIn fanOut : forall g,
  (0 <= fanOut)%Z ->
  exists m g', xavierRows stddev fanIn fanOut g = Some (m, g') /\
               has_shape m fanIn (Z.to_nat fanOut).
Proof.
  intros g Hf. revert g.
  induction fanIn as [|k IH]; intros g; simpl.
  - exists [], g. split; [done|]. split; [done|constructor].
  - unfold GoInt.make. destruct (Z.ltb_spec fanOut 0) as [|_]; [lia|]. simpl.
    pose proof (xavierRow_length stddev (Z.to_nat fanOut) g) as Hrow.
    destruct (xavierRow stddev (Z.to_nat fanOut) g) as [row g1]. simpl in Hrow.
    destruct (IH g1) as (m & g' & -> & Hlen & Hrows). simpl.
    exists (row :: m), g'. split; [done|].
    split; [simpl; by rewrite Hlen|by constructor].
Qed.

Lemma xavierInit_shape fanIn fanOut g :
  (0 <= fanIn)%Z -> (0 <= fanOut)%Z ->
  exists m g', xavierInit fanIn fanOut g = Some (m, g') /\
               has_shape m (Z.to_nat fanIn) (Z.to_nat fanOut).
Proof.
  intros Hi Ho. unfold xavierInit, GoInt.make.
  destruct (Z.ltb_spec fanIn 0) as [|_]; [lia|]. simpl.
  by apply xavierRows_shape.
Qed.

Lemma xavierInit_nonneg fanIn fanOut g r :
  xavierInit fanIn fanOut g = Some r -> (0 <= fanIn)%Z.
Proof.
  unfold xavierInit, GoInt.make.
  destruct (Z.ltb_spec fanIn 0); [done|lia].
Qed.

(** With non-negative layer widths [NewQNetwork] returns a network that
    satisfies the shape invariant and carries the widths it was given. *)
Lemma NewQNetwork_well_shaped inputSize hiddenSize1 hiddenSize2 outputSize lr seed :
  (0 <= inputSize)%Z -> (0 <= hiddenSize1)%Z ->
  (0 <= hiddenSize2)%Z -> (0 <= outputSize)%Z ->
  exists n, NewQNetwork inputSize hiddenSize1 hiddenSize2 outputSize lr seed
            = Some n /\
    well_shaped n /\
    QNetwork.InputSize n = inputSize /\ QNetwork.HiddenSize1 n = hiddenSize1 /\
    QNetwork.HiddenSize2 n = hiddenSize2 /\ QNetwork.OutputSize n = outputSize /\
    QNetwork.LearningRate n = lr.
Proof.
  intros Hi Hh1 Hh2 Ho. unfold NewQNetwork.
  destruct (xavierInit_shape inputSize hiddenSize1 (rand.New seed) Hi Hh1)
    as (w1 & g1 & -> & Hw1). simpl.
  unfold GoInt.make.
  destruct (Z.ltb_spec hiddenSize1 0) as [|_]; [lia|]. simpl.
  destruct (xavierInit_shape hiddenSize1 hiddenSize2 g1 Hh1 Hh2)
    as (w2 & g2 & -> & Hw2). simpl.
  destruct (Z.ltb_spec hiddenSize2 0) as [|_]; [lia|]. simpl.
  destruct (xavierInit_shape hiddenSize2 outputSize g2 Hh2 Ho)
    as (w3 & g3 & -> & Hw3). simpl.
  destruct (Z.ltb_spec outputSize 0) as [|_]; [lia|]. simpl.
  eexists. split; [reflexivity|]. unfold well_shaped. simpl.
  rewrite !length_replicate. done.
Qed.

Lemma has_shape_lengths (m : Matrix) rows cols :
  has_shape m rows cols -> map length m = replicate rows cols.
Proof.
  intros [<- Hrows]. induction Hrows as [|row m Hrow _ IH]; simpl; [done|].
  by rewrite Hrow, IH.
Qed.

(** Two networks that satisfy the shape invariant for the same layer
    widths have matrices and vectors of the same sizes. *)
Lemma well_shaped_same_shape (n1 n2 : QNetwork.t) :
  well_shaped n1 -> well_shaped n2 ->
  QNetwork.InputSize n1 = QNetwork.InputSize n2 ->
  QNetwork.HiddenSize1 n1 = QNetwork.HiddenSize1 n2 ->
  QNetwork.HiddenSize2 n1 = QNetwork.HiddenSize2 n2 ->
  QNetwork.OutputSize n1 = QNetwork.OutputSize n2 ->
  shape_of n1 = shape_of n2.
Proof.
  intros (_&_&_&_&Ha1&Hb1&Ha2&Hb2&Ha3&Hb3) (_&_&_&_&Hc1&Hd1&Hc2&Hd2&Hc3&Hd3)
    Ei E1 E2 Eo.
  unfold shape_of.
  rewrite (has_shape_lengths _ _ _ Ha1), (has_shape_lengths _ _ _ Ha2),
    (has_shape_lengths _ _ _ Ha3), (has_shape_lengths _ _ _ Hc1),
    (has_shape_lengths _ _ _ Hc2), (has_shape_lengths _ _ _ Hc3).
  congruence.
Qed.

(** [Clone] of a well-shaped network is a network of the same sizes
    holding the same weights and biases. *)
Lemma Clone_well_shaped (n : QNetwork.t) :
  well_shaped n ->
  exists c, Clone n = Some c /\ weights_of c = weights_of n /\
            shape_of c = shape_of n.
Proof.
  intros Hn. pose proof Hn as (Hi & Hh1 & Hh2 & Ho & _).
  unfold Clone.
  destruct (NewQNetwork_well_shaped (QNetwork.InputSize n)
              (QNetwork.HiddenSize1 n) (QNetwork.HiddenSize2 n)
              (QNetwork.OutputSize n) (QNetwork.LearningRate n) 0 Hi Hh1 Hh2 Ho)
    as (fresh & -> & Hfresh & Ei & E1 & E2 & Eo & _). simpl.
  assert (Hs : shape_of fresh = shape_of n)
    by (by apply well_shaped_same_shape).
  destruct (CopyFrom_same_shape fresh n Hs) as (c & -> & Hw).
  exists c. split; [done|]. split; [done|].
  unfold weights_of in Hw. unfold shape_of.
  injection Hw as -> -> -> -> -> ->. done.
Qed.

(** An agent made by [NewDQNAgent] starts with a target network of the
    policy network's sizes, holding the policy network's weights. *)
Lemma NewDQNAgent_networks cfg seed (a : DQNAgent.t) :
  NewDQNAgent cfg seed = Some a ->
  shape_of (DQNAgent.TargetNet a) = shape_of (DQNAgent.PolicyNet a) /\
  weights_of (DQNAgent.TargetNet a) = weights_of (DQNAgent.PolicyNet a) /\
  well_shaped (DQNAgent.PolicyNet a).
Proof.
  unfold NewDQNAgent. intros Hn.
  destruct (rand.Int63 (rand.New seed)) as [seed1 g1].
  destruct (NewQNetwork _ _ _ _ _ seed1) as [policy|] eqn:Ep; [|done].
  simpl in Hn.
  assert (Hdims : (0 <= config.InputSize cfg)%Z /\
                  (0 <= config.HiddenSize1 cfg)%Z /\
                  (0 <= config.HiddenSize2 cfg)%Z /\
                  (0 <= config.OutputSize cfg)%Z).
  { unfold NewQNetwork in Ep.
    destruct (xavierInit _ _ _) as [[w1 g]|] eqn:Ex; [|done]. simpl in Ep.
    apply xavierInit_nonneg in Ex. unfold GoInt.make in Ep.
    destruct (Z.ltb_spec (config.HiddenSize1 cfg) 0); [done|]. simpl in Ep.
    destruct (xavierInit _ _ _) as [[w2 g']|]; [|done]. simpl in Ep.
    destruct (Z.ltb_spec (config.HiddenSize2 cfg) 0); [done|]. simpl in Ep.
    destruct (xavierInit _ _ _) as [[w3 g'']|]; [|done]. simpl in Ep.
    destruct (Z.ltb_spec (config.OutputSize cfg) 0); [done|]. lia. }
  destruct Hdims as (Hi & Hh1 & Hh2 & Ho).
  destruct (NewQNetwork_well_shaped (config.InputSize cfg) (config.HiddenSize1 cfg)
              (config.HiddenSize2 cfg) (config.OutputSize cfg)
              (config.LearningRate cfg) seed1 Hi Hh1 Hh2 Ho)
    as (policy' & Ep' & Hws & _).
  rewrite Ep in Ep'. injection Ep' as <-.
  destruct (Clone_well_shaped policy Hws) as (target & Hc & Hw & Hs).
  rewrite Hc in Hn. simpl in Hn.
  destruct (rand.Int63 g1) as [seed2 g2].
  destruct (NewReplayBuffer _ seed2) as [rb|]; [|done]. simpl in Hn.
  injection Hn as <-. simpl. done.
Qed.

End Construction.

(* ================================================================== *)
(** * A well-formed agent trains without a panic *)
(* ================================================================== *)

Section Totality.
Import ai.
Context `{rand.API}.
Local Open Scope float_scope.

Lemma lengths_has_shape (m : Matrix) rows cols :
  map length m = replicate rows cols -> has_shape m rows cols.
Proof.
  intros Hm. split.
  - by rewrite <- (length_map length), Hm, length_replicate.
  - apply Forall_forall. intros row Hrow.
    assert (Hin : length row ∈ map length m)
      by (apply list_elem_of_fmap; by exists row).
    rewrite Hm in Hin. by apply elem_of_replicate in Hin as [-> _].
Qed.

Lemma at2_lengths (w : Matrix) rows cols i j :
  map length w = replicate rows cols -> i < rows -> j < cols ->
  is_Some (at2 w i j).
Proof.
  intros Hw. eapply at2_shape. by apply lengths_has_shape.
Qed.

Lemma gradInputRow_Some (w : Matrix) rows cols i dOutput : forall j acc,
  map length w = replicate rows cols -> i < rows ->
  j + length dOutput <= cols ->
  is_Some (gradInputRow w i j dOutput acc).
Proof.
  induction dOutput as [|d rest IH]; intros j acc Hw Hi Hj; simpl in *; [done|].
  destruct (at2_lengths w rows cols i j Hw) as [v ->]; [lia..|]. simpl.
  apply IH; [done..|lia].
Qed.

Lemma gradInput_from_Some (w : Matrix) rows cols dOutput input : forall i,
  map length w = replicate rows cols -> i + length input <= rows ->
  length dOutput <= cols ->
  exists dInput, gradInput_from w dOutput i input = Some dInput /\
                 length dInput = length input.
Proof.
  induction input as [|x rest IH]; intros i Hw Hi Hd; simpl in *.
  - by exists [].
  - destruct (gradInputRow_Some w rows cols i dOutput 0 0 Hw) as [g ->];
      [lia..|]. simpl.
    destruct (IH (S i) Hw) as (gs & -> & Hlen); [lia..|]. simpl.
    exists (g :: gs). by rewrite <- Hlen.
Qed.

Lemma updateRow_Some lr x rows cols i dOutput : forall j (w : Matrix),
  map length w = replicate rows cols -> i < rows ->
  j + length dOutput <= cols ->
  is_Some (updateRow lr x w i j dOutput).
Proof.
  induction dOutput as [|d rest IH]; intros j w Hw Hi Hj; simpl in *; [done|].
  destruct (at2_lengths w rows cols i j Hw) as [v ->]; [lia..|]. simpl.
  apply IH; [by rewrite set2_shape|done|lia].
Qed.

Lemma updateWeights_from_Some lr rows cols dOutput input : forall i (w : Matrix),
  map length w = replicate rows cols -> i + length input <= rows ->
  length dOutput <= cols ->
  is_Some (updateWeights_from lr w dOutput i input).
Proof.
  induction input as [|x rest IH]; intros i w Hw Hi Hd; simpl in *; [done|].
  destruct (updateRow_Some lr x rows cols i dOutput 0 w Hw) as [w1 Hw1];
    [lia..|].
  rewrite Hw1. simpl. apply updateRow_shape in Hw1.
  apply IH; [congruence|lia|done].
Qed.

Lemma updateBias_from_Some lr dOutput : forall j (b : Vector),
  j + length dOutput <= length b -> is_Some (updateBias_from lr b j dOutput).
Proof.
  induction dOutput as [|d rest IH]; intros j b Hj; simpl in *; [done|].
  destruct (lookup_lt_is_Some_2 b j) as [v ->]; [lia|]. simpl.
  apply IH. rewrite length_insert. lia.
Qed.

Lemma linearBackward_Some lr input (w : Matrix) (b : Vector) dOutput rows cols :
  map length w = replicate rows cols -> length b = cols ->
  length input <= rows -> length dOutput <= cols ->
  exists dInput w' b',
    linearBackward lr input w b dOutput true = Some (dInput, w', b') /\
    length dInput = length input.
Proof.
  intros Hw Hb Hin Hd. unfold linearBackward.
  destruct (gradInput_from_Some w rows cols dOutput input 0 Hw)
    as (dInput & -> & Hlen); [lia..|]. simpl.
  destruct (updateWeights_from_Some lr rows cols dOutput input 0 w Hw)
    as [w' ->]; [lia..|]. simpl.
  destruct (updateBias_from_Some lr dOutput 0 b) as [b' ->]; [lia|]. simpl.
  by exists dInput, w', b'.
Qed.

Lemma elementMul_Some (a b : Vector) :
  length a <= length b ->
  exists r, elementMul a b = Some r /\ length r = length a.
Proof.
  revert b. induction a as [|x a IH]; intros [|y b] Hl; simpl in *;
    [by exists []|by exists []|lia|].
  destruct (IH b) as (r & -> & Hr); [lia|]. simpl.
  exists (x * y :: r). by rewrite <- Hr.
Qed.

Lemma length_reluDerivative (z : Vector) : length (reluDerivative z) = length z.
Proof. apply length_map. Qed.

(** The forward pass of a well-shaped network on an input that fits. *)
Lemma ForwardWithCache_Some (n : QNetwork.t) (x : Vector) :
  well_shaped n -> (Z.of_nat (length x) <= QNetwork.InputSize n)%Z ->
  exists out cache,
    ForwardWithCache n x = Some (out, cache) /\
    Forward n x = Some out /\
    length out = Z.to_nat (QNetwork.OutputSize n) /\
    input cache = x /\
    length (z1 cache) = Z.to_nat (QNetwork.HiddenSize1 n) /\
    length (h1 cache) = Z.to_nat (QNetwork.HiddenSize1 n) /\
    length (z2 cache) = Z.to_nat (QNetwork.HiddenSize2 n) /\
    length (h2 cache) = Z.to_nat (QNetwork.HiddenSize2 n).
Proof.
  intros (Hi & Hh1 & Hh2 & Ho & Hw1 & Hb1 & Hw2 & Hb2 & Hw3 & Hb3) Hx.
  unfold ForwardWithCache, Forward.
  destruct (linearForward_Some _ _ _ x (QNetwork.B1 n) Hw1)
    as (v1 & -> & Hl1); [lia|done|]. simpl.
  destruct (linearForward_Some _ _ _ (relu v1) (QNetwork.B2 n) Hw2)
    as (v2 & -> & Hl2); [rewrite length_relu; lia|done|]. simpl.
  destruct (linearForward_Some _ _ _ (relu v2) (QNetwork.B3 n) Hw3)
    as (out & -> & Hl3); [rewrite length_relu; lia|done|]. simpl.
  eexists _, _. split; [reflexivity|]. simpl.
  rewrite !length_relu. done.
Qed.

(** [Backward] on the cache of such a pass, for an action the output has. *)
Lemma Backward_Some (n : QNetwork.t) cache (out : Vector) action targetQ :
  well_shaped n ->
  length out = Z.to_nat (QNetwork.OutputSize n) ->
  (0 <= action < QNetwork.OutputSize n)%Z ->
  (Z.of_nat (length (input cache)) <= QNetwork.InputSize n)%Z ->
  length (z1 cache) = Z.to_nat (QNetwork.HiddenSize1 n) ->
  length (h1 cache) = Z.to_nat (QNetwork.HiddenSize1 n) ->
  length (z2 cache) = Z.to_nat (QNetwork.HiddenSize2 n) ->
  length (h2 cache) = Z.to_nat (QNetwork.HiddenSize2 n) ->
  is_Some (Backward n cache out action targetQ).
Proof.
  intros (Hi & Hh1 & Hh2 & Ho & Hw1 & Hb1 & Hw2 & Hb2 & Hw3 & Hb3)
    Hout Hact Hin Hz1 Hc1 Hz2 Hc2.
  apply has_shape_lengths in Hw1, Hw2, Hw3.
  unfold Backward, GoInt.make, GoInt.index.
  destruct (Z.ltb_spec (QNetwork.OutputSize n) 0) as [|_]; [lia|]. simpl.
  destruct (Z.ltb_spec action 0) as [|_]; [lia|].
  destruct (lookup_lt_is_Some_2 out (Z.to_nat action)) as [o ->]; [lia|].
  simpl.
  destruct (lookup_lt_is_Some_2
              (replicate (Z.to_nat (QNetwork.OutputSize n)) F64.zero)
              (Z.to_nat action)) as [o' ->];
    [rewrite length_replicate; lia|]. simpl.
  set (dOutput := <[Z.to_nat action := o - targetQ]> _).
  assert (Hd : length dOutput = Z.to_nat (QNetwork.OutputSize n))
    by (subst dOutput; by rewrite length_insert, length_replicate).
  destruct (linearBackward_Some (QNetwork.LearningRate n) (h2 cache)
              (QNetwork.W3 n) (QNetwork.B3 n) dOutput _ _ Hw3 Hb3)
    as (dH2 & w3 & b3 & -> & HdH2); [lia..|]. simpl.
  destruct (elementMul_Some dH2 (reluDerivative (z2 cache)))
    as (dZ2 & -> & HdZ2); [rewrite length_reluDerivative; lia|]. simpl.
  destruct (linearBackward_Some (QNetwork.LearningRate n) (h1 cache)
              (QNetwork.W2 n) (QNetwork.B2 n) dZ2 _ _ Hw2 Hb2)
    as (dH1 & w2 & b2 & -> & HdH1); [lia..|]. simpl.
  destruct (elementMul_Some dH1 (reluDerivative (z1 cache)))
    as (dZ1 & -> & HdZ1); [rewrite length_reluDerivative; lia|]. simpl.
  destruct (linearBackward_Some (QNetwork.LearningRate n) (input cache)
              (QNetwork.W1 n) (QNetwork.B1 n) dZ1 _ _ Hw1 Hb1)
    as (dIn & w1 & b1 & -> & _); [lia..|]. simpl. done.
Qed.

(** [Backward] keeps the layer widths it does not write. *)
Lemma Backward_dims (n n' : QNetwork.t) cache output action targetQ :
  Backward n cache output action targetQ = Some n' ->
  QNetwork.InputSize n' = QNetwork.InputSize n /\
  QNetwork.HiddenSize1 n' = QNetwork.HiddenSize1 n /\
  QNetwork.HiddenSize2 n' = QNetwork.HiddenSize2 n /\
  QNetwork.OutputSize n' = QNetwork.OutputSize n.
Proof.
  unfold Backward. intros Hb.
  repeat (simplify_option_eq; try case_match); done.
Qed.

Lemma well_shaped_transfer (n n' : QNetwork.t) :
  well_shaped n -> shape_of n' = shape_of n ->
  QNetwork.InputSize n' = QNetwork.InputSize n ->
  QNetwork.HiddenSize1 n' = QNetwork.HiddenSize1 n ->
  QNetwork.HiddenSize2 n' = QNetwork.HiddenSize2 n ->
  QNetwork.OutputSize n' = QNetwork.OutputSize n ->
  well_shaped n'.
Proof.
  intros (Hi & Hh1 & Hh2 & Ho & Hw1 & Hb1 & Hw2 & Hb2 & Hw3 & Hb3)
    [= S1 S2 S3 S4 S5 S6] Ei E1 E2 Eo.
  apply has_shape_lengths in Hw1, Hw2, Hw3.
  unfold well_shaped. rewrite Ei, E1, E2, Eo.
  split; [done|]. split; [done|]. split; [done|]. split; [done|].
  split; [apply lengths_has_shape; congruence|]. split; [congruence|].
  split; [apply lengths_has_shape; congruence|]. split; [congruence|].
  split; [apply lengths_has_shape; congruence|congruence].
Qed.

(** What [Sample] returns was read from the stored part of the buffer. *)
Lemma Sample_reads_stored (rb : ReplayBuffer.t) (batchSize : Z) :
  rand.Perm_contract ->
  ReplayBuffer.size rb <= length (ReplayBuffer.buffer rb) ->
  (0 <= batchSize)%Z ->
  exists batch rb', Sample rb batchSize = Some (batch, rb') /\
    Forall (fun e => exists i, i < ReplayBuffer.size rb /\
                               ReplayBuffer.buffer rb !! i = Some e) batch.
Proof.
  intros Hperm Hwf Hb. unfold Sample, GoInt.make.
  set (k := if (_ <? batchSize)%Z then _ else batchSize).
  assert (Hk : (0 <= k <= Z.of_nat (ReplayBuffer.size rb))%Z).
  { subst k. destruct (Z.ltb_spec (Z.of_nat (ReplayBuffer.size rb)) batchSize); lia. }
  destruct (Z.ltb_spec k 0) as [|_]; [lia|]. simpl.
  specialize (Hperm (ReplayBuffer.rng rb) (ReplayBuffer.size rb)).
  destruct (rand.Perm _ _) as [perm g]. simpl in Hperm.
  assert (Hlen : length perm = ReplayBuffer.size rb)
    by (by rewrite Hperm, length_seq).
  destruct (Z.ltb_spec (Z.of_nat (length perm)) k) as [|_]; [lia|].
  assert (Hlt : forall i, i ∈ take (Z.to_nat k) perm -> i < ReplayBuffer.size rb).
  { intros i Hi. apply list_elem_of_lookup in Hi as [j Hj].
    apply lookup_take_Some in Hj as [Hj _].
    apply list_elem_of_lookup_2 in Hj. rewrite Hperm in Hj.
    apply elem_of_seq in Hj. lia. }
  destruct (mapM (fun idx => ReplayBuffer.buffer rb !! idx) (take (Z.to_nat k) perm))
    as [batch|] eqn:Em.
  - simpl. eexists _, _. split; [reflexivity|].
    apply mapM_Some in Em. apply Forall_forall. intros e He.
    apply list_elem_of_lookup in He as [j Hj].
    destruct (Forall2_lookup_r _ _ _ _ _ Em Hj) as (i & Hi & Hbuf).
    exists i. split; [|done]. apply Hlt. by eapply list_elem_of_lookup_2.
  - exfalso. apply eq_None_not_Some in Em. apply Em, mapM_is_Some.
    apply Forall_forall. intros i Hi. apply lookup_lt_is_Some_2.
    specialize (Hlt i Hi). lia.
Qed.

Lemma Max_Some (values : Vector) : 0 < length values -> is_Some (Max values).
Proof. destruct values; simpl; [lia|done]. Qed.

Lemma trainOnExperience_Some (a : DQNAgent.t) (e : Experience.t) :
  well_shaped (DQNAgent.PolicyNet a) ->
  well_shaped (DQNAgent.TargetNet a) ->
  QNetwork.InputSize (DQNAgent.TargetNet a)
    = QNetwork.InputSize (DQNAgent.PolicyNet a) ->
  (0 < QNetwork.OutputSize (DQNAgent.TargetNet a))%Z ->
  fits (DQNAgent.PolicyNet a) e ->
  exists a' loss, trainOnExperience a e = Some (a', loss) /\
    well_shaped (DQNAgent.PolicyNet a') /\
    QNetwork.InputSize (DQNAgent.PolicyNet a')
      = QNetwork.InputSize (DQNAgent.PolicyNet a) /\
    QNetwork.OutputSize (DQNAgent.PolicyNet a')
      = QNetwork.OutputSize (DQNAgent.PolicyNet a).
Proof.
  intros Hp Ht Hdim Hout (Hs & Hn & Ha).
  assert (Htq : is_Some (targetQ_of a e)).
  { unfold targetQ_of. destruct (Experience.Done e); [done|].
    destruct (ForwardWithCache_Some (DQNAgent.TargetNet a)
                (Experience.NextState e) Ht)
      as (q & c & _ & -> & Hq & _); [lia|]. simpl.
    destruct (Max_Some q) as [m ->]; [lia|done]. }
  destruct Htq as [t Htq].
  destruct (ForwardWithCache_Some (DQNAgent.PolicyNet a) (Experience.State e) Hp Hs)
    as (out & cache & Hf & _ & Hlo & Hci & Hz1 & Hh1 & Hz2 & Hh2).
  destruct (Backward_Some (DQNAgent.PolicyNet a) cache out (Experience.Action e) t Hp)
    as [p' Hb]; [done|done|by rewrite Hci|done..|].
  unfold trainOnExperience. rewrite Htq. simpl. rewrite Hf. simpl.
  unfold GoInt.index at 1.
  destruct (Z.ltb_spec (Experience.Action e) 0) as [|_]; [lia|].
  destruct (lookup_lt_is_Some_2 out (Z.to_nat (Experience.Action e)))
    as [q ->]; [lia|]. simpl. rewrite Hb. simpl.
  eexists _, _. split; [reflexivity|]. simpl.
  destruct (Backward_dims _ _ _ _ _ _ Hb) as (Ei & E1 & E2 & Eo).
  split; [|done].
  eapply well_shaped_transfer; [exact Hp|by eapply Backward_shape|done..].
Qed.

Lemma trainBatch_Some batch : forall (a : DQNAgent.t) total,
  well_shaped (DQNAgent.PolicyNet a) ->
  well_shaped (DQNAgent.TargetNet a) ->
  QNetwork.InputSize (DQNAgent.TargetNet a)
    = QNetwork.InputSize (DQNAgent.PolicyNet a) ->
  (0 < QNetwork.OutputSize (DQNAgent.TargetNet a))%Z ->
  Forall (fits (DQNAgent.PolicyNet a)) batch ->
  is_Some (trainBatch a batch total).
Proof.
  induction batch as [|e rest IH]; intros a total Hp Ht Hdim Hout Hfit; simpl;
    [done|].
  apply Forall_cons in Hfit as [He Hrest].
  destruct (trainOnExperience_Some a e Hp Ht Hdim Hout He)
    as (a1 & loss & Htr & Hp1 & Ei & Eo).
  rewrite Htr. simpl.
  pose proof (trainOnExperience_frame _ _ _ _ Htr) as Hfr.
  apply IH; try done.
  - by rewrite Hfr.
  - rewrite Hfr. simpl. congruence.
  - by rewrite Hfr.
  - eapply Forall_impl; [exact Hrest|]. intros e' (?&?&?).
    unfold fits. rewrite Ei, Eo. done.
Qed.

(** On a trainable agent, with [Perm] a permutation, [Train] returns. *)
Lemma Train_total (a : DQNAgent.t) :
  rand.Perm_contract -> trainable a ->
  exists a' loss, Train a = Some (a', loss).
Proof.
  intros Hperm (Hp & Ht & Hshape & Hdim & Hout & Hti & Htu & Hbs & Hwf & Hfit).
  unfold Train, GoInt.rem. simpl.
  destruct (_ <? _)%Z; [by eexists _, _|].
  destruct (Z.eqb_spec (DQNAgent.TrainInterval a) 0) as [|_]; [done|]. simpl.
  match goal with |- context [negb ?b] => destruct (negb b) end;
    [by eexists _, _|].
  destruct (Sample_reads_stored (DQNAgent.ReplayBuffer a)
              (DQNAgent.BatchSize a) Hperm Hwf Hbs)
    as (batch & rb & Hs & Hread).
  rewrite Hs. simpl.
  set (a2 := DQNAgent.set_ReplayBuffer _ rb).
  assert (Hfits : Forall (fits (DQNAgent.PolicyNet a)) batch).
  { eapply Forall_impl; [exact Hread|].
    intros e (i & Hi & Hbuf). by eapply Hfit. }
  destruct (trainBatch_Some batch a2 0.0 Hp Ht Hdim Hout Hfits)
    as [[a3 total] Hb].
  rewrite Hb. simpl.
  pose proof (trainBatch_frame _ _ _ _ _ Hb) as Hfr.
  pose proof (trainBatch_shape _ _ _ _ _ Hb) as Hsh.
  rewrite Hfr. simpl.
  destruct (Z.eqb_spec (DQNAgent.TargetUpdate a) 0) as [|_]; [done|]. simpl.
  match goal with |- context [if ?b then UpdateTargetNetwork _ else _] =>
    destruct b end; simpl; [|by eexists _, _].
  unfold UpdateTargetNetwork. simpl.
  destruct (CopyFrom_same_shape (DQNAgent.TargetNet a) (DQNAgent.PolicyNet a3))
    as (target & -> & _); [simpl in Hsh; congruence|].
  simpl. by eexists _, _.
Qed.

End Totality.

(* ================================================================== *)
(** * [Max] returns a greatest value *)
(* ================================================================== *)

Section MaxFacts.
Import ai.

Lemma SFcompare_Lt_trans (x y z : spec_float) :
  SFcompare x y = Some Lt -> SFcompare y z = Some Lt -> SFcompare x z = Some Lt.
Proof.
  destruct x as [sx | sx | | sx mx ex], y as [sy | sy | | sy my ey],
           z as [sz | sz | | sz mz ez]; simpl;
    try destruct sx; try destruct sy; try destruct sz; simpl;
    try discriminate; try reflexivity;
    change (PosDef.Pos.compare_cont Eq) with Pos.compare;
    intros H1 H2; f_equal;
    repeat match goal with
    | H : context [(?a ?= ?b)%Z] |- _ =>
        destruct (Z.compare_spec a b); try discriminate
    | H : context [(?a ?= ?b)%positive] |- _ =>
        destruct (Pos.compare_spec a b); simpl in H; try discriminate
    end;
    repeat match goal with
    | |- context [(?a ?= ?b)%Z] =>
        destruct (Z.compare_spec a b); try lia
    | |- context [(?a ?= ?b)%positive] =>
        destruct (Pos.compare_spec a b); simpl; try lia
    end; try reflexivity; try lia.
Qed.

Lemma ltb_trans (x y z : float) :
  PrimFloat.ltb x y = true -> PrimFloat.ltb y z = true ->
  PrimFloat.ltb x z = true.
Proof.
  rewrite !FloatAxioms.ltb_spec. unfold SFltb.
  destruct (SFcompare (Prim2SF x) (Prim2SF y)) as [[]|] eqn:E1; try done.
  destruct (SFcompare (Prim2SF y) (Prim2SF z)) as [[]|] eqn:E2; try done.
  by rewrite (SFcompare_Lt_trans _ _ _ E1 E2).
Qed.

(** The running maximum is the start value or a later, strictly greater
    one, and nothing scanned is greater than it. *)
Lemma maxLoop_greatest (values : Vector) : forall maxIdx maxVal i,
  let r := (maxLoop maxIdx maxVal i values).2 in
  (r = maxVal \/ (r ∈ values /\ PrimFloat.ltb maxVal r = true)) /\
  forall v, v ∈ values -> PrimFloat.ltb r v = false.
Proof.
  induction values as [|v rest IH]; intros maxIdx maxVal i; simpl.
  - split; [by left|]. intros v Hv. by apply elem_of_nil in Hv.
  - unfold F64.gtb. destruct (PrimFloat.ltb maxVal v) eqn:Ev.
    + destruct (IH i v (i + 1)%Z) as [Hr Hall].
      set (r := (maxLoop i v (i + 1) rest).2) in *.
      split.
      * right. destruct Hr as [->|[Hin Hlt]].
        -- split; [apply list_elem_of_here|done].
        -- split; [by apply list_elem_of_further|by eapply ltb_trans].
      * intros v' [->|Hv']%elem_of_cons; [|by apply Hall].
        destruct Hr as [->|[_ Hlt]]; [apply ltb_irrefl|by apply ltb_asym].
    + destruct (IH maxIdx maxVal (i + 1)%Z) as [Hr Hall].
      set (r := (maxLoop maxIdx maxVal (i + 1) rest).2) in *.
      split.
      * destruct Hr as [->|[Hin Hlt]]; [by left|].
        right. split; [by apply list_elem_of_further|done].
      * intros v' [->|Hv']%elem_of_cons; [|by apply Hall].
        destruct Hr as [->|[_ Hlt]]; [done|].
        destruct (PrimFloat.ltb r v) eqn:Erv; [|done].
        by rewrite (ltb_trans _ _ _ Hlt Erv) in Ev.
Qed.

(** [Max] returns one of the values, and none of them is greater. *)
Lemma Max_greatest (values : Vector) (m : float) :
  Max values = Some m ->
  m ∈ values /\ forall v, v ∈ values -> PrimFloat.ltb m v = false.
Proof.
  destruct values as [|v0 rest]; [done|]. simpl. intros [= <-].
  destruct (maxLoop_greatest rest 0 v0 1) as [Hr Hall].
  set (r := (maxLoop 0 v0 1 rest).2) in *. split.
  - destruct Hr as [->|[Hin _]];
      [apply list_elem_of_here|by apply list_elem_of_further].
  - intros v [->|Hv]%elem_of_cons; [|by apply Hall].
    destruct Hr as [->|[_ Hlt]]; [apply ltb_irrefl|by apply ltb_asym].
Qed.

End MaxFacts.

(* ================================================================== *)
(** * The game: directions, movement, danger *)
(* ================================================================== *)

Section GameFacts.
Import ai.
Local Open Scope Z_scope.

Lemma wrap64_mod (z : Z) : GoInt.wrap64 z mod 2 ^ 64 = z mod 2 ^ 64.
Proof.
  unfold GoInt.wrap64.
  rewrite <- (Zminus_mod_idemp_l), Z.mod_mod by lia.
  rewrite Zminus_mod_idemp_l. f_equal. lia.
Qed.

Lemma wrap64_congr (a b : Z) :
  a mod 2 ^ 64 = b mod 2 ^ 64 -> GoInt.wrap64 a = GoInt.wrap64 b.
Proof.
  intros Hab. unfold GoInt.wrap64.
  rewrite <- (Zplus_mod_idemp_l a), <- (Zplus_mod_idemp_l b), Hab. done.
Qed.

Lemma wrap64_add_l (a b : Z) :
  GoInt.wrap64 (GoInt.wrap64 a + b) = GoInt.wrap64 (a + b).
Proof.
  apply wrap64_congr.
  by rewrite <- Zplus_mod_idemp_l, wrap64_mod, Zplus_mod_idemp_l.
Qed.

Lemma wrap64_add_r (a b : Z) :
  GoInt.wrap64 (a + GoInt.wrap64 b) = GoInt.wrap64 (a + b).
Proof. rewrite (Z.add_comm a), wrap64_add_l. f_equal. lia. Qed.

Lemma wrap64_range (z : Z) : GoInt.in_range (GoInt.wrap64 z).
Proof.
  unfold GoInt.in_range, GoInt.wrap64.
  pose proof (Z.mod_pos_bound (z + 2 ^ 63) (2 ^ 64)). lia.
Qed.

(** A step of one cell never lands on the cell it starts from. *)
Lemma wrap64_step (x d : Z) : d = 1 \/ d = -1 -> GoInt.wrap64 (x + d) <> x.
Proof.
  intros Hd Heq. unfold GoInt.wrap64 in Heq.
  pose proof (Z.mod_pos_bound (x + d + 2 ^ 63) (2 ^ 64)) as Hb.
  pose proof (Z.div_mod (x + d + 2 ^ 63) (2 ^ 64)) as Hq.
  assert (Hm : (x + d + 2 ^ 63) mod 2 ^ 64 = x + 2 ^ 63) by lia.
  rewrite Hm in Hq.
  assert (2 ^ 64 * ((x + d + 2 ^ 63) / 2 ^ 64) = d) by lia.
  destruct Hd; subst d; lia.
Qed.

Lemma Equals_eq (p q : game.Position) : game.Equals p q = true <-> p = q.
Proof.
  destruct p as [px py], q as [qx qy]. unfold game.Equals. simpl.
  rewrite andb_true_iff, !Z.eqb_eq. split; [intros [-> ->]|intros [= -> ->]]; done.
Qed.

Lemma ContainsPosition_elem (s : game.Snake.t) pos (excludeHead : bool) :
  game.ContainsPosition s pos excludeHead = true <->
  pos ∈ drop (if excludeHead then 1 else 0)%nat (game.Snake.Body s).
Proof.
  unfold game.ContainsPosition. rewrite existsb_exists. split.
  - intros (seg & Hin & Heq). apply Equals_eq in Heq as ->.
    by apply list_elem_of_In.
  - intros Hin. exists pos. split; [by apply list_elem_of_In|by apply Equals_eq].
Qed.

Lemma cell_ahead_moves (p : game.Position) (d : game.Direction) :
  cell_ahead p d <> p.
Proof.
  destruct p as [px py].
  destruct d; unfold cell_ahead, game.Add, GoInt.add; simpl; intros [= Hx Hy].
  - by apply (wrap64_step py (-1)); [right|].
  - by apply (wrap64_step py 1); [left|].
  - by apply (wrap64_step px (-1)); [right|].
  - by apply (wrap64_step px 1); [left|].
Qed.

Lemma Direction_eqb_eq (d1 d2 : game.Direction) :
  game.Direction_eqb d1 d2 = true <-> d1 = d2.
Proof. destruct d1, d2; unfold game.Direction_eqb; simpl; split; done. Qed.

(** X1: whatever the action (the three known ones or any other integer),
    [ActionToDirection] yields the current direction or a quarter turn of
    it, never the opposite one, so [IsValidAction] accepts it; turning
    left then right, or right then left, restores the direction, two
    turns the same way reverse it, and left is three times right. *)
Theorem ActionToDirection_never_reverses (d : game.Direction) (action : Action) :
  game.IsValidAction d (ActionToDirection d action) = true /\
  ActionToDirection d action <> game.Opposite d /\
  (ActionToDirection d action = d \/
   ActionToDirection d action = game.TurnLeft d \/
   ActionToDirection d action = game.TurnRight d) /\
  game.TurnRight (game.TurnLeft d) = d /\
  game.TurnLeft (game.TurnRight d) = d /\
  game.TurnLeft (game.TurnLeft d) = game.Opposite d /\
  game.TurnRight (game.TurnRight d) = game.Opposite d /\
  game.TurnLeft d = game.TurnRight (game.TurnRight (game.TurnRight d)).
Proof.
  assert (Hcases : ActionToDirection d action = d \/
                   ActionToDirection d action = game.TurnLeft d \/
                   ActionToDirection d action = game.TurnRight d).
  { unfold ActionToDirection.
    destruct (action =? GoStraight); [by left|].
    destruct (action =? TurnLeft); [by right; left|].
    destruct (action =? TurnRight); [by right; right|by left]. }
  split; [|split; [|split; [exact Hcases|by destruct d]]].
  - destruct Hcases as [->|[->| ->]]; by destruct d.
  - destruct Hcases as [->|[->| ->]]; by destruct d.
Qed.

Lemma effective_not_opposite (s : game.Snake.t) (dir : game.Direction) :
  effective s dir <> game.Opposite (game.Snake.Direction s).
Proof.
  unfold effective. destruct (game.Direction_eqb _ _) eqn:E.
  - by destruct (game.Snake.Direction s).
  - intros Heq. apply Direction_eqb_eq in Heq. congruence.
Qed.

Lemma Move_alive (s : game.Snake.t) (dir : game.Direction) (grow : bool)
    (head : game.Position) :
  game.Snake.Alive s = true -> game.Head s = Some head ->
  game.Move s dir grow =
    Some {| game.Snake.ID := game.Snake.ID s;
            game.Snake.Body :=
              cell_ahead head (effective s dir) ::
                (if grow then game.Snake.Body s
                 else take (length (game.Snake.Body s) - 1) (game.Snake.Body s));
            game.Snake.Direction := effective s dir;
            game.Snake.Alive := true;
            game.Snake.Score := game.Snake.Score s;
            game.Snake.Grew := grow |}.
Proof.
  intros Halive Hhead. unfold game.Move. rewrite Halive. simpl.
  fold (effective s dir).
  rewrite (NextHead_cell_ahead s head _ Hhead). simpl.
  unfold game.Head in Hhead.
  destruct (game.Snake.Body s) as [|h body] eqn:Hb; [done|].
  destruct grow; simpl; [done|]. by rewrite Nat.sub_0_r.
Qed.

(** X2: [Move] leaves a dead snake as it is and panics on a living snake
    without a body. A living snake moves one cell in the direction asked
    for, or straight on when that direction is the opposite of its
    facing: the new head comes first, the former segments follow in
    order, the last one dropped unless the snake grows, so the length
    stays or grows by one; identifier, score and liveness are kept. *)
Theorem Move_shifts_body (s : game.Snake.t) (dir : game.Direction) (grow : bool) :
  (game.Snake.Alive s = false -> game.Move s dir grow = Some s) /\
  (game.Snake.Alive s = true -> game.Snake.Body s = [] ->
   game.Move s dir grow = None) /\
  (game.Snake.Alive s = true ->
   forall head, game.Head s = Some head ->
   let d := if game.Direction_eqb dir (game.Opposite (game.Snake.Direction s))
            then game.Snake.Direction s else dir in
   exists s', game.Move s dir grow = Some s' /\
     game.Head s' = Some (cell_ahead head d) /\
     game.Snake.Body s' =
       cell_ahead head d ::
         (if grow then game.Snake.Body s
          else take (length (game.Snake.Body s) - 1) (game.Snake.Body s)) /\
     length (game.Snake.Body s') =
       (if grow then S (length (game.Snake.Body s))
        else length (game.Snake.Body s)) /\
     game.Snake.Direction s' = d /\
     d <> game.Opposite (game.Snake.Direction s) /\
     game.Snake.Alive s' = true /\
     game.Snake.Grew s' = grow /\
     game.Snake.ID s' = game.Snake.ID s /\
     game.Snake.Score s' = game.Snake.Score s).
Proof.
  split; [|split].
  - intros Hdead. unfold game.Move. by rewrite Hdead.
  - intros Halive Hbody. unfold game.Move, game.NextHead, game.Head.
    by rewrite Halive, Hbody.
  - intros Halive head Hhead d. fold (effective s dir) in d. subst d.
    rewrite (Move_alive s dir grow head Halive Hhead).
    eexists. split; [reflexivity|]. simpl.
    split; [done|]. split; [done|]. split.
    { unfold game.Head in Hhead.
      destruct (game.Snake.Body s) as [|h body]; [done|].
      destruct grow; simpl; [done|]. rewrite length_take. simpl. lia. }
    split; [done|]. split; [apply effective_not_opposite|done].
Qed.

End GameFacts.

Section DangerFacts.
Import ai.
Local Open Scope Z_scope.

Lemma CheckWallCollision_off_board pos width height :
  game.CheckWallCollision pos width height = true <-> off_board pos width height.
Proof.
  unfold game.CheckWallCollision, off_board.
  rewrite !orb_true_iff, !Z.ltb_lt, !Z.leb_le. tauto.
Qed.

(** X3: [IsDangerPosition] answers true for a cell outside the board
    whatever the snake index, even an invalid one; for a cell on the board
    it panics unless the index is 0 or 1, and then answers true exactly
    when the cell is a segment of the snake's own body other than its head
    (whether or not the snake is alive), or the opponent is alive and the
    cell is any of its segments, head included. *)
Theorem IsDangerPosition_characterised (pos : game.Position) (snakeID : Z)
    (snakes : game.Snake.t * game.Snake.t) (width height : Z) :
  (off_board pos width height ->
   game.IsDangerPosition pos snakeID snakes width height = Some true) /\
  (~ off_board pos width height -> snakeID <> 0 -> snakeID <> 1 ->
   game.IsDangerPosition pos snakeID snakes width height = None) /\
  (snakeID = 0 \/ snakeID = 1 ->
   exists b, game.IsDangerPosition pos snakeID snakes width height = Some b /\
     (b = true <->
      off_board pos width height \/
      pos ∈ drop 1 (game.Snake.Body (own snakes snakeID)) \/
      (game.Snake.Alive (opponent snakes snakeID) = true /\
       pos ∈ game.Snake.Body (opponent snakes snakeID)))).
Proof.
  unfold game.IsDangerPosition.
  pose proof (CheckWallCollision_off_board pos width height) as Hwall.
  split; [|split].
  - intros Hoff. apply Hwall in Hoff. by rewrite Hoff.
  - intros Hon H0 H1.
    destruct (game.CheckWallCollision pos width height); [tauto|].
    unfold game.snake_at.
    destruct (Z.eqb_spec snakeID 0); [done|].
    destruct (Z.eqb_spec snakeID 1); done.
  - intros Hid.
    assert (Hsn : game.snake_at snakes snakeID = Some (own snakes snakeID) /\
                  game.snake_at snakes (GoInt.sub 1 snakeID)
                    = Some (opponent snakes snakeID)).
    { destruct Hid as [-> | ->]; done. }
    destruct Hsn as [-> ->]. simpl.
    pose proof (ContainsPosition_elem (own snakes snakeID) pos true) as Hown.
    pose proof (ContainsPosition_elem (opponent snakes snakeID) pos false) as Hopp.
    simpl in Hown, Hopp. rewrite drop_0 in Hopp.
    destruct (game.CheckWallCollision pos width height).
    { eexists. split; [done|]. split; [|done]. intros _. left. by apply Hwall. }
    destruct (game.ContainsPosition (own snakes snakeID) pos true).
    { eexists. split; [done|]. split; [|done]. intros _. right; left. by apply Hown. }
    destruct (game.Snake.Alive (opponent snakes snakeID)); simpl.
    + destruct (game.ContainsPosition (opponent snakes snakeID) pos false).
      * eexists. split; [done|]. split; [|done]. intros _. right; right.
        split; [done|]. by apply Hopp.
      * eexists. split; [done|]. split; [done|].
        intros [Hoff|[Hin|[_ Hin]]].
        -- by apply Hwall in Hoff.
        -- by apply Hown in Hin.
        -- by apply Hopp in Hin.
    + eexists. split; [done|]. split; [done|].
      intros [Hoff|[Hin|[? _]]]; [by apply Hwall in Hoff|by apply Hown in Hin|done].
Qed.

Lemma effective_ActionToDirection (s : game.Snake.t) (action : Action) :
  effective s (ActionToDirection (game.Snake.Direction s) action)
    = ActionToDirection (game.Snake.Direction s) action.
Proof.
  unfold effective, ActionToDirection.
  destruct (action =? GoStraight); [by destruct (game.Snake.Direction s)|].
  destruct (action =? TurnLeft); [by destruct (game.Snake.Direction s)|].
  destruct (action =? TurnRight); by destruct (game.Snake.Direction s).
Qed.

(** X4: a clear danger flag is sound for the snake's own move. If the
    snake is alive and [isDanger] answers false for the cell ahead in the
    direction of an action, then [Move] in that direction (growing or
    not) puts the head on that cell, the cell is on the board, the moved
    snake does not collide with itself, and the cell is no segment of the
    opponent as it stands before the move if the opponent is alive. *)
Theorem clear_flag_means_safe_move (state : game.GameState.t) (snakeID : Z)
    (s : game.Snake.t) (head : game.Position) (action : Action) (grow : bool) :
  game.snake_at (game.GameState.Snakes state) snakeID = Some s ->
  game.Snake.Alive s = true ->
  game.Head s = Some head ->
  let d := ActionToDirection (game.Snake.Direction s) action in
  isDanger (cell_ahead head d) snakeID state = Some false ->
  exists s', game.Move s d grow = Some s' /\
    game.Head s' = Some (cell_ahead head d) /\
    game.CheckWallCollision (cell_ahead head d)
      (game.GameState.Width state) (game.GameState.Height state) = false /\
    game.CheckSelfCollision s' = Some false /\
    (game.Snake.Alive (opponent (game.GameState.Snakes state) snakeID) = true ->
     cell_ahead head d ∉
       game.Snake.Body (opponent (game.GameState.Snakes state) snakeID)).
Proof.
  intros Hs Halive Hhead d Hflag.
  assert (Hid : snakeID = 0 \/ snakeID = 1).
  { unfold game.snake_at in Hs.
    destruct (Z.eqb_spec snakeID 0); [by left|].
    destruct (Z.eqb_spec snakeID 1); [by right|done]. }
  assert (Hown : own (game.GameState.Snakes state) snakeID = s).
  { unfold game.snake_at, own in *.
    destruct Hid as [-> | ->]; simpl in *; congruence. }
  assert (Hd : effective s d = d) by apply effective_ActionToDirection.
  pose proof (ContainsPosition_elem s (cell_ahead head d) true) as Hc.
  pose proof (ContainsPosition_elem
                (opponent (game.GameState.Snakes state) snakeID)
                (cell_ahead head d) false) as Hopp.
  simpl in Hc, Hopp. rewrite drop_0 in Hopp.
  assert (Hfacts :
    game.CheckWallCollision (cell_ahead head d)
      (game.GameState.Width state) (game.GameState.Height state) = false /\
    game.ContainsPosition s (cell_ahead head d) true = false /\
    (game.Snake.Alive (opponent (game.GameState.Snakes state) snakeID) = true ->
     game.ContainsPosition (opponent (game.GameState.Snakes state) snakeID)
       (cell_ahead head d) false = false)).
  { unfold isDanger, game.IsDangerPosition in Hflag.
    destruct (game.CheckWallCollision _ _ _); [done|].
    rewrite Hs in Hflag. simpl in Hflag.
    destruct (game.ContainsPosition s _ true); [done|].
    assert (Ho : game.snake_at (game.GameState.Snakes state) (GoInt.sub 1 snakeID)
                 = Some (opponent (game.GameState.Snakes state) snakeID)).
    { destruct Hid as [-> | ->]; done. }
    rewrite Ho in Hflag. simpl in Hflag.
    destruct (game.Snake.Alive (opponent _ _)); simpl in Hflag.
    - destruct (game.ContainsPosition (opponent _ _) _ false); [done|]. done.
    - done. }
  destruct Hfacts as (Hwall & Hself & Hother).
  assert (Hnotin : cell_ahead head d ∉ game.Snake.Body s).
  { unfold game.Head in Hhead.
    destruct (game.Snake.Body s) as [|h body] eqn:Hb; [done|].
    injection Hhead as ->. simpl in Hc.
    intros [Heq|Hin]%elem_of_cons.
    - by apply cell_ahead_moves in Heq.
    - apply Hc in Hin. congruence. }
  rewrite (Move_alive s d grow head Halive Hhead), Hd.
  eexists. split; [reflexivity|]. split; [done|]. split; [exact Hwall|].
  split.
  - unfold game.CheckSelfCollision. simpl.
    match goal with |- context [(?n <? 2)%nat] => destruct (n <? 2)%nat end;
      [done|].
    simpl. f_equal. apply not_true_is_false. intros Hin.
    apply ContainsPosition_elem in Hin. simpl in Hin. rewrite drop_0 in Hin.
    apply Hnotin. destruct grow; [exact Hin|].
    eapply elem_of_take in Hin as (i & Hi & _).
    by eapply list_elem_of_lookup_2.
  - intros Ha Hin. apply Hopp in Hin. rewrite (Hother Ha) in Hin. done.
Qed.

Lemma ManhattanDistance_abs_loose (p q : game.Position) :
  - 2 ^ 61 <= game.X p <= 2 ^ 61 -> - 2 ^ 61 <= game.Y p <= 2 ^ 61 ->
  near_origin q ->
  game.ManhattanDistance p q
    = Z.abs (game.X p - game.X q) + Z.abs (game.Y p - game.Y q).
Proof.
  intros Hpx Hpy [Hqx Hqy]. unfold game.ManhattanDistance.
  unfold GoInt.sub, GoInt.neg, GoInt.add.
  assert (Hlim : 2 ^ 61 * 4 = 2 ^ 63) by done.
  rewrite (wrap64_in_range (game.X p - game.X q)) by (unfold GoInt.in_range; lia).
  rewrite (wrap64_in_range (game.Y p - game.Y q)) by (unfold GoInt.in_range; lia).
  rewrite (wrap64_in_range (- (game.X p - game.X q))) by (unfold GoInt.in_range; lia).
  rewrite (wrap64_in_range (- (game.Y p - game.Y q))) by (unfold GoInt.in_range; lia).
  destruct (Z.ltb_spec (game.X p - game.X q) 0);
    destruct (Z.ltb_spec (game.Y p - game.Y q) 0);
    rewrite wrap64_in_range by (unfold GoInt.in_range; lia); lia.
Qed.

Lemma ManhattanDistance_abs (p q : game.Position) :
  near_origin p -> near_origin q ->
  game.ManhattanDistance p q
    = Z.abs (game.X p - game.X q) + Z.abs (game.Y p - game.Y q).
Proof.
  intros [Hpx Hpy] Hq. apply ManhattanDistance_abs_loose; [lia|lia|done].
Qed.

(** X5: on coordinates far from the ends of the [int] range, as board
    coordinates are, [ManhattanDistance] is the sum of the absolute
    coordinate differences: it is never negative, symmetric, zero exactly
    for equal positions, and satisfies the triangle inequality. *)
Theorem ManhattanDistance_is_a_metric (p q : game.Position) :
  near_origin p -> near_origin q ->
  game.ManhattanDistance p q
    = Z.abs (game.X p - game.X q) + Z.abs (game.Y p - game.Y q) /\
  0 <= game.ManhattanDistance p q /\
  game.ManhattanDistance p q = game.ManhattanDistance q p /\
  (game.ManhattanDistance p q = 0 <-> p = q) /\
  (forall r, near_origin r ->
     game.ManhattanDistance p q
       <= game.ManhattanDistance p r + game.ManhattanDistance r q).
Proof.
  intros Hp Hq.
  rewrite (ManhattanDistance_abs p q Hp Hq), (ManhattanDistance_abs q p Hq Hp).
  split; [done|]. split; [lia|]. split; [lia|]. split.
  - destruct p as [px py], q as [qx qy]. simpl. split.
    + intros Hz. f_equal; lia.
    + intros [= -> ->]. lia.
  - intros r Hr.
    rewrite (ManhattanDistance_abs p r Hp Hr), (ManhattanDistance_abs r q Hr Hq).
    lia.
Qed.

Lemma cell_ahead_near (p : game.Position) (d : game.Direction) :
  near_origin p ->
  exists dx dy, (dx = 0 /\ (dy = 1 \/ dy = -1) \/ dy = 0 /\ (dx = 1 \/ dx = -1)) /\
    game.X (cell_ahead p d) = game.X p + dx /\
    game.Y (cell_ahead p d) = game.Y p + dy.
Proof.
  intros [Hx Hy]. assert (Hlim : 2 ^ 61 * 4 = 2 ^ 63) by done.
  destruct d; unfold cell_ahead, game.Add, GoInt.add; simpl;
    rewrite !wrap64_in_range by (unfold GoInt.in_range; lia).
  - exists 0, (-1). lia.
  - exists 0, 1. lia.
  - exists (-1), 0. lia.
  - exists 1, 0. lia.
Qed.

(** X6: the shaping reward of a move is never zero while the food stays
    where it is. If a living snake moves (by [Move], growing or not) and
    the food is active at the same cell before and after, with head and
    food far from the ends of the [int] range, then the distance to the
    food changes by exactly one and [CalculateShapingReward] is 0.1 when
    it shrinks and -0.1 when it grows. *)
Theorem CalculateShapingReward_of_a_move (prevState newState : game.GameState.t)
    (snakeID : Z) (s s' : game.Snake.t) (head : game.Position)
    (dir : game.Direction) (grow : bool) :
  game.snake_at (game.GameState.Snakes prevState) snakeID = Some s ->
  game.snake_at (game.GameState.Snakes newState) snakeID = Some s' ->
  game.Snake.Alive s = true ->
  game.Head s = Some head ->
  game.Move s dir grow = Some s' ->
  game.Food.Active (game.GameState.Food prevState) = true ->
  game.Food.Active (game.GameState.Food newState) = true ->
  game.Food.Position (game.GameState.Food newState)
    = game.Food.Position (game.GameState.Food prevState) ->
  near_origin head ->
  near_origin (game.Food.Position (game.GameState.Food prevState)) ->
  let food := game.Food.Position (game.GameState.Food prevState) in
  let before := game.ManhattanDistance head food in
  let after := game.ManhattanDistance (cell_ahead head (effective s dir)) food in
  (after = before - 1 \/ after = before + 1) /\
  CalculateShapingReward prevState newState snakeID
    = Some (if after <? before then 0.1%float else (-0.1)%float).
Proof.
  intros Hs Hs' Halive Hhead Hmove Hf Hf' Hfood Hnear Hnearf food before after.
  rewrite (Move_alive s dir grow head Halive Hhead) in Hmove.
  injection Hmove as <-.
  destruct (cell_ahead_near head (effective s dir) Hnear)
    as (dx & dy & Hd & Hx & Hy).
  assert (Hstep : after = before - 1 \/ after = before + 1).
  { subst before after. destruct Hnear as [Hx0 Hy0].
    rewrite (ManhattanDistance_abs_loose (cell_ahead head (effective s dir)) food)
      by (done || lia).
    rewrite (ManhattanDistance_abs head food) by done.
    rewrite Hx, Hy. lia. }
  split; [exact Hstep|].
  unfold CalculateShapingReward. rewrite Hs, Hs'. simpl.
  rewrite Halive, Hf, Hf', Hhead, Hfood. simpl.
  fold food. fold before. fold after.
  destruct (Z.ltb_spec after before); [done|].
  destruct (Z.ltb_spec before after); [done|lia].
Qed.

End DangerFacts.

Section NewSnakeFacts.
Local Open Scope Z_scope.

Lemma NewSnake_fill_spec (head : game.Position) (dx dy : Z) (count i : nat)
    (body : list game.Position) :
  (i + count = length body)%nat ->
  exists body',
    game.NewSnake_fill head dx dy count (Z.of_nat i) body = Some body' /\
    length body' = length body /\
    (forall k, (k < i)%nat -> body' !! k = body !! k) /\
    (forall k, (i <= k < length body)%nat ->
       body' !! k =
         Some {| game.X := GoInt.add (game.X head) (GoInt.mul dx (Z.of_nat k));
                 game.Y := GoInt.add (game.Y head) (GoInt.mul dy (Z.of_nat k)) |}).
Proof.
  revert i body. induction count as [|count IH]; intros i body Hlen.
  - exists body. simpl. split; [done|]. split; [done|]. split; [done|]. lia.
  - simpl. unfold GoInt.index.
    destruct (Z.ltb_spec (Z.of_nat i) 0) as [|_]; [lia|].
    rewrite Nat2Z.id.
    destruct (lookup_lt_is_Some_2 body i) as [x ->]; [lia|]. simpl.
    replace (Z.of_nat i + 1) with (Z.of_nat (S i)) by lia.
    destruct (IH (S i) (<[i:=
        {| game.X := GoInt.add (game.X head) (GoInt.mul dx (Z.of_nat i));
           game.Y := GoInt.add (game.Y head) (GoInt.mul dy (Z.of_nat i)) |}]> body))
      as (body' & -> & Hl & Hlow & Hhigh).
    { rewrite length_insert. lia. }
    rewrite length_insert in Hl, Hhigh.
    exists body'. split; [done|]. split; [done|]. split.
    + intros k Hk. rewrite Hlow by lia. apply list_lookup_insert_ne. lia.
    + intros k Hk. destruct (decide (k = i)) as [->|Hne].
      * rewrite Hlow by lia. apply list_lookup_insert_eq. lia.
      * apply Hhigh. lia.
Qed.

(** X7: [NewSnake] panics for a length of zero or less. For a positive
    length it returns a living snake with score 0 facing [dir], whose
    body has that many segments with [head] first; when the head's
    coordinates are in the [int] range, every segment is the cell
    directly behind the one before it, so the body is a straight line
    trailing away from the facing direction. *)
Theorem NewSnake_lays_body_behind_head (id : Z) (head : game.Position)
    (dir : game.Direction) (len : Z) :
  (len <= 0 -> game.NewSnake id head dir len = None) /\
  (0 < len ->
   exists s, game.NewSnake id head dir len = Some s /\
     game.Length s = len /\
     game.Head s = Some head /\
     game.Snake.ID s = id /\
     game.Snake.Direction s = dir /\
     game.Snake.Alive s = true /\
     game.Snake.Score s = 0 /\
     game.Snake.Grew s = false /\
     (GoInt.in_range (game.X head) -> GoInt.in_range (game.Y head) ->
      forall k p q, game.Snake.Body s !! k = Some p ->
        game.Snake.Body s !! S k = Some q ->
        q = cell_behind p dir /\ cell_ahead q dir = p)).
Proof.
  split.
  - intros Hlen. unfold game.NewSnake, GoInt.make.
    destruct (Z.ltb_spec len 0); [done|].
    assert (len = 0) as -> by lia. done.
  - intros Hlen. unfold game.NewSnake, GoInt.make.
    destruct (Z.ltb_spec len 0); [lia|]. simpl.
    destruct (Z.to_nat len) as [|n] eqn:Hn; [lia|]. simpl.
    replace (Z.to_nat (len - 1)) with n by lia.
    set (body0 := head :: replicate n {| game.X := 0; game.Y := 0 |}).
    set (dxy := match dir with
                | game.Up => (0, 1) | game.Down => (0, -1)
                | game.Left => (1, 0) | game.Right => (-1, 0) end).
    destruct dxy as [dx dy] eqn:Hdxy.
    destruct (NewSnake_fill_spec head dx dy n 1 body0)
      as (body & Hfill & Hl & Hlow & Hhigh).
    { subst body0. simpl. by rewrite length_replicate. }
    change (Z.of_nat 1) with 1 in Hfill. rewrite Hfill. simpl.
    eexists. split; [reflexivity|]. simpl.
    assert (Hlen0 : length body0 = S n).
    { subst body0. simpl. by rewrite length_replicate. }
    split; [unfold game.Length; simpl; lia|].
    split; [unfold game.Head; simpl; by rewrite Hlow by lia|].
    do 5 (split; [done|]).
    intros Hx Hy.
    assert (Hseg : forall k p, body !! k = Some p ->
              p = {| game.X := GoInt.wrap64 (game.X head + dx * Z.of_nat k);
                     game.Y := GoInt.wrap64 (game.Y head + dy * Z.of_nat k) |}).
    { intros k p Hk.
      assert (k < S n)%nat by (apply lookup_lt_Some in Hk; lia).
      destruct k as [|k].
      - rewrite Hlow in Hk by lia. subst body0. simpl in Hk.
        injection Hk as <-. rewrite !Z.mul_0_r, !Z.add_0_r.
        rewrite !wrap64_in_range by done. by destruct head.
      - rewrite Hhigh in Hk by lia. injection Hk as <-.
        unfold GoInt.add, GoInt.mul. by rewrite !wrap64_add_r. }
    intros k p q Hp Hq. apply Hseg in Hp, Hq. subst p q.
    unfold cell_behind.
    subst dxy. destruct dir; injection Hdxy as <- <-;
      unfold cell_ahead, game.Opposite, game.Add, GoInt.add; simpl;
      rewrite !wrap64_add_l; split; f_equal; f_equal; lia.
Qed.

End NewSnakeFacts.

(* ================================================================== *)
(** * The network: construction, forward pass, copies *)
(* ================================================================== *)

Section NetworkLaws.
Import ai.
Context `{rand.API}.

Lemma xavierInit_Some_inv fanIn fanOut g r :
  xavierInit fanIn fanOut g = Some r ->
  (0 <= fanIn)%Z /\ (fanIn = 0 \/ 0 <= fanOut)%Z.
Proof.
  unfold xavierInit, GoInt.make.
  destruct (Z.ltb_spec fanIn 0); [done|]. simpl.
  destruct (Z.to_nat fanIn) as [|k] eqn:Hk.
  - intros _. split; [done|]. left. lia.
  - simpl. unfold GoInt.make. destruct (Z.ltb_spec fanOut 0); [done|].
    intros _. split; [done|]. by right.
Qed.

Lemma NewQNetwork_dims inputSize hiddenSize1 hiddenSize2 outputSize lr seed
    (n : QNetwork.t) :
  NewQNetwork inputSize hiddenSize1 hiddenSize2 outputSize lr seed = Some n ->
  QNetwork.InputSize n = inputSize /\
  QNetwork.HiddenSize1 n = hiddenSize1 /\
  QNetwork.HiddenSize2 n = hiddenSize2 /\
  QNetwork.OutputSize n = outputSize /\
  QNetwork.LearningRate n = lr.
Proof.
  unfold NewQNetwork. intros Hn.
  destruct (xavierInit inputSize _ _) as [[w1 g1]|]; simpl in Hn; [|done].
  destruct (GoInt.make F64.zero hiddenSize1); simpl in Hn; [|done].
  destruct (xavierInit hiddenSize1 _ _) as [[w2 g2]|]; simpl in Hn; [|done].
  destruct (GoInt.make F64.zero hiddenSize2); simpl in Hn; [|done].
  destruct (xavierInit hiddenSize2 _ _) as [[w3 g3]|]; simpl in Hn; [|done].
  destruct (GoInt.make F64.zero outputSize); simpl in Hn; [|done].
  by injection Hn as <-.
Qed.

Lemma CopyFrom_dims (n other n' : QNetwork.t) :
  CopyFrom n other = Some n' ->
  QNetwork.InputSize n' = QNetwork.InputSize n /\
  QNetwork.HiddenSize1 n' = QNetwork.HiddenSize1 n /\
  QNetwork.HiddenSize2 n' = QNetwork.HiddenSize2 n /\
  QNetwork.OutputSize n' = QNetwork.OutputSize n /\
  QNetwork.LearningRate n' = QNetwork.LearningRate n.
Proof.
  unfold CopyFrom. intros Hc.
  destruct (copyMatrix (QNetwork.W1 n) _); simpl in Hc; [|done].
  destruct (copyMatrix (QNetwork.W2 n) _); simpl in Hc; [|done].
  destruct (copyMatrix (QNetwork.W3 n) _); simpl in Hc; [|done].
  by injection Hc as <-.
Qed.

Lemma Clone_dims (n c : QNetwork.t) :
  Clone n = Some c ->
  QNetwork.InputSize c = QNetwork.InputSize n /\
  QNetwork.HiddenSize1 c = QNetwork.HiddenSize1 n /\
  QNetwork.HiddenSize2 c = QNetwork.HiddenSize2 n /\
  QNetwork.OutputSize c = QNetwork.OutputSize n /\
  QNetwork.LearningRate c = QNetwork.LearningRate n.
Proof.
  unfold Clone. intros Hc.
  destruct (NewQNetwork _ _ _ _ _ 0) as [fresh|] eqn:Ef; simpl in Hc; [|done].
  apply NewQNetwork_dims in Ef as (Fi & F1 & F2 & Fo & Fl).
  apply CopyFrom_dims in Hc as (Ci & C1 & C2 & Co & Cl).
  repeat split; congruence.
Qed.

Lemma NewQNetwork_inv inputSize hiddenSize1 hiddenSize2 outputSize lr seed
    (n : QNetwork.t) :
  NewQNetwork inputSize hiddenSize1 hiddenSize2 outputSize lr seed = Some n ->
  (0 <= inputSize /\ 0 <= hiddenSize1 /\ 0 <= hiddenSize2 /\ 0 <= outputSize)%Z /\
  QNetwork.B1 n = replicate (Z.to_nat hiddenSize1) 0%float /\
  QNetwork.B2 n = replicate (Z.to_nat hiddenSize2) 0%float /\
  QNetwork.B3 n = replicate (Z.to_nat outputSize) 0%float.
Proof.
  intros Hn. unfold NewQNetwork in Hn.
  destruct (xavierInit inputSize _ _) as [[w1 g1]|] eqn:E1; [|done].
  simpl in Hn. apply xavierInit_Some_inv in E1 as [Hi _].
  unfold GoInt.make in Hn.
  destruct (Z.ltb_spec hiddenSize1 0); [done|]. simpl in Hn.
  destruct (xavierInit hiddenSize1 _ _) as [[w2 g2]|]; [|done]. simpl in Hn.
  destruct (Z.ltb_spec hiddenSize2 0); [done|]. simpl in Hn.
  destruct (xavierInit hiddenSize2 _ _) as [[w3 g3]|]; [|done]. simpl in Hn.
  destruct (Z.ltb_spec outputSize 0); [done|]. simpl in Hn.
  injection Hn as <-. simpl. done.
Qed.

(** X8: [NewQNetwork] returns a network exactly when none of the four
    layer widths is negative (a width of zero is accepted), and panics
    otherwise. The network it returns has the widths and learning rate
    asked for, weight matrices and bias vectors of exactly those sizes,
    and biases that are all zero. *)
Theorem NewQNetwork_needs_nonnegative_widths
    (inputSize hiddenSize1 hiddenSize2 outputSize : Z) (lr : float) (seed : Z) :
  (is_Some (NewQNetwork inputSize hiddenSize1 hiddenSize2 outputSize lr seed) <->
   (0 <= inputSize /\ 0 <= hiddenSize1 /\ 0 <= hiddenSize2 /\ 0 <= outputSize)%Z) /\
  (forall n,
     NewQNetwork inputSize hiddenSize1 hiddenSize2 outputSize lr seed = Some n ->
     well_shaped n /\
     QNetwork.InputSize n = inputSize /\
     QNetwork.HiddenSize1 n = hiddenSize1 /\
     QNetwork.HiddenSize2 n = hiddenSize2 /\
     QNetwork.OutputSize n = outputSize /\
     QNetwork.LearningRate n = lr /\
     QNetwork.B1 n = replicate (Z.to_nat hiddenSize1) 0%float /\
     QNetwork.B2 n = replicate (Z.to_nat hiddenSize2) 0%float /\
     QNetwork.B3 n = replicate (Z.to_nat outputSize) 0%float).
Proof.
  split.
  - split.
    + intros [n Hn]. by apply NewQNetwork_inv in Hn as [? _].
    + intros (Hi & Hh1 & Hh2 & Ho).
      destruct (NewQNetwork_well_shaped inputSize hiddenSize1 hiddenSize2
                  outputSize lr seed Hi Hh1 Hh2 Ho) as (n & -> & _). done.
  - intros n Hn.
    destruct (NewQNetwork_inv _ _ _ _ _ _ _ Hn) as ((Hi & Hh1 & Hh2 & Ho) & Hb).
    destruct (NewQNetwork_well_shaped inputSize hiddenSize1 hiddenSize2
                outputSize lr seed Hi Hh1 Hh2 Ho) as (n' & Hn' & Hws & Hd).
    rewrite Hn in Hn'. injection Hn' as <-.
    split; [exact Hws|]. destruct Hd as (?&?&?&?&?). done.
Qed.

Lemma linearForward_from_length input (w : Matrix) bias : forall j out,
  linearForward_from input w j bias = Some out -> length out = length bias.
Proof.
  induction bias as [|b bias IH]; intros j out; simpl.
  - by intros [= <-].
  - destruct (sumColumn w j 0 input b); [|done]. simpl.
    destruct (linearForward_from input w (S j) bias) eqn:E; [|done]. simpl.
    intros [= <-]. simpl. f_equal. by eapply IH.
Qed.

Lemma relu_nonneg (x : Vector) :
  Forall (fun v => PrimFloat.ltb v 0 = false) (relu x).
Proof.
  unfold relu. apply Forall_map, Forall_forall. intros v _. simpl.
  unfold F64.gtb. destruct (PrimFloat.ltb 0 v) eqn:E.
  - by apply ltb_asym.
  - done.
Qed.

(** X9: [ForwardWithCache] computes the same output as [Forward] on
    every network and input, and panics exactly when [Forward] does. The
    cache it returns holds the input, the pre-activations of both hidden
    layers and their rectified values; the output has one entry for each
    output bias, and no rectified value is negative. *)
Theorem ForwardWithCache_agrees_with_Forward (n : QNetwork.t) (x : Vector) :
  fst <$> ForwardWithCache n x = Forward n x /\
  (forall out cache, ForwardWithCache n x = Some (out, cache) ->
     input cache = x /\
     linearForward x (QNetwork.W1 n) (QNetwork.B1 n) = Some (z1 cache) /\
     h1 cache = relu (z1 cache) /\
     linearForward (h1 cache) (QNetwork.W2 n) (QNetwork.B2 n) = Some (z2 cache) /\
     h2 cache = relu (z2 cache) /\
     linearForward (h2 cache) (QNetwork.W3 n) (QNetwork.B3 n) = Some out /\
     length (z1 cache) = length (QNetwork.B1 n) /\
     length (z2 cache) = length (QNetwork.B2 n) /\
     length out = length (QNetwork.B3 n) /\
     Forall (fun v => PrimFloat.ltb v 0 = false) (h1 cache) /\
     Forall (fun v => PrimFloat.ltb v 0 = false) (h2 cache)).
Proof.
  unfold ForwardWithCache, Forward.
  destruct (linearForward x _ _) as [a1|] eqn:E1; [|done]. simpl.
  destruct (linearForward (relu a1) _ _) as [a2|] eqn:E2; [|done]. simpl.
  destruct (linearForward (relu a2) _ _) as [a3|] eqn:E3; [|done]. simpl.
  split; [done|]. intros out cache [= <- <-]. simpl.
  unfold linearForward in *.
  repeat split; try done; try apply relu_nonneg;
    by eapply linearForward_from_length.
Qed.

Lemma length_copy {A} (dst src : list A) :
  length (GoInt.copy dst src) = length dst.
Proof.
  unfold GoInt.copy. rewrite length_app, length_take, length_drop. lia.
Qed.

Lemma copyMatrix_lengths (src : Matrix) : forall dst r : Matrix,
  copyMatrix dst src = Some r -> map length r = map length dst.
Proof.
  induction src as [|s src IH]; intros dst r; destruct dst as [|d dst]; simpl;
    try done; try by intros [= <-].
  - destruct (copyMatrix dst src) as [rest|] eqn:E; [|done]. simpl.
    intros [= <-]. simpl. rewrite length_copy. f_equal. by apply IH.
Qed.

Lemma copyMatrix_Some (src : Matrix) : forall dst : Matrix,
  is_Some (copyMatrix dst src) <-> length src <= length dst.
Proof.
  induction src as [|s src IH]; intros dst.
  - destruct dst; simpl; (split; [lia|done]).
  - destruct dst as [|d dst]; simpl.
    + split; [by intros [? ?]|lia].
    + specialize (IH dst). destruct (copyMatrix dst src); simpl.
      * split; [intros _|done]. apply le_n_S, IH. done.
      * split; [by intros [? ?]|]. intros Hle.
        apply Nat.succ_le_mono, IH in Hle. by destruct Hle.
Qed.

(** X10: [CopyFrom] never resizes the network it writes into: every
    matrix row and bias vector keeps its length, and the widths, learning
    rate and generator are untouched, so a source of other sizes is
    copied only in part. It panics exactly when a weight matrix of the
    source has more rows than the destination's; with equal sizes the
    destination ends up holding the source's weights. *)
Theorem CopyFrom_never_resizes (n other : QNetwork.t) :
  (is_Some (CopyFrom n other) <->
   length (QNetwork.W1 other) <= length (QNetwork.W1 n) /\
   length (QNetwork.W2 other) <= length (QNetwork.W2 n) /\
   length (QNetwork.W3 other) <= length (QNetwork.W3 n)) /\
  (forall n', CopyFrom n other = Some n' ->
     shape_of n' = shape_of n /\
     QNetwork.InputSize n' = QNetwork.InputSize n /\
     QNetwork.HiddenSize1 n' = QNetwork.HiddenSize1 n /\
     QNetwork.HiddenSize2 n' = QNetwork.HiddenSize2 n /\
     QNetwork.OutputSize n' = QNetwork.OutputSize n /\
     QNetwork.LearningRate n' = QNetwork.LearningRate n /\
     QNetwork.rng n' = QNetwork.rng n /\
     (shape_of n = shape_of other -> weights_of n' = weights_of other)).
Proof.
  pose proof (copyMatrix_Some (QNetwork.W1 other) (QNetwork.W1 n)) as H1.
  pose proof (copyMatrix_Some (QNetwork.W2 other) (QNetwork.W2 n)) as H2.
  pose proof (copyMatrix_Some (QNetwork.W3 other) (QNetwork.W3 n)) as H3.
  unfold CopyFrom. split.
  - destruct (copyMatrix (QNetwork.W1 n) _) as [w1|]; simpl;
      [|split; [by intros [? ?]|intros (Hl & _); apply H1 in Hl; by destruct Hl]].
    destruct (copyMatrix (QNetwork.W2 n) _) as [w2|]; simpl;
      [|split; [by intros [? ?]|intros (_ & Hl & _); apply H2 in Hl; by destruct Hl]].
    destruct (copyMatrix (QNetwork.W3 n) _) as [w3|]; simpl;
      [|split; [by intros [? ?]|intros (_ & _ & Hl); apply H3 in Hl; by destruct Hl]].
    split; [intros _|done].
    split; [by apply H1|]. split; [by apply H2|by apply H3].
  - intros n'.
    destruct (copyMatrix (QNetwork.W1 n) _) as [w1|] eqn:E1; [|done]. simpl.
    destruct (copyMatrix (QNetwork.W2 n) _) as [w2|] eqn:E2; [|done]. simpl.
    destruct (copyMatrix (QNetwork.W3 n) _) as [w3|] eqn:E3; [|done]. simpl.
    intros [= <-]. simpl. split.
    { unfold shape_of. simpl. rewrite !length_copy.
      by rewrite (copyMatrix_lengths _ _ _ E1), (copyMatrix_lengths _ _ _ E2),
        (copyMatrix_lengths _ _ _ E3). }
    do 6 (split; [done|]).
    intros Hshape. unfold shape_of in Hshape.
    injection Hshape as S1 L1 S2 L2 S3 L3.
    rewrite (copyMatrix_same_shape _ _ S1) in E1.
    rewrite (copyMatrix_same_shape _ _ S2) in E2.
    rewrite (copyMatrix_same_shape _ _ S3) in E3.
    injection E1 as <-. injection E2 as <-. injection E3 as <-.
    unfold weights_of. simpl. by rewrite !copy_same_length.
Qed.

Lemma Forward_weights (n1 n2 : QNetwork.t) (x : Vector) :
  weights_of n1 = weights_of n2 -> Forward n1 x = Forward n2 x.
Proof.
  unfold weights_of, Forward. by intros [= -> -> -> -> -> ->].
Qed.

(** X11: the clone of a well-sized network is a network of the same
    widths and learning rate holding the same weights and biases, so it
    computes the same output as the original on every input, and it is
    well sized itself. *)
Theorem Clone_computes_the_same (n : QNetwork.t) :
  well_shaped n ->
  exists c, Clone n = Some c /\
    weights_of c = weights_of n /\
    well_shaped c /\
    QNetwork.InputSize c = QNetwork.InputSize n /\
    QNetwork.HiddenSize1 c = QNetwork.HiddenSize1 n /\
    QNetwork.HiddenSize2 c = QNetwork.HiddenSize2 n /\
    QNetwork.OutputSize c = QNetwork.OutputSize n /\
    QNetwork.LearningRate c = QNetwork.LearningRate n /\
    forall x, Forward c x = Forward n x.
Proof.
  intros Hws. pose proof Hws as (Hi & Hh1 & Hh2 & Ho & _).
  unfold Clone.
  destruct (NewQNetwork_well_shaped (QNetwork.InputSize n) (QNetwork.HiddenSize1 n)
              (QNetwork.HiddenSize2 n) (QNetwork.OutputSize n)
              (QNetwork.LearningRate n) 0 Hi Hh1 Hh2 Ho)
    as (fresh & -> & Hwf & Di & D1 & D2 & Do & Dl).
  simpl.
  destruct (CopyFrom_same_shape fresh n) as (c & Hc & Hw).
  { by apply well_shaped_same_shape. }
  exists c. split; [exact Hc|]. split; [exact Hw|].
  pose proof (CopyFrom_dims _ _ _ Hc) as Hdims.
  destruct Hdims as (Ci & C1 & C2 & Co & Cl).
  split.
  { unfold well_shaped, weights_of in *.
    injection Hw as -> -> -> -> -> ->.
    rewrite Ci, C1, C2, Co, Di, D1, D2, Do. exact Hws. }
  repeat split; try congruence.
  intros x. by apply Forward_weights.
Qed.

End NetworkLaws.

(* ================================================================== *)
(** * The network: the gradient step *)
(* ================================================================== *)

Section GradientStep.
Import ai.
Context `{rand.API}.
Local Open Scope float_scope.

Lemma at2_set2_eq (w : Matrix) i j v old :
  at2 w i j = Some old -> at2 (set2 w i j v) i j = Some v.
Proof.
  unfold at2, set2. rewrite list_lookup_alter_eq.
  destruct (w !! i) as [row|]; simpl; [|done]. intros Hj.
  apply list_lookup_insert_eq. by eapply lookup_lt_Some.
Qed.

Lemma at2_set2_ne (w : Matrix) i j v i' j' :
  i' <> i \/ j' <> j -> at2 (set2 w i j v) i' j' = at2 w i' j'.
Proof.
  unfold at2, set2. intros Hne.
  destruct (decide (i' = i)) as [->|Hi].
  - rewrite list_lookup_alter_eq. destruct (w !! i) as [row|]; simpl; [|done].
    apply list_lookup_insert_ne. destruct Hne; congruence.
  - by rewrite list_lookup_alter_ne.
Qed.

Lemma gradInputRow_sum (w : Matrix) i row dOutput : forall j acc r,
  w !! i = Some row ->
  gradInputRow w i j dOutput acc = Some r ->
  r = fold_left (fun acc p => acc + p.1 * p.2) (zip (drop j row) dOutput) acc.
Proof.
  induction dOutput as [|d rest IH]; intros j acc r Hrow; simpl.
  - intros [= <-]. by rewrite zip_with_nil_r.
  - unfold at2 at 1. rewrite Hrow. simpl.
    destruct (row !! j) as [wij|] eqn:Hj; [|done]. simpl.
    intros Hr. rewrite (drop_S _ _ _ Hj). simpl. by apply IH.
Qed.

Lemma gradInput_from_sums (w : Matrix) dOutput input : forall i dInput,
  gradInput_from w dOutput i input = Some dInput ->
  length dInput = length input /\
  forall m row, (m < length input)%nat -> w !! (i + m)%nat = Some row ->
    dInput !! m = Some (weighted_sum row dOutput).
Proof.
  induction input as [|x input IH]; intros i dInput; simpl.
  - intros [= <-]. split; [done|]. intros; lia.
  - destruct (gradInputRow w i 0 dOutput 0) as [g|] eqn:Eg; [|done]. simpl.
    destruct (gradInput_from w dOutput (S i) input) as [gs|] eqn:Egs; [|done].
    simpl. intros [= <-]. destruct (IH _ _ Egs) as [Hl Hrows].
    split; [simpl; by rewrite Hl|].
    intros [|m] row Hm Hrow; simpl.
    + rewrite Nat.add_0_r in Hrow. f_equal.
      by rewrite (gradInputRow_sum w i row dOutput 0 0 g Hrow Eg), drop_0.
    + apply Hrows; [lia|]. by rewrite <- Nat.add_succ_comm in Hrow.
Qed.

Lemma updateRow_entries lr x i dOutput : forall j (w w' : Matrix),
  updateRow lr x w i j dOutput = Some w' ->
  (forall i' k, i' <> i \/ (k < j)%nat \/ (j + length dOutput <= k)%nat ->
     at2 w' i' k = at2 w i' k) /\
  (forall k d wik, dOutput !! k = Some d -> at2 w i (j + k) = Some wik ->
     at2 w' i (j + k) = Some (wik - lr * x * d)).
Proof.
  induction dOutput as [|d rest IH]; intros j w w'; simpl.
  - intros [= <-]. split; [done|]. intros k d wik Hk. done.
  - destruct (at2 w i j) as [wij|] eqn:Eij; [|done]. simpl. intros Hu.
    destruct (IH _ _ _ Hu) as [Hout Hin]. split.
    + intros i' k Hk. rewrite Hout by lia. apply at2_set2_ne. lia.
    + intros [|k] d' wik Hd Hw; simpl in Hd.
      * injection Hd as <-. rewrite Nat.add_0_r in *.
        rewrite Hout by lia. rewrite Eij in Hw. injection Hw as <-.
        by eapply at2_set2_eq.
      * rewrite <- Nat.add_succ_comm in *. apply Hin; [done|].
        rewrite at2_set2_ne by lia. done.
Qed.

Lemma updateWeights_from_entries lr dOutput input : forall i (w w' : Matrix),
  updateWeights_from lr w dOutput i input = Some w' ->
  (forall i' k,
     (i' < i)%nat \/ (i + length input <= i')%nat \/ (length dOutput <= k)%nat ->
     at2 w' i' k = at2 w i' k) /\
  (forall m x k d wik, input !! m = Some x -> dOutput !! k = Some d ->
     at2 w (i + m) k = Some wik -> at2 w' (i + m) k = Some (wik - lr * x * d)).
Proof.
  induction input as [|x input IH]; intros i w w'; simpl.
  - intros [= <-]. split; [done|]. intros m x k d wik Hm. done.
  - destruct (updateRow lr x w i 0 dOutput) as [w1|] eqn:E1; [|done]. simpl.
    intros Hu. destruct (updateRow_entries _ _ _ _ _ _ _ E1) as [Rout Rin].
    destruct (IH _ _ _ Hu) as [Hout Hin]. split.
    + intros i' k Hk. rewrite Hout by lia. apply Rout. lia.
    + intros [|m] x' k d wik Hx Hd Hw; simpl in Hx.
      * injection Hx as <-. rewrite Nat.add_0_r in *.
        rewrite Hout by lia. by apply (Rin k d wik).
      * rewrite <- Nat.add_succ_comm in *. eapply Hin; [done..|].
        rewrite Rout by lia. done.
Qed.

Lemma updateBias_from_entries lr dOutput : forall j (b b' : Vector),
  updateBias_from lr b j dOutput = Some b' ->
  (forall k, (k < j)%nat \/ (j + length dOutput <= k)%nat -> b' !! k = b !! k) /\
  (forall k d bk, dOutput !! k = Some d -> b !! (j + k)%nat = Some bk ->
     b' !! (j + k)%nat = Some (bk - lr * d)).
Proof.
  induction dOutput as [|d rest IH]; intros j b b'; simpl.
  - intros [= <-]. split; [done|]. intros k d bk Hk. done.
  - destruct (b !! j) as [bj|] eqn:Ej; [|done]. simpl. intros Hu.
    destruct (IH _ _ _ Hu) as [Hout Hin]. split.
    + intros k Hk. rewrite Hout by lia. apply list_lookup_insert_ne. lia.
    + intros [|k] d' bk Hd Hb; simpl in Hd.
      * injection Hd as <-. rewrite Nat.add_0_r in *.
        rewrite Hout by lia. rewrite Ej in Hb. injection Hb as <-.
        apply list_lookup_insert_eq. by eapply lookup_lt_Some.
      * rewrite <- Nat.add_succ_comm in *. apply Hin; [done|].
        rewrite list_lookup_insert_ne by lia. done.
Qed.

Lemma linearBackward_inv lr input (w : Matrix) (b : Vector) dOutput
    dInput w' b' :
  linearBackward lr input w b dOutput true = Some (dInput, w', b') ->
  gradInput_from w dOutput 0 input = Some dInput /\
  updateWeights_from lr w dOutput 0 input = Some w' /\
  updateBias_from lr b 0 dOutput = Some b'.
Proof.
  unfold linearBackward.
  destruct (gradInput_from w dOutput 0 input) as [g|]; [|done]. simpl.
  destruct (updateWeights_from lr w dOutput 0 input) as [w1|]; [|done]. simpl.
  destruct (updateBias_from lr b 0 dOutput) as [b1|]; [|done]. simpl.
  by intros [= <- <- <-].
Qed.

(** X12: the gradient step of one layer. When [linearBackward] (with
    [update] set) returns, the gradient it returns has one entry for each
    input, the left-to-right sum of [weights[i][j] * dOutput[j]] over the
    weights as they were before the step; every weight [weights[i][j]]
    in the rows of the input and the columns of [dOutput] has become
    [weights[i][j] - lr * input[i] * dOutput[j]], every bias [bias[j]]
    has become [bias[j] - lr * dOutput[j]], and no other entry has
    changed. *)
Theorem linearBackward_is_a_gradient_step (lr : float) (input : Vector)
    (w : Matrix) (b dOutput dInput : Vector) (w' : Matrix) (b' : Vector) :
  linearBackward lr input w b dOutput true = Some (dInput, w', b') ->
  length dInput = length input /\
  (forall i row, (i < length input)%nat -> w !! i = Some row ->
     dInput !! i = Some (weighted_sum row dOutput)) /\
  (forall i j x d wij, input !! i = Some x -> dOutput !! j = Some d ->
     at2 w i j = Some wij -> at2 w' i j = Some (wij - lr * x * d)) /\
  (forall i j, (length input <= i)%nat \/ (length dOutput <= j)%nat ->
     at2 w' i j = at2 w i j) /\
  (forall j d bj, dOutput !! j = Some d -> b !! j = Some bj ->
     b' !! j = Some (bj - lr * d)) /\
  (forall j, (length dOutput <= j)%nat -> b' !! j = b !! j).
Proof.
  intros (Eg & Ew & Eb)%linearBackward_inv.
  destruct (gradInput_from_sums _ _ _ _ _ Eg) as [Hl Hsum].
  destruct (updateWeights_from_entries _ _ _ _ _ _ Ew) as [Wout Win].
  destruct (updateBias_from_entries _ _ _ _ _ Eb) as [Bout Bin].
  split; [exact Hl|]. split; [exact Hsum|]. split.
  { intros i j x d wij Hx Hd Hw. by apply (Win i x j d wij). }
  split.
  { intros i j Hij. apply Wout. simpl. lia. }
  split.
  { intros j d bj Hd Hb. by apply (Bin j d bj). }
  intros j Hj. apply Bout. simpl. lia.
Qed.

(** X13: one call of [Backward] on the cache and output of a forward
    pass through a well-sized network. It panics when the action is not
    an index of the output. Otherwise it returns a network of the same
    widths, sizes and learning rate, in which the output layer has taken
    a gradient step on the error of the chosen action alone: every output
    bias [B3[j]] has become [B3[j] - lr * e] and every weight [W3[i][j]]
    has become [W3[i][j] - lr * h2[i] * e], where [e] is
    [output[action] - targetQ] for [j = action] and 0 for every other
    [j]. *)
Theorem Backward_steps_on_the_chosen_action (n : QNetwork.t) (x out : Vector)
    (cache : forwardCache) (action : Z) (targetQ : float) :
  well_shaped n ->
  (Z.of_nat (length x) <= QNetwork.InputSize n)%Z ->
  ForwardWithCache n x = Some (out, cache) ->
  ((action < 0 \/ QNetwork.OutputSize n <= action)%Z ->
   Backward n cache out action targetQ = None) /\
  ((0 <= action < QNetwork.OutputSize n)%Z ->
   exists n' qa,
     Backward n cache out action targetQ = Some n' /\
     GoInt.index out action = Some qa /\
     well_shaped n' /\
     QNetwork.InputSize n' = QNetwork.InputSize n /\
     QNetwork.HiddenSize1 n' = QNetwork.HiddenSize1 n /\
     QNetwork.HiddenSize2 n' = QNetwork.HiddenSize2 n /\
     QNetwork.OutputSize n' = QNetwork.OutputSize n /\
     QNetwork.LearningRate n' = QNetwork.LearningRate n /\
     let e (j : nat) := if (Z.of_nat j =? action)%Z then qa - targetQ else 0 in
     (forall j bj, QNetwork.B3 n !! j = Some bj ->
        QNetwork.B3 n' !! j = Some (bj - QNetwork.LearningRate n * e j)) /\
     (forall i j hi wij, h2 cache !! i = Some hi ->
        at2 (QNetwork.W3 n) i j = Some wij ->
        at2 (QNetwork.W3 n') i j
          = Some (wij - QNetwork.LearningRate n * hi * e j))).
Proof.
  intros Hws Hx Hfwd.
  destruct (ForwardWithCache_Some n x Hws Hx)
    as (out' & cache' & Hfwd' & _ & Hlo & Hin & Hz1 & Hh1 & Hz2 & Hh2).
  rewrite Hfwd in Hfwd'. injection Hfwd' as <- <-.
  pose proof Hws as (_ & _ & _ & Ho & _ & _ & _ & _ & HW3 & HB3).
  split.
  - intros Hact. unfold Backward, GoInt.make, GoInt.index.
    destruct (Z.ltb_spec (QNetwork.OutputSize n) 0); [done|]. simpl.
    destruct (Z.ltb_spec action 0); [done|].
    rewrite (lookup_ge_None_2 out) by lia. done.
  - intros Hact.
    destruct (Backward_Some n cache out action targetQ Hws Hlo Hact)
      as [n' Hb]; try done.
    { rewrite Hin. exact Hx. }
    assert (Hqa : is_Some (GoInt.index out action)).
    { unfold GoInt.index. destruct (Z.ltb_spec action 0); [lia|].
      apply lookup_lt_is_Some_2. lia. }
    destruct Hqa as [qa Hqa]. exists n', qa.
    split; [exact Hb|]. split; [exact Hqa|].
    destruct (Backward_dims _ _ _ _ _ _ Hb) as (Di & D1 & D2 & Do).
    split.
    { eapply well_shaped_transfer; [exact Hws|by eapply Backward_shape|done..]. }
    do 4 (split; [done|]).
    unfold Backward, GoInt.make in Hb. rewrite Hqa in Hb.
    destruct (Z.ltb_spec (QNetwork.OutputSize n) 0); [lia|]. simpl in Hb.
    destruct (GoInt.index (replicate _ _) action); [|done]. simpl in Hb.
    set (dOutput := <[Z.to_nat action := qa - targetQ]>
                      (replicate (Z.to_nat (QNetwork.OutputSize n)) F64.zero))
      in Hb.
    destruct (linearBackward _ (h2 cache) _ _ dOutput true)
      as [[[dH2 w3] b3]|] eqn:E3; [|done]. simpl in Hb.
    destruct (elementMul dH2 _) as [dZ2|]; [|done]. simpl in Hb.
    destruct (linearBackward _ (h1 cache) _ _ dZ2 true)
      as [[[dH1 w2] b2]|]; [|done]. simpl in Hb.
    destruct (elementMul dH1 _) as [dZ1|]; [|done]. simpl in Hb.
    destruct (linearBackward _ (input cache) _ _ dZ1 true)
      as [[[dX w1] b1]|]; [|done]. simpl in Hb.
    injection Hb as <-. simpl. split; [done|].
    apply linearBackward_inv in E3 as (_ & Ew & Eb).
    destruct (updateWeights_from_entries _ _ _ _ _ _ Ew) as [_ Win].
    destruct (updateBias_from_entries _ _ _ _ _ Eb) as [_ Bin].
    assert (Hd : forall j, (j < Z.to_nat (QNetwork.OutputSize n))%nat ->
              dOutput !! j
              = Some (if (Z.of_nat j =? action)%Z then qa - targetQ else 0)).
    { intros j Hj. subst dOutput.
      destruct (Z.eqb_spec (Z.of_nat j) action) as [Heq|Hne].
      - replace (Z.to_nat action) with j by lia.
        apply list_lookup_insert_eq. by rewrite length_replicate.
      - rewrite list_lookup_insert_ne by lia.
        by apply lookup_replicate_2. }
    split.
    + intros j bj Hj. apply (Bin j); [|done].
      apply Hd. apply lookup_lt_Some in Hj. lia.
    + intros i j hi wij Hi Hw. apply (Win i hi j); [done| |done].
      apply Hd. unfold at2 in Hw.
      destruct (QNetwork.W3 n !! i) as [row|] eqn:Er; [|done]. simpl in Hw.
      apply lookup_lt_Some in Hw.
      destruct HW3 as [_ Hrows]. rewrite Forall_forall in Hrows.
      apply list_elem_of_lookup_2 in Er. apply Hrows in Er. lia.
Qed.

End GradientStep.

(* ================================================================== *)
(** * Choosing an action *)
(* ================================================================== *)

Section Selection.
Import ai.
Context `{rand.API}.
Local Open Scope float_scope.

Lemma SFcompare_Lt_Eq (x y z : spec_float) :
  SFcompare x y = Some Lt -> SFcompare z y = Some Eq -> SFcompare x z = Some Lt.
Proof.
  destruct x as [sx | sx | | sx mx ex], y as [sy | sy | | sy my ey],
           z as [sz | sz | | sz mz ez]; simpl;
    try destruct sx; try destruct sy; try destruct sz; simpl;
    try discriminate; try reflexivity;
    change (PosDef.Pos.compare_cont Eq) with Pos.compare;
    intros H1 H2;
    repeat match goal with
    | H : context [(?a ?= ?b)%Z] |- _ =>
        destruct (Z.compare_spec a b); try discriminate
    | H : context [(?a ?= ?b)%positive] |- _ =>
        destruct (Pos.compare_spec a b); simpl in H; try discriminate
    end; subst;
    rewrite ?Z.compare_refl, ?Pos.compare_refl; simpl; try reflexivity;
    repeat match goal with
    | |- context [(?a ?= ?b)%Z] =>
        destruct (Z.compare_spec a b); try lia
    | |- context [(?a ?= ?b)%positive] =>
        destruct (Pos.compare_spec a b); simpl; try lia
    end; try reflexivity; try lia.
Qed.

Lemma ltb_eqb_r (x y z : float) :
  PrimFloat.ltb x y = true -> PrimFloat.eqb z y = true ->
  PrimFloat.ltb x z = true.
Proof.
  rewrite !FloatAxioms.ltb_spec, FloatAxioms.eqb_spec. unfold SFltb, SFeqb.
  destruct (SFcompare (Prim2SF x) (Prim2SF y)) as [[]|] eqn:E1; try done.
  destruct (SFcompare (Prim2SF z) (Prim2SF y)) as [[]|] eqn:E2; try done.
  by rewrite (SFcompare_Lt_Eq _ _ _ E1 E2).
Qed.

Lemma ltb_not_eqb (x y : float) :
  PrimFloat.ltb x y = true -> PrimFloat.eqb x y = false.
Proof.
  rewrite FloatAxioms.ltb_spec, FloatAxioms.eqb_spec. unfold SFltb, SFeqb.
  by destruct (SFcompare (Prim2SF x) (Prim2SF y)) as [[]|].
Qed.

Lemma leb_not_ltb (x y : float) :
  PrimFloat.leb x y = true -> PrimFloat.ltb y x = false.
Proof.
  rewrite FloatAxioms.ltb_spec, FloatAxioms.leb_spec. unfold SFltb, SFleb.
  rewrite (SFcompare_antisym (Prim2SF y)).
  by destruct (SFcompare (Prim2SF x) (Prim2SF y)) as [[]|].
Qed.

(** The scan of [MaxIndex] and [Max] from index [i] on: either nothing
    scanned is greater than the start value, which is kept, or the result
    is the first scanned position holding the greatest value. *)
Lemma maxLoop_first (values : Vector) : forall maxIdx maxVal (i : Z),
  let r := maxLoop maxIdx maxVal i values in
  (r = (maxIdx, maxVal) /\
   forall v, v ∈ values -> PrimFloat.ltb maxVal v = false) \/
  (exists k : nat,
     r.1 = (i + Z.of_nat k)%Z /\ values !! k = Some r.2 /\
     PrimFloat.ltb maxVal r.2 = true /\
     forall j v, (j < k)%nat -> values !! j = Some v ->
       PrimFloat.eqb v r.2 = false).
Proof.
  induction values as [|v rest IH]; intros maxIdx maxVal i; simpl.
  - left. split; [done|]. intros v Hv. by apply elem_of_nil in Hv.
  - unfold F64.gtb. destruct (PrimFloat.ltb maxVal v) eqn:Ev.
    + right. destruct (IH i v (i + 1)%Z) as [[Hr Hall]|(k & Hk & Hv & Hlt & Hbefore)].
      * exists 0%nat. rewrite Hr. simpl.
        split; [lia|]. split; [done|]. split; [done|]. intros; lia.
      * exists (S k). split; [lia|]. split; [done|].
        split; [by eapply ltb_trans|].
        intros [|j] v' Hj Hv'; simpl in Hv'.
        -- injection Hv' as <-. by apply ltb_not_eqb.
        -- eapply Hbefore; [|done]. lia.
    + destruct (IH maxIdx maxVal (i + 1)%Z)
        as [[Hr Hall]|(k & Hk & Hv & Hlt & Hbefore)].
      * left. split; [done|].
        intros v' [->|Hv']%elem_of_cons; [done|by apply Hall].
      * right. exists (S k). split; [lia|]. split; [done|]. split; [done|].
        intros [|j] v' Hj Hv'; simpl in Hv'.
        -- injection Hv' as <-.
           destruct (PrimFloat.eqb v _) eqn:Eq; [|done].
           by rewrite (ltb_eqb_r _ _ _ Hlt Eq) in Ev.
        -- eapply Hbefore; [|done]. lia.
Qed.

(** X14: [MaxIndex] panics on an empty slice. Otherwise it returns a
    valid index holding the value [Max] returns; no value of the slice is
    greater than that value, and no earlier position holds a value equal
    to it, so among equal greatest values the first one is chosen. *)
Theorem MaxIndex_first_greatest (values : Vector) :
  (MaxIndex values = None <-> values = []) /\
  (forall i, MaxIndex values = Some i ->
     exists m,
       Max values = Some m /\
       (0 <= i < Z.of_nat (length values))%Z /\
       values !! Z.to_nat i = Some m /\
       (forall v, v ∈ values -> PrimFloat.ltb m v = false) /\
       (forall j v, (j < Z.to_nat i)%nat -> values !! j = Some v ->
          PrimFloat.eqb v m = false)).
Proof.
  destruct values as [|v0 rest]; simpl.
  - split; [done|]. done.
  - split; [done|]. intros i [= <-].
    exists (maxLoop 0 v0 1 rest).2. split; [done|].
    destruct (maxLoop_first rest 0 v0 1) as [[Hr Hall]|(k & Hk & Hv & Hlt & Hbefore)].
    + rewrite Hr. simpl. split; [lia|]. split; [done|]. split.
      * intros v [->|Hv]%elem_of_cons; [apply ltb_irrefl|by apply Hall].
      * intros; lia.
    + rewrite Hk. replace (Z.to_nat (1 + Z.of_nat k)) with (S k) by lia.
      apply lookup_lt_Some in Hv as Hlen.
      split; [lia|]. split; [done|]. split.
      * intros v Hin.
        destruct (maxLoop_greatest rest 0 v0 1) as [_ Hall].
        apply elem_of_cons in Hin as [->|Hin]; [by apply ltb_asym|by apply Hall].
      * intros [|j] v Hj Hjv; simpl in Hjv.
        -- injection Hjv as <-. by apply ltb_not_eqb.
        -- eapply Hbefore; [|done]. lia.
Qed.

(** X15: on a well-sized policy network with at least one output and a
    state no longer than the input width, [SelectActionGreedy] returns an
    action that indexes the Q-values [GetQValues] reports for that state,
    and no Q-value is greater than the one at that action. With no
    output at all it panics. *)
Theorem SelectActionGreedy_picks_a_best_action (a : DQNAgent.t) (state : Vector) :
  well_shaped (DQNAgent.PolicyNet a) ->
  (Z.of_nat (length state) <= QNetwork.InputSize (DQNAgent.PolicyNet a))%Z ->
  (QNetwork.OutputSize (DQNAgent.PolicyNet a) = 0%Z ->
   SelectActionGreedy a state = None) /\
  ((0 < QNetwork.OutputSize (DQNAgent.PolicyNet a))%Z ->
   exists act qValues q,
     SelectActionGreedy a state = Some act /\
     GetQValues a state = Some qValues /\
     (0 <= act < QNetwork.OutputSize (DQNAgent.PolicyNet a))%Z /\
     GoInt.index qValues act = Some q /\
     forall v, v ∈ qValues -> PrimFloat.ltb q v = false).
Proof.
  intros Hws Hlen.
  destruct (ForwardWithCache_Some _ state Hws Hlen)
    as (out & cache & _ & Hf & Hlo & _).
  unfold SelectActionGreedy, GetQValues. rewrite Hf. simpl. split.
  - intros Ho. rewrite Ho in Hlo. by destruct out.
  - intros Ho.
    destruct (MaxIndex out) as [act|] eqn:Em.
    + destruct out as [|v0 rest]; [done|].
      simpl in Em. injection Em as Hact.
      destruct (maxLoop_first rest 0 v0 1)
        as [[Hr Hall]|(k & Hk & Hv & Hlt & Hbefore)].
      * rewrite Hr in Hact. simpl in Hact. subst act.
        exists 0%Z, (v0 :: rest), v0. split; [done|]. split; [done|].
        split; [lia|]. split; [done|].
        intros v [->|Hv]%elem_of_cons; [apply ltb_irrefl|by apply Hall].
      * rewrite Hk in Hact. subst act.
        apply lookup_lt_Some in Hv as Hlt'. simpl in Hlo.
        exists (1 + Z.of_nat k)%Z, (v0 :: rest), (maxLoop 0 v0 1 rest).2.
        split; [done|]. split; [done|]. split; [lia|]. split.
        { unfold GoInt.index. destruct (Z.ltb_spec (1 + Z.of_nat k) 0); [lia|].
          replace (Z.to_nat (1 + Z.of_nat k)) with (S k) by lia. done. }
        intros v Hin. destruct (maxLoop_greatest rest 0 v0 1) as [_ Hall].
        apply elem_of_cons in Hin as [->|Hin]; [by apply ltb_asym|by apply Hall].
    + destruct out; [simpl in Hlo; lia|done].
Qed.

(** X16: the two ends of the exploration rate, for draws of [Float64]
    in [0, 1). With epsilon 1 [SelectAction] always explores: it returns
    the draw of [Intn(3)] and never runs the network, so it cannot panic.
    With epsilon 0 it never explores: it returns what
    [SelectActionGreedy] returns and panics exactly when that does. In
    both cases only the random generator of the agent changes. *)
Theorem SelectAction_at_the_ends_of_epsilon (a : DQNAgent.t) (state : Vector) :
  Float64_contract ->
  let g := (rand.Float64 (DQNAgent.rng a)).2 in
  SelectAction (SetEpsilon a 1) state
    = Some ((rand.Intn g NumActions).1,
            DQNAgent.set_rng (SetEpsilon a 1) (rand.Intn g NumActions).2) /\
  SelectAction (SetEpsilon a 0) state
    = (act ← SelectActionGreedy a state;
       Some (act, DQNAgent.set_rng (SetEpsilon a 0) g)).
Proof.
  intros Hc g. destruct (Hc (DQNAgent.rng a)) as [H0 H1].
  unfold SelectAction, SetEpsilon. simpl. subst g.
  destruct (rand.Float64 (DQNAgent.rng a)) as [u g]. simpl in *.
  rewrite H1, (leb_not_ltb _ _ H0). split.
  - by destruct (rand.Intn g NumActions).
  - done.
Qed.

End Selection.

(* ================================================================== *)
(** * The agent over a whole run *)
(* ================================================================== *)

Section Runs_of_calls.
Import ai.
Context `{rand.API}.
Local Open Scope float_scope.

Lemma Sample_frame (rb rb' : ReplayBuffer.t) batchSize batch :
  Sample rb batchSize = Some (batch, rb') ->
  ReplayBuffer.buffer rb' = ReplayBuffer.buffer rb /\
  ReplayBuffer.capacity rb' = ReplayBuffer.capacity rb /\
  ReplayBuffer.position rb' = ReplayBuffer.position rb /\
  ReplayBuffer.size rb' = ReplayBuffer.size rb.
Proof.
  unfold Sample. destruct (GoInt.make _ _); [|done]. simpl.
  destruct (rand.Perm _ _) as [perm g].
  destruct (_ <? _)%Z; [done|].
  destruct (mapM _ _); [|done]. simpl. by intros [= _ <-].
Qed.

Lemma trainBatch_keeps batch : forall (a : DQNAgent.t) total,
  well_shaped (DQNAgent.PolicyNet a) ->
  well_shaped (DQNAgent.TargetNet a) ->
  QNetwork.InputSize (DQNAgent.TargetNet a)
    = QNetwork.InputSize (DQNAgent.PolicyNet a) ->
  (0 < QNetwork.OutputSize (DQNAgent.TargetNet a))%Z ->
  Forall (fits (DQNAgent.PolicyNet a)) batch ->
  exists a' total', trainBatch a batch total = Some (a', total') /\
    a' = DQNAgent.set_PolicyNet a (DQNAgent.PolicyNet a') /\
    well_shaped (DQNAgent.PolicyNet a') /\
    shape_of (DQNAgent.PolicyNet a') = shape_of (DQNAgent.PolicyNet a) /\
    QNetwork.InputSize (DQNAgent.PolicyNet a')
      = QNetwork.InputSize (DQNAgent.PolicyNet a) /\
    QNetwork.OutputSize (DQNAgent.PolicyNet a')
      = QNetwork.OutputSize (DQNAgent.PolicyNet a).
Proof.
  induction batch as [|e rest IH]; intros a total Hp Ht Hdim Hout Hfit; simpl.
  - exists a, total. split; [done|]. split; [by destruct a|]. done.
  - apply Forall_cons in Hfit as [He Hrest].
    destruct (trainOnExperience_Some a e Hp Ht Hdim Hout He)
      as (a1 & loss & Htr & Hp1 & Ei & Eo).
    rewrite Htr. simpl.
    pose proof (trainOnExperience_frame _ _ _ _ Htr) as Hfr.
    destruct (trainOnExperience_inv _ _ _ _ Htr)
      as (t & out & cache & q & _ & _ & _ & Hback & _).
    apply Backward_shape in Hback.
    destruct (IH a1 (total + loss)) as (a' & total' & Hb & Hfr' & Hp' & Hs' & Ei' & Eo').
    + done.
    + by rewrite Hfr.
    + rewrite Hfr. simpl. congruence.
    + by rewrite Hfr.
    + eapply Forall_impl; [exact Hrest|]. intros e' (?&?&?).
      unfold fits. rewrite Ei, Eo. done.
    + exists a', total'. split; [done|]. split.
      { rewrite Hfr' at 1. rewrite Hfr. done. }
      split; [done|]. split; [congruence|]. split; congruence.
Qed.

Lemma same_shape_OutputSize (n1 n2 : QNetwork.t) :
  well_shaped n1 -> well_shaped n2 -> shape_of n1 = shape_of n2 ->
  QNetwork.OutputSize n1 = QNetwork.OutputSize n2.
Proof.
  intros (_&_&_&Ho1&_&_&_&_&_&Hb1) (_&_&_&Ho2&_&_&_&_&_&Hb2) Hs.
  unfold shape_of in Hs. injection Hs as _ _ _ _ _ Hl. lia.
Qed.

(** Replacing the target by a copy taken from the policy keeps the agent
    trainable. *)
Lemma UpdateTargetNetwork_ready i o (a : DQNAgent.t) :
  ready i o a -> exists a', UpdateTargetNetwork a = Some a' /\ ready i o a'.
Proof.
  intros ((Hp & Ht & Hshape & Hdim & Hout & Hti & Htu & Hbs & Hwf & Hfit)
          & Hsb & Hi & Ho).
  unfold UpdateTargetNetwork.
  destruct (CopyFrom_same_shape (DQNAgent.TargetNet a) (DQNAgent.PolicyNet a) Hshape)
    as (target & Hc & Hw).
  rewrite Hc. simpl. eexists. split; [reflexivity|].
  assert (Hs : shape_of target = shape_of (DQNAgent.TargetNet a)).
  { unfold shape_of, weights_of in *.
    injection Hw as -> -> -> -> -> ->. by rewrite Hshape. }
  destruct (CopyFrom_dims _ _ _ Hc) as (Ei & E1 & E2 & Eo & _).
  split; [|done].
  unfold trainable. simpl.
  split; [done|]. split; [by eapply well_shaped_transfer|].
  split; [congruence|]. split; [congruence|]. split; [by rewrite Eo|]. done.
Qed.

Lemma Train_ready i o (a : DQNAgent.t) :
  rand.Perm_contract -> ready i o a ->
  exists a' loss, Train a = Some (a', loss) /\ ready i o a'.
Proof.
  intros Hperm Hready.
  pose proof Hready as
    ((Hp & Ht & Hshape & Hdim & Hout & Hti & Htu & Hbs & Hwf & Hfit)
     & Hsb & Hi & Ho).
  unfold Train, GoInt.rem. simpl.
  set (a1 := DQNAgent.set_StepCount a (GoInt.add (DQNAgent.StepCount a) 1)).
  assert (Hready1 : ready i o a1) by exact Hready.
  destruct (_ <? _)%Z; [by eexists _, _|].
  destruct (Z.eqb_spec (DQNAgent.TrainInterval a) 0) as [|_]; [done|]. simpl.
  match goal with |- context [negb ?b] => destruct (negb b) end;
    [by eexists _, _|].
  destruct (Sample_reads_stored (DQNAgent.ReplayBuffer a)
              (DQNAgent.BatchSize a) Hperm Hwf Hbs)
    as (batch & rb & Hs & Hread).
  rewrite Hs. simpl.
  destruct (Sample_frame _ _ _ _ Hs) as (Fb & Fc & Fp & Fs).
  set (a2 := DQNAgent.set_ReplayBuffer a1 rb).
  assert (Hfits : Forall (fits (DQNAgent.PolicyNet a)) batch).
  { eapply Forall_impl; [exact Hread|].
    intros e (k & Hk & Hbuf). by eapply Hfit. }
  destruct (trainBatch_keeps batch a2 0.0 Hp Ht Hdim Hout Hfits)
    as (a3 & total & Hb & Hfr & Hp3 & Hs3 & Ei3 & Eo3).
  rewrite Hb. simpl.
  assert (Hready3 : ready i o a3).
  { rewrite Hfr. unfold ready, trainable, sound_buffer. simpl in *.
    rewrite Fb, Fc, Fp, Fs.
    split; [|split; [done|split; congruence]].
    split; [done|]. split; [done|]. split; [congruence|].
    split; [congruence|]. split; [done|]. split; [done|]. split; [done|].
    split; [done|]. split; [done|].
    intros k e Hk He. destruct (Hfit k e Hk He) as (?&?&?).
    unfold fits. rewrite Ei3, Eo3. done. }
  assert (E3 : DQNAgent.StepCount a3 = DQNAgent.StepCount a1 /\
               DQNAgent.TargetUpdate a3 = DQNAgent.TargetUpdate a).
  { rewrite Hfr. done. }
  destruct E3 as [-> ->].
  destruct (Z.eqb_spec (DQNAgent.TargetUpdate a) 0) as [|_]; [done|]. simpl.
  match goal with |- context [if ?b then UpdateTargetNetwork _ else _] =>
    destruct b end; simpl; [|by eexists _, _].
  destruct (UpdateTargetNetwork_ready i o a3 Hready3) as (a4 & -> & Hready4).
  simpl. by eexists _, _.
Qed.

Lemma Forward_Some_ready i o (a : DQNAgent.t) (state : Vector) :
  ready i o a -> (Z.of_nat (length state) <= i)%Z ->
  exists q, Forward (DQNAgent.PolicyNet a) state = Some q /\ q <> [].
Proof.
  intros ((Hp & Ht & Hshape & Hdim & Hout & _) & _ & Hi & Ho) Hlen.
  destruct (ForwardWithCache_Some (DQNAgent.PolicyNet a) state Hp)
    as (out & cache & _ & Hf & Hlo & _); [lia|].
  exists out. split; [done|].
  rewrite (same_shape_OutputSize _ _ Ht Hp Hshape) in Hout.
  intros ->. simpl in Hlo. lia.
Qed.

Lemma Remember_ready i o (a : DQNAgent.t) (e : Experience.t) :
  ready i o a -> admissible i o (CallRemember e) ->
  exists a', perform a (CallRemember e) = Some a' /\ ready i o a'.
Proof.
  intros ((Hp & Ht & Hshape & Hdim & Hout & Hti & Htu & Hbs & Hwf & Hfit)
          & (Hlen & Hcap & Hpos & Hsize & Hfill) & Hi & Ho) (Hs & Hn & Ha).
  simpl. unfold Remember, Add. simpl. rewrite !copySlice_id.
  destruct (lookup_lt_is_Some_2 (ReplayBuffer.buffer (DQNAgent.ReplayBuffer a))
              (ReplayBuffer.position (DQNAgent.ReplayBuffer a))) as [old ->];
    [lia|]. simpl.
  destruct (Nat.eqb_spec (ReplayBuffer.capacity (DQNAgent.ReplayBuffer a)) 0);
    [lia|]. simpl.
  eexists. split; [reflexivity|].
  unfold ready, trainable, sound_buffer. simpl.
  rewrite length_insert.
  assert (Hmod : ((ReplayBuffer.position (DQNAgent.ReplayBuffer a) + 1)
                  mod ReplayBuffer.capacity (DQNAgent.ReplayBuffer a)
                  < ReplayBuffer.capacity (DQNAgent.ReplayBuffer a))%nat)
    by (apply Nat.mod_upper_bound; lia).
  split; [|split; [|done]].
  - do 8 (split; [done|]). split.
    + destruct (Nat.ltb_spec (ReplayBuffer.size (DQNAgent.ReplayBuffer a))
                  (ReplayBuffer.capacity (DQNAgent.ReplayBuffer a))); lia.
    + intros k e' Hk He'.
      destruct (decide (k = ReplayBuffer.position (DQNAgent.ReplayBuffer a)))
        as [->|Hne].
      * rewrite list_lookup_insert_eq in He' by lia. injection He' as <-.
        unfold fits. simpl. rewrite Hi, Ho. done.
      * rewrite list_lookup_insert_ne in He' by done.
        apply (Hfit k); [|done].
        destruct (Nat.ltb_spec (ReplayBuffer.size (DQNAgent.ReplayBuffer a))
                    (ReplayBuffer.capacity (DQNAgent.ReplayBuffer a))); lia.
  - split; [done|]. split; [done|]. split; [done|].
    destruct (Nat.ltb_spec (ReplayBuffer.size (DQNAgent.ReplayBuffer a))
                (ReplayBuffer.capacity (DQNAgent.ReplayBuffer a))) as [Hlt|Hge].
    + split; [lia|]. intros Hlt'. rewrite (Hfill Hlt).
      rewrite Nat.mod_small; lia.
    + split; [lia|]. lia.
Qed.

Lemma perform_ready i o (a : DQNAgent.t) (c : call) :
  rand.Perm_contract -> ready i o a -> admissible i o c ->
  exists a', perform a c = Some a' /\ ready i o a'.
Proof.
  intros Hperm Hready Hc. destruct c as [state|state|state|e| | | |eps|st].
  - simpl. unfold SelectAction.
    destruct (rand.Float64 (DQNAgent.rng a)) as [u g].
    destruct (PrimFloat.ltb u (DQNAgent.Epsilon a)).
    + destruct (rand.Intn g NumActions) as [k g']. simpl.
      eexists. split; [reflexivity|]. exact Hready.
    + unfold SelectActionGreedy. simpl.
      destruct (Forward_Some_ready i o a state Hready Hc) as (q & -> & Hq).
      simpl. destruct q as [|v0 rest]; [done|]. simpl.
      eexists. split; [reflexivity|]. exact Hready.
  - simpl. unfold SelectActionGreedy.
    destruct (Forward_Some_ready i o a state Hready Hc) as (q & -> & Hq).
    simpl. destruct q as [|v0 rest]; [done|]. simpl. by exists a.
  - simpl. unfold GetQValues.
    destruct (Forward_Some_ready i o a state Hready Hc) as (q & -> & Hq).
    simpl. by exists a.
  - by apply Remember_ready.
  - destruct (Train_ready i o a Hperm Hready) as (a' & loss & Ht & Hr).
    simpl. rewrite Ht. simpl. by exists a'.
  - by apply UpdateTargetNetwork_ready.
  - simpl. eexists. split; [reflexivity|].
    rewrite DecayEpsilon_frame. exact Hready.
  - simpl. eexists. split; [reflexivity|]. exact Hready.
  - simpl. eexists. split; [reflexivity|]. exact Hready.
Qed.

Lemma performAll_ready i o (calls : list call) : forall a : DQNAgent.t,
  rand.Perm_contract -> ready i o a -> Forall (admissible i o) calls ->
  exists a', performAll a calls = Some a' /\ ready i o a'.
Proof.
  induction calls as [|c rest IH]; intros a Hperm Hready Hall; simpl.
  - by exists a.
  - apply Forall_cons in Hall as [Hc Hrest].
    destruct (perform_ready i o a c Hperm Hready Hc) as (a1 & -> & Hr1).
    simpl. by apply IH.
Qed.

Lemma NewDQNAgent_ready cfg seed (a : DQNAgent.t) :
  NewDQNAgent cfg seed = Some a ->
  (0 < config.OutputSize cfg)%Z -> (0 < config.BufferSize cfg)%Z ->
  (0 <= config.BatchSize cfg)%Z -> config.TargetUpdate cfg <> 0%Z ->
  ready (config.InputSize cfg) (config.OutputSize cfg) a.
Proof.
  intros Hn Ho Hbuf Hbs Htu.
  destruct (NewDQNAgent_networks cfg seed a Hn) as (Hshape & Hw & Hp).
  unfold NewDQNAgent in Hn.
  destruct (rand.Int63 (rand.New seed)) as [seed1 g1].
  destruct (NewQNetwork _ _ _ _ _ seed1) as [policy|] eqn:Ep; [|done].
  simpl in Hn.
  destruct (Clone policy) as [target|] eqn:Ec; [|done]. simpl in Hn.
  destruct (rand.Int63 g1) as [seed2 g2].
  unfold NewReplayBuffer, GoInt.make in Hn.
  destruct (Z.ltb_spec (config.BufferSize cfg) 0); [lia|]. simpl in Hn.
  injection Hn as <-. simpl in *.
  destruct (NewQNetwork_dims _ _ _ _ _ _ _ Ep) as (Di & D1 & D2 & Do & _).
  destruct (Clone_dims _ _ Ec) as (Ti & T1 & T2 & To & _).
  unfold ready, trainable, sound_buffer. simpl.
  rewrite length_replicate.
  split; [|split; [repeat split; lia|done]].
  split; [done|]. split; [by eapply well_shaped_transfer|].
  split; [done|]. split; [done|]. split; [lia|]. split; [done|].
  split; [done|]. split; [done|]. split; [lia|]. intros; lia.
Qed.

(** X17: an agent made by [NewDQNAgent] from a configuration with at
    least one output, a buffer capacity above zero, a batch size that is
    not negative and a target-update interval other than zero never
    panics, whatever calls are made on it and in whatever order:
    selecting actions and reading Q-values for states no longer than the
    input width, remembering transitions with such states and an action
    that indexes an output, training, syncing the target, decaying or
    setting epsilon, restoring a checkpoint. ([Perm] is assumed to return
    a permutation.) *)
Theorem fresh_agent_never_panics (cfg : config.TrainingConfig) (seed : Z)
    (a : DQNAgent.t) (calls : list call) :
  rand.Perm_contract ->
  NewDQNAgent cfg seed = Some a ->
  (0 < config.OutputSize cfg)%Z ->
  (0 < config.BufferSize cfg)%Z ->
  (0 <= config.BatchSize cfg)%Z ->
  config.TargetUpdate cfg <> 0%Z ->
  Forall (admissible (config.InputSize cfg) (config.OutputSize cfg)) calls ->
  exists a', performAll a calls = Some a' /\
    ready (config.InputSize cfg) (config.OutputSize cfg) a'.
Proof.
  intros Hperm Hn Ho Hbuf Hbs Htu Hcalls.
  apply performAll_ready; [exact Hperm| |exact Hcalls].
  by eapply NewDQNAgent_ready.
Qed.

(** X18: [NewDQNAgent] returns an agent exactly when no layer width and
    not the buffer capacity is negative. The agent starts at step 0 with
    a train interval of 4, the configuration's epsilon, discount, batch
    size and target-update interval, an empty buffer of the configured
    capacity, and a target network that has the policy network's widths
    and weights and therefore computes the same Q-values. *)
Theorem NewDQNAgent_initial_state (cfg : config.TrainingConfig) (seed : Z) :
  (is_Some (NewDQNAgent cfg seed) <->
   (0 <= config.InputSize cfg /\ 0 <= config.HiddenSize1 cfg /\
    0 <= config.HiddenSize2 cfg /\ 0 <= config.OutputSize cfg /\
    0 <= config.BufferSize cfg)%Z) /\
  (forall a, NewDQNAgent cfg seed = Some a ->
     DQNAgent.StepCount a = 0%Z /\
     DQNAgent.TrainInterval a = 4%Z /\
     DQNAgent.Epsilon a = config.EpsilonStart cfg /\
     DQNAgent.EpsilonMin a = config.EpsilonMin cfg /\
     DQNAgent.EpsilonDecay a = config.EpsilonDecay cfg /\
     DQNAgent.Gamma a = config.Gamma cfg /\
     DQNAgent.BatchSize a = config.BatchSize cfg /\
     DQNAgent.TargetUpdate a = config.TargetUpdate cfg /\
     Size (DQNAgent.ReplayBuffer a) = 0%Z /\
     Z.of_nat (ReplayBuffer.capacity (DQNAgent.ReplayBuffer a))
       = config.BufferSize cfg /\
     well_shaped (DQNAgent.PolicyNet a) /\
     QNetwork.InputSize (DQNAgent.PolicyNet a) = config.InputSize cfg /\
     QNetwork.OutputSize (DQNAgent.PolicyNet a) = config.OutputSize cfg /\
     QNetwork.LearningRate (DQNAgent.PolicyNet a) = config.LearningRate cfg /\
     weights_of (DQNAgent.TargetNet a) = weights_of (DQNAgent.PolicyNet a) /\
     forall x, Forward (DQNAgent.TargetNet a) x
               = Forward (DQNAgent.PolicyNet a) x).
Proof.
  split.
  - split.
    + intros [a Ha]. unfold NewDQNAgent in Ha.
      destruct (rand.Int63 (rand.New seed)) as [seed1 g1].
      destruct (NewQNetwork _ _ _ _ _ seed1) as [policy|] eqn:Ep;
        simpl in Ha; [|done].
      apply NewQNetwork_inv in Ep as ((Hi & H1 & H2 & Ho) & _).
      destruct (Clone policy); simpl in Ha; [|done].
      destruct (rand.Int63 g1) as [seed2 g2].
      unfold NewReplayBuffer, GoInt.make in Ha.
      destruct (Z.ltb_spec (config.BufferSize cfg) 0); [done|]. lia.
    + intros (Hi & H1 & H2 & Ho & Hb). unfold NewDQNAgent.
      destruct (rand.Int63 (rand.New seed)) as [seed1 g1].
      destruct (NewQNetwork_well_shaped (config.InputSize cfg)
                  (config.HiddenSize1 cfg) (config.HiddenSize2 cfg)
                  (config.OutputSize cfg) (config.LearningRate cfg) seed1
                  Hi H1 H2 Ho) as (policy & -> & Hws & _).
      simpl. destruct (Clone_well_shaped policy Hws) as (target & -> & _).
      simpl. destruct (rand.Int63 g1) as [seed2 g2].
      unfold NewReplayBuffer, GoInt.make.
      destruct (Z.ltb_spec (config.BufferSize cfg) 0); [lia|]. done.
  - intros a Ha.
    destruct (NewDQNAgent_networks cfg seed a Ha) as (_ & Hw & Hp).
    unfold NewDQNAgent in Ha.
    destruct (rand.Int63 (rand.New seed)) as [seed1 g1].
    destruct (NewQNetwork _ _ _ _ _ seed1) as [policy|] eqn:Ep;
      simpl in Ha; [|done].
    destruct (NewQNetwork_dims _ _ _ _ _ _ _ Ep) as (Di & _ & _ & Do & Dl).
    destruct (Clone policy) as [target|]; simpl in Ha; [|done].
    destruct (rand.Int63 g1) as [seed2 g2].
    unfold NewReplayBuffer, GoInt.make in Ha.
    destruct (Z.ltb_spec (config.BufferSize cfg) 0); [done|]. simpl in Ha.
    injection Ha as <-. simpl in *.
    do 9 (split; [done|]). split; [lia|].
    do 5 (split; [done|]). intros x. by apply Forward_weights.
Qed.

(** X19: settings that make the agent panic. A call of [Train] panics
    when the buffer holds a batch and the train interval is zero, and
    when it reaches the update with a target-update interval of zero or
    a negative batch size; [Remember] panics on a buffer without slots,
    as [NewReplayBuffer(0)] makes it. *)
Theorem degenerate_settings_panic (a : DQNAgent.t) :
  ((DQNAgent.BatchSize a <= Size (DQNAgent.ReplayBuffer a))%Z ->
   DQNAgent.TrainInterval a = 0%Z -> Train a = None) /\
  (updates a -> DQNAgent.TargetUpdate a = 0%Z -> Train a = None) /\
  (updates a -> (DQNAgent.BatchSize a < 0)%Z -> Train a = None) /\
  (ReplayBuffer.buffer (DQNAgent.ReplayBuffer a) = [] ->
   forall state action reward nextState done,
     Remember a state action reward nextState done = None) /\
  (forall seed rb, NewReplayBuffer 0 seed = Some rb ->
     ReplayBuffer.buffer rb = [] /\ IsFull rb = true).
Proof.
  split; [|split; [|split; [|split]]].
  - intros Hsize Hti. unfold Train, GoInt.rem. simpl.
    destruct (Z.ltb_spec (Size (DQNAgent.ReplayBuffer a)) (DQNAgent.BatchSize a));
      [lia|].
    by rewrite Hti.
  - intros [Hsize Hrem] Htu. unfold Train. simpl.
    destruct (Z.ltb_spec (Size (DQNAgent.ReplayBuffer a)) (DQNAgent.BatchSize a));
      [lia|].
    rewrite Hrem. simpl.
    destruct (Sample _ _) as [[batch rb]|]; simpl; [|done].
    destruct (trainBatch _ batch 0.0) as [[a3 total]|] eqn:Eb; simpl; [|done].
    apply trainBatch_frame in Eb. rewrite Eb. simpl.
    unfold GoInt.rem. by rewrite Htu.
  - intros [Hsize Hrem] Hbs. unfold Train. simpl.
    destruct (Z.ltb_spec (Size (DQNAgent.ReplayBuffer a)) (DQNAgent.BatchSize a));
      [lia|].
    rewrite Hrem. simpl. unfold Sample, GoInt.make.
    destruct (Z.ltb_spec (Z.of_nat (ReplayBuffer.size (DQNAgent.ReplayBuffer a)))
                (DQNAgent.BatchSize a)); [lia|].
    destruct (Z.ltb_spec (DQNAgent.BatchSize a) 0); [done|lia].
  - intros Hempty state action reward nextState done.
    unfold Remember, Add. simpl. by rewrite Hempty.
  - intros seed rb [= <-]. done.
Qed.

End Runs_of_calls.

Section EncoderLayout.
Import ai.
Local Open Scope float_scope.

(** X20: the layout of the state vector. For an index other than 0 and
    1 [EncodeState] panics; for a dead snake it returns 22 zeros. For a
    living snake it returns, in this order: the one-step danger flags of
    going straight, turning left and turning right; the one-hot facing
    (Up, Down, Left, Right); the four flags of the food's direction, zero
    when no food is active; the four flags of the opponent's direction,
    its head's closeness and its nearest segment's closeness, zero when
    the opponent is dead; the snake's own length over half the board
    area; the opponent's length over the same, zero when it is dead; and
    the three two-step danger flags. *)
Theorem EncodeState_layout (state : game.GameState.t) (snakeID : Z) :
  (snakeID <> 0%Z -> snakeID <> 1%Z -> EncodeState state snakeID = None) /\
  (forall snake,
     game.snake_at (game.GameState.Snakes state) snakeID = Some snake ->
     game.Snake.Alive snake = false ->
     EncodeState state snakeID = Some (replicate 22 0)) /\
  (forall snake head oppHead,
     game.snake_at (game.GameState.Snakes state) snakeID = Some snake ->
     game.Snake.Alive snake = true ->
     game.Head snake = Some head ->
     let other := opponent (game.GameState.Snakes state) snakeID in
     (game.Snake.Alive other = true -> game.Head other = Some oppHead) ->
     let dir := game.Snake.Direction snake in
     let food := game.GameState.Food state in
     exists s l r s2 l2 r2,
       isDanger (cell_ahead head dir) snakeID state = Some s /\
       isDanger (cell_ahead head (game.TurnLeft dir)) snakeID state = Some l /\
       isDanger (cell_ahead head (game.TurnRight dir)) snakeID state = Some r /\
       isDanger (cell_ahead (cell_ahead head dir) dir) snakeID state = Some s2 /\
       isDanger (cell_ahead (cell_ahead head (game.TurnLeft dir))
                   (game.TurnLeft dir)) snakeID state = Some l2 /\
       isDanger (cell_ahead (cell_ahead head (game.TurnRight dir))
                   (game.TurnRight dir)) snakeID state = Some r2 /\
       EncodeState state snakeID =
         Some ([boolToFloat s; boolToFloat l; boolToFloat r]
               ++ one_hot dir
               ++ (if game.Food.Active food
                   then relative_flags (game.Food.Position food) head
                   else [0; 0; 0; 0])
               ++ opponent_flags other oppHead head
               ++ opponent_closeness state other oppHead head
               ++ [F64.of_int (game.Length snake) / maxLength state;
                   opponent_length state other]
               ++ [boolToFloat (s || s2); boolToFloat (l || l2);
                   boolToFloat (r || r2)])).
Proof.
  split; [|split].
  - intros H0 H1. unfold EncodeState, game.snake_at. simpl.
    destruct (Z.eqb_spec snakeID 0); [done|].
    destruct (Z.eqb_spec snakeID 1); done.
  - intros snake Hsnake Hdead. unfold EncodeState. simpl.
    rewrite Hsnake. simpl.
    destruct (snake_at_inv _ _ _ Hsnake) as [(_&_&->)|(_&_&->)]; simpl;
      by rewrite Hdead.
  - intros snake head oppHead Hsnake Halive Hhead other Hother dir food.
    assert (Hoth : game.snake_at (game.GameState.Snakes state)
                     (GoInt.sub 1 snakeID) = Some other).
    { subst other. unfold opponent.
      destruct (snake_at_inv _ _ _ Hsnake) as [(->&_&->)|(->&_&->)]; done. }
    pose proof (fun pos => isDanger_total state snakeID snake pos Hsnake) as Hd.
    destruct (Hd (cell_ahead head dir)) as [ds Hds].
    destruct (Hd (cell_ahead head (game.TurnLeft dir))) as [dl Hdl].
    destruct (Hd (cell_ahead head (game.TurnRight dir))) as [dr Hdr].
    destruct (Hd (cell_ahead (cell_ahead head dir) dir)) as [ds2 Hds2].
    destruct (Hd (cell_ahead (cell_ahead head (game.TurnLeft dir)) (game.TurnLeft dir)))
      as [dl2 Hdl2].
    destruct (Hd (cell_ahead (cell_ahead head (game.TurnRight dir)) (game.TurnRight dir)))
      as [dr2 Hdr2].
    exists ds, dl, dr, ds2, dl2, dr2. do 6 (split; [done|]).
    unfold EncodeState. cbn [GoInt.make StateSize Z.ltb Z.compare mbind option_bind].
    rewrite Hsnake, Hoth. cbn [mbind option_bind]. rewrite Halive. cbn [negb].
    rewrite Hhead. cbn [mbind option_bind].
    rewrite !(NextHead_cell_ahead snake head _ Hhead). cbn [mbind option_bind].
    fold dir. rewrite Hds, Hdl, Hdr. cbn [mbind option_bind].
    unfold opponent_flags, opponent_closeness, opponent_length, maxDist,
      maxLength, nearest, relative_flags, one_hot.
    fold other. subst food.
    destruct (game.Snake.Alive other) eqn:Ealive;
      [rewrite (Hother eq_refl)|];
      destruct (game.Food.Active (game.GameState.Food state));
      destruct dir eqn:Edir; subst dir; rewrite ?Edir;
      unfold storeRelative; cbn [mbind option_bind game.Direction_to_int];
      repeat (rewrite store_Some
                by (rewrite ?length_insert, ?length_replicate; simpl; lia);
              cbn [mbind option_bind]);
      rewrite !setBody0_tempSnake, !NextHead_tempSnake;
      cbn [mbind option_bind];
      rewrite (isDangerExtended_or _ _ _ _ _ _ Hds Hds2),
              (isDangerExtended_or _ _ _ _ _ _ Hdl Hdl2),
              (isDangerExtended_or _ _ _ _ _ _ Hdr Hdr2);
      cbn [mbind option_bind];
      repeat (rewrite store_Some
                by (rewrite ?length_insert, ?length_replicate; simpl; lia);
              cbn [mbind option_bind]);
      reflexivity.
Qed.

End EncoderLayout.

(* ================================================================== *)
(** * The replay buffer after [Clear] *)
(* ================================================================== *)

Section ClearFacts.
Import ai.
Context `{rand.API}.

Lemma Clear_ring (rb : ReplayBuffer.t) :
  length (ReplayBuffer.buffer rb) = ReplayBuffer.capacity rb ->
  ring (ReplayBuffer.capacity rb) [] (Clear rb).
Proof.
  intros Hlen. unfold ring, Clear. simpl.
  split; [done|]. split; [done|]. split; [by rewrite Nat.Div0.mod_0_l|].
  split; [done|]. intros; lia.
Qed.

(** X21: [Clear] forgets every stored transition although it leaves the
    slots as they are. After [Clear] the buffer reports size 0, and once
    transitions are added again it behaves as a new buffer would: its
    size is the number added, capped by the capacity, it is full exactly
    when at least that many were added, and a sampled batch holds none of
    the transitions stored before the [Clear], only ones among the last
    [capacity] added since. ([Perm] is assumed to return a
    permutation.) *)
Theorem Clear_forgets_everything (rb : ReplayBuffer.t)
    (exps : list Experience.t) (batchSize : Z) :
  rand.Perm_contract ->
  length (ReplayBuffer.buffer rb) = ReplayBuffer.capacity rb ->
  0 < ReplayBuffer.capacity rb ->
  (0 <= batchSize)%Z ->
  let c := ReplayBuffer.capacity rb in
  let n := length exps in
  Size (Clear rb) = 0%Z /\
  ReplayBuffer.buffer (Clear rb) = ReplayBuffer.buffer rb /\
  exists rb' batch rb'',
    addAll (Clear rb) exps = Some rb' /\
    Size rb' = Z.of_nat (min n c) /\
    IsFull rb' = (c <=? n) /\
    Sample rb' batchSize = Some (batch, rb'') /\
    Forall (fun e => e ∈ drop (n - c) exps) batch.
Proof.
  intros Hperm Hlen Hcap Hbs c n.
  split; [done|]. split; [done|].
  destruct (addAll_ring c exps [] (Clear rb) Hcap (Clear_ring rb Hlen))
    as (rb' & Hadd & Hring).
  simpl in Hring.
  pose proof Hring as (Hc & Hl & Hp & Hs & Hslots). fold n in Hs, Hp, Hslots.
  destruct (Sample_reads_stored rb' batchSize Hperm) as (batch & rb'' & Hsam & Hread);
    [lia|done|].
  exists rb', batch, rb''. split; [exact Hadd|].
  split; [unfold Size; by rewrite Hs|]. split.
  { unfold IsFull. rewrite Hs, Hc.
    destruct (Nat.leb_spec c n); [apply Nat.eqb_eq|apply Nat.eqb_neq]; lia. }
  split; [exact Hsam|].
  eapply Forall_impl; [exact Hread|]. intros e (i & Hi & He). simpl in *.
  destruct (Nat.le_gt_cases c n) as [Hfull|Hpart].
  - pose proof (ring_full_Permutation c exps rb' Hcap Hfull Hring) as Hperm'.
    fold n in Hperm'. rewrite <- Hperm'. by eapply list_elem_of_lookup_2.
  - replace (n - c) with 0 by lia. rewrite drop_0.
    assert (Hin : i < n) by lia.
    specialize (Hslots i Hin ltac:(lia)).
    rewrite Nat.mod_small in Hslots by lia.
    rewrite He in Hslots. by eapply list_elem_of_lookup_2.
Qed.

End ClearFacts.

(* ================================================================== *)
(** * Saving and loading *)
(* ================================================================== *)

Section LoadingFacts.
Import ai.
Context `{rand.API} `{gob.API}.

Lemma LoadNetwork_succeeds (path : string) (net : QNetwork.t) :
  LoadNetwork path = inl net <->
  exists file, gob.Open path = inl file /\
    ((exists w, gob.Decode file = inl w /\ net = restored w) \/
     (exists e l, gob.Decode file = inr e /\ gob.DecodeLegacy file = inl l /\
                  net = restored (converted l))).
Proof.
  unfold LoadNetwork. destruct (gob.Open path) as [file|err] eqn:Eo.
  - destruct (gob.Decode file) as [w|e] eqn:Ed.
    + split.
      * intros [= <-]. exists file. split; [done|]. left. by exists w.
      * intros (f & [= <-] & [(w' & Hw & ->)|(e & l & He & _)]);
          [|congruence].
        rewrite Ed in Hw. by injection Hw as <-.
    + destruct (gob.DecodeLegacy file) as [l|e'] eqn:El.
      * split.
        -- intros [= <-]. exists file. split; [done|]. right. by exists e, l.
        -- intros (f & [= <-] & [(w' & Hw & _)|(e0 & l' & _ & Hl & ->)]);
             [congruence|].
           rewrite El in Hl. by injection Hl as <-.
      * split; [done|].
        intros (f & [= <-] & [(w' & Hw & _)|(e0 & l' & _ & Hl & _)]); congruence.
  - split; [done|]. by intros (f & Hf & _).
Qed.

(** X22: a successful [Load]. [LoadNetwork] succeeds exactly when the
    file opens and one of the two formats decodes, the current format
    being tried first; it builds the network from the decoded fields as
    they are, a legacy record giving its biases from the vector fields,
    and checks nothing. When the loaded network is well sized, [Load]
    makes it the policy network, makes the target network a copy with the
    same weights, reports no error, and leaves epsilon, the step counter,
    the replay buffer and every other setting of the agent as they
    were. *)
Theorem Load_success_replaces_both_networks (a : DQNAgent.t) (path : string)
    (net : QNetwork.t) :
  (LoadNetwork path = inl net <->
   exists file, gob.Open path = inl file /\
     ((exists w, gob.Decode file = inl w /\ net = restored w) \/
      (exists e l, gob.Decode file = inr e /\ gob.DecodeLegacy file = inl l /\
                   net = restored (converted l)))) /\
  (LoadNetwork path = inl net -> well_shaped net ->
   exists target,
     Load a path
       = Some (DQNAgent.set_TargetNet (DQNAgent.set_PolicyNet a net) target,
               None) /\
     weights_of target = weights_of net /\
     well_shaped target /\
     forall x, Forward target x = Forward net x).
Proof.
  split; [apply LoadNetwork_succeeds|].
  intros Hload Hws. unfold Load. rewrite Hload.
  destruct (Clone_well_shaped net Hws) as (target & Hc & Hw & Hs).
  rewrite Hc. simpl. exists target. split; [done|]. split; [exact Hw|].
  split.
  - destruct (Clone_dims _ _ Hc) as (Ci & C1 & C2 & Co & _).
    by eapply well_shaped_transfer.
  - intros x. by apply Forward_weights.
Qed.

End LoadingFacts.

Section SavingFacts.
Import ai.
Context `{rand.API} `{disk.Codec}.

Lemma write_lookup (d : disk.Disk) (path p : string) (content : disk.File) :
  disk.write d path content p = if String.eqb p path then Some content else d p.
Proof. reflexivity. Qed.

(** X23: saving and loading round-trip. If the file can be created and
    the decoder reads back the record the encoder wrote, then after
    [Save] of an agent's policy network, a [Load] of that path into any
    agent succeeds and gives it a policy network with exactly the saved
    weights, widths and learning rate, and a target network with the
    same weights; the loaded agent reports the same Q-values as the saved
    one. Epsilon, the step counter and the replay buffer are not part of
    the file: the loading agent keeps its own. No other path of the disk
    changes; if the file cannot be created, the disk is left as it was
    and the error is returned. *)
Theorem Save_then_Load_round_trip (a b : DQNAgent.t) (path : string)
    (d : disk.Disk) :
  (forall err, disk.Create path = Some err ->
     DQNAgent_Save a path d = (d, Some err)) /\
  (disk.Create path = None ->
   disk.Decode (disk.Encode (saved (DQNAgent.PolicyNet a))).1
     = inl (saved (DQNAgent.PolicyNet a)) ->
   well_shaped (DQNAgent.PolicyNet a) ->
   let d' := (DQNAgent_Save a path d).1 in
   (forall p, p <> path -> d' p = d p) /\
   exists b',
     Load (H0 := disk.reader d') b path = Some (b', None) /\
     weights_of (DQNAgent.PolicyNet b') = weights_of (DQNAgent.PolicyNet a) /\
     weights_of (DQNAgent.TargetNet b') = weights_of (DQNAgent.PolicyNet a) /\
     QNetwork.InputSize (DQNAgent.PolicyNet b')
       = QNetwork.InputSize (DQNAgent.PolicyNet a) /\
     QNetwork.OutputSize (DQNAgent.PolicyNet b')
       = QNetwork.OutputSize (DQNAgent.PolicyNet a) /\
     QNetwork.LearningRate (DQNAgent.PolicyNet b')
       = QNetwork.LearningRate (DQNAgent.PolicyNet a) /\
     DQNAgent.Epsilon b' = DQNAgent.Epsilon b /\
     DQNAgent.StepCount b' = DQNAgent.StepCount b /\
     DQNAgent.ReplayBuffer b' = DQNAgent.ReplayBuffer b /\
     forall x, GetQValues b' x = GetQValues a x).
Proof.
  split.
  - intros err Hc. unfold DQNAgent_Save, Save. by rewrite Hc.
  - intros Hc Hdec Hws d'.
    assert (Hd' : d' = disk.write d path
                    (disk.Encode (saved (DQNAgent.PolicyNet a))).1).
    { subst d'. unfold DQNAgent_Save, Save. rewrite Hc.
      fold (saved (DQNAgent.PolicyNet a)).
      by destruct (disk.Encode (saved (DQNAgent.PolicyNet a))). }
    split.
    { intros p Hp. rewrite Hd', write_lookup.
      destruct (String.eqb_spec p path); done. }
    set (net := restored (saved (DQNAgent.PolicyNet a))).
    assert (Hload : LoadNetwork (H0 := disk.reader d') path = inl net).
    { unfold LoadNetwork. simpl. rewrite Hd', write_lookup, String.eqb_refl.
      rewrite Hdec. done. }
    assert (Hnet : weights_of net = weights_of (DQNAgent.PolicyNet a)) by done.
    assert (Hwsn : well_shaped net) by exact Hws.
    destruct (Clone_well_shaped net Hwsn) as (target & Hcl & Hw & _).
    exists (DQNAgent.set_TargetNet (DQNAgent.set_PolicyNet b net) target).
    split.
    { unfold Load. rewrite Hload, Hcl. done. }
    simpl. split; [done|]. split; [congruence|].
    do 6 (split; [done|]).
    intros x. unfold GetQValues. simpl. by apply Forward_weights.
Qed.

End SavingFacts.

(* ================================================================== *)
(** * The game loop *)
(* ================================================================== *)

Section GameLoop.
Import ai.
Context `{rand.API}.
Local Open Scope Z_scope.

Lemma cells_elem (width height : Z) (pos : game.Position) :
  pos ∈ Game.cells width height <->
  0 <= game.X pos < width /\ 0 <= game.Y pos < height.
Proof.
  unfold Game.cells. rewrite list_elem_of_In, in_flat_map. split.
  - intros (x & Hx & Hin). apply in_map_iff in Hin as (y & <- & Hy).
    apply in_seq in Hx, Hy. simpl. lia.
  - intros [Hx Hy]. exists (Z.to_nat (game.X pos)). split.
    + apply in_seq. lia.
    + apply in_map_iff. exists (Z.to_nat (game.Y pos)). split.
      * destruct pos as [px py]. simpl in *. f_equal; lia.
      * apply in_seq. lia.
Qed.

Lemma occupied_elem (snakes : game.Snake.t * game.Snake.t) (pos : game.Position) :
  Game.occupied snakes pos = true <->
  pos ∈ game.Snake.Body snakes.1 \/ pos ∈ game.Snake.Body snakes.2.
Proof.
  unfold Game.occupied. rewrite existsb_exists. split.
  - intros (seg & Hin & Heq). apply Equals_eq in Heq as ->.
    apply in_app_or in Hin as [Hin|Hin]; [left|right]; by apply list_elem_of_In.
  - intros Hin. exists pos. split; [|by apply Equals_eq].
    apply in_or_app. destruct Hin as [Hin|Hin]; [left|right];
      by apply list_elem_of_In.
Qed.

Lemma free_cell_filter (st : game.GameState.t) (pos : game.Position) :
  In pos (List.filter
            (fun pos => negb (Game.occupied (game.GameState.Snakes st) pos))
            (Game.cells (game.GameState.Width st) (game.GameState.Height st)))
  <-> free_cell st pos.
Proof.
  rewrite filter_In, <- list_elem_of_In, cells_elem, negb_true_iff.
  unfold free_cell. split.
  - intros ((Hx & Hy) & Hocc). split; [done|]. split; [done|].
    split; intros Hin;
      (assert (Game.occupied (game.GameState.Snakes st) pos = true)
         by (apply occupied_elem; tauto)); congruence.
  - intros (Hx & Hy & H1 & H2). split; [done|].
    apply not_true_is_false. intros Hocc%occupied_elem. tauto.
Qed.

Lemma spawnFood_free (g : Game.t) :
  Intn_contract ->
  exists g', Game.spawnFood g = Some g' /\
    Game.State g' = Game.set_Food (Game.State g)
                      (game.GameState.Food (Game.State g')) /\
    ((exists pos, free_cell (Game.State g) pos) ->
     game.Food.Active (game.GameState.Food (Game.State g')) = true /\
     free_cell (Game.State g)
       (game.Food.Position (game.GameState.Food (Game.State g')))) /\
    ((forall pos, ~ free_cell (Game.State g) pos) ->
     game.GameState.Food (Game.State g')
       = game.Food.mk
           (game.Food.Position (game.GameState.Food (Game.State g))) false /\
     Game.rng g' = Game.rng g).
Proof.
  intros Hintn. unfold Game.spawnFood.
  set (free := List.filter _ _).
  assert (Hfree : forall pos, In pos free <-> free_cell (Game.State g) pos)
    by (intros pos; apply free_cell_filter).
  destruct (Z.ltb_spec 0 (Z.of_nat (length free))) as [Hpos|Hnone].
  - specialize (Hintn (Game.rng g) _ Hpos).
    destruct (rand.Intn (Game.rng g) (Z.of_nat (length free))) as [idx rng'].
    simpl in Hintn. unfold GoInt.index.
    destruct (Z.ltb_spec idx 0); [lia|].
    destruct (lookup_lt_is_Some_2 free (Z.to_nat idx)) as [pos Hpos']; [lia|].
    rewrite Hpos'. simpl. eexists. split; [reflexivity|]. simpl.
    split; [done|]. split.
    + intros _. split; [done|]. apply Hfree, list_elem_of_In.
      by eapply list_elem_of_lookup_2.
    + intros Hno. exfalso. apply (Hno pos), Hfree, list_elem_of_In.
      by eapply list_elem_of_lookup_2.
  - eexists. split; [reflexivity|]. simpl. split; [done|]. split.
    + intros [pos Hpos]. apply Hfree in Hpos.
      destruct free; [done|simpl in Hnone; lia].
    + done.
Qed.

(** X24: [spawnFood] changes nothing but the food and the generator. For
    draws of [Intn] inside their bound it never panics; when some cell of
    the board is in neither snake's body, the food becomes active on such
    a cell; when there is none, the food becomes inactive where it was,
    and no number is drawn. *)
Theorem spawnFood_picks_a_free_cell (g : Game.t) :
  Intn_contract ->
  exists g', Game.spawnFood g = Some g' /\
    game.GameState.Snakes (Game.State g') = game.GameState.Snakes (Game.State g) /\
    game.GameState.Width (Game.State g') = game.GameState.Width (Game.State g) /\
    game.GameState.Height (Game.State g') = game.GameState.Height (Game.State g) /\
    game.GameState.Turn (Game.State g') = game.GameState.Turn (Game.State g) /\
    game.GameState.GameOver (Game.State g')
      = game.GameState.GameOver (Game.State g) /\
    game.GameState.Winner (Game.State g') = game.GameState.Winner (Game.State g) /\
    ((exists pos, free_cell (Game.State g) pos) ->
     game.Food.Active (game.GameState.Food (Game.State g')) = true /\
     free_cell (Game.State g)
       (game.Food.Position (game.GameState.Food (Game.State g')))) /\
    ((forall pos, ~ free_cell (Game.State g) pos) ->
     game.GameState.Food (Game.State g')
       = game.Food.mk
           (game.Food.Position (game.GameState.Food (Game.State g))) false /\
     Game.rng g' = Game.rng g).
Proof.
  intros Hintn. destruct (spawnFood_free g Hintn) as (g' & Hs & Hst & Hyes & Hno).
  exists g'. split; [exact Hs|]. rewrite Hst at 1 2 3 4 5 6. simpl.
  do 6 (split; [done|]). split; [exact Hyes|exact Hno].
Qed.

Lemma NewSnake_three (id : Z) (head : game.Position) (dir : game.Direction) :
  game.NewSnake id head dir 3
  = Some (game.Snake.mk id
            [head; cell_behind head dir; cell_behind (cell_behind head dir) dir]
            dir true 0 false).
Proof.
  unfold game.NewSnake. simpl.
  assert (Hseg : forall dx dy,
    game.mkPosition (GoInt.add (game.X head) (GoInt.mul dx 1))
                    (GoInt.add (game.Y head) (GoInt.mul dy 1))
      = game.Add head dx dy /\
    game.mkPosition (GoInt.add (game.X head) (GoInt.mul dx (1 + 1)))
                    (GoInt.add (game.Y head) (GoInt.mul dy (1 + 1)))
      = game.Add (game.Add head dx dy) dx dy).
  { intros dx dy. unfold game.Add, GoInt.add, GoInt.mul. simpl.
    rewrite !wrap64_add_r, !wrap64_add_l.
    split; f_equal; f_equal; lia. }
  unfold cell_behind, cell_ahead.
  destruct dir; simpl.
  - destruct (Hseg 0 1) as [-> ->]. done.
  - destruct (Hseg 0 (-1)) as [-> ->]. done.
  - destruct (Hseg 1 0) as [-> ->]. done.
  - destruct (Hseg (-1) 0) as [-> ->]. done.
Qed.

Lemma Reset_fresh (g : Game.t) :
  Intn_contract ->
  exists g', Game.Reset g = Some g' /\
    fresh_layout (game.GameState.Width (Game.State g))
                 (game.GameState.Height (Game.State g)) g'.
Proof.
  intros Hintn. unfold Game.Reset. rewrite !NewSnake_three. simpl.
  match goal with |- context [Game.spawnFood ?g1] =>
    destruct (spawnFood_free g1 Hintn) as (g2 & -> & Hst & Hyes & Hno) end.
  simpl. eexists. split; [reflexivity|].
  unfold fresh_layout. simpl. rewrite Hst. simpl in *.
  do 6 (split; [done|]). split.
  - intros Hfree. apply Hyes. destruct Hfree as [pos Hpos]. by exists pos.
  - intros Hnone. destruct Hno as [-> _]; [|done].
    intros pos Hpos. by apply (Hnone pos).
Qed.

(** X25: [Reset] and [NewGame] never panic, for draws of [Intn] inside
    their bound, whatever the size of the board. They leave a game at
    turn 0 that is not over and has no winner (-1), with two living
    snakes of three segments and score 0 in a straight line at
    mid-height: snake 0 heading right with its head in column 3, snake 1
    heading left with its head in the fourth column from the right; the
    food is active on a cell of the board in neither body, if there is
    one. On a board at least 8 wide and 1 high (and below 2^62) the
    snakes lie on the board on distinct cells and the food is active. *)
Theorem Reset_lays_out_a_new_game :
  Intn_contract ->
  (forall g, exists g', Game.Reset g = Some g' /\
     fresh_layout (game.GameState.Width (Game.State g))
                  (game.GameState.Height (Game.State g)) g') /\
  (forall cfg seed, exists g', Game.NewGame cfg seed = Some g' /\
     fresh_layout (config.BoardWidth cfg) (config.BoardHeight cfg) g') /\
  (forall width height g,
     fresh_layout width height g ->
     8 <= width < 2 ^ 62 -> 1 <= height < 2 ^ 62 ->
     let y := Z.quot height 2 in
     let st := Game.State g in
     game.Snake.Body (game.GameState.Snakes st).1
       = [game.mkPosition 3 y; game.mkPosition 2 y; game.mkPosition 1 y] /\
     game.Snake.Body (game.GameState.Snakes st).2
       = [game.mkPosition (width - 4) y; game.mkPosition (width - 3) y;
          game.mkPosition (width - 2) y] /\
     0 <= y < height /\
     (forall pos, pos ∈ game.Snake.Body (game.GameState.Snakes st).1 ->
        pos ∉ game.Snake.Body (game.GameState.Snakes st).2) /\
     game.Food.Active (game.GameState.Food st) = true).
Proof.
  intros Hintn. split; [|split].
  - intros g. by apply Reset_fresh.
  - intros cfg seed. unfold Game.NewGame.
    match goal with |- context [Game.Reset ?g0] =>
      destruct (Reset_fresh g0 Hintn) as (g' & -> & Hl) end.
    by exists g'.
  - intros width height g (Hw & Hh & _ & _ & _ & Hs & Hyes & _) Hwidth Hheight y st.
    fold st in Hw, Hh, Hs, Hyes.
    assert (Hy : 0 <= y < height).
    { subst y. split; [apply Z.quot_pos; lia|].
      apply Z.quot_lt_upper_bound; lia. }
    assert (Hlim : 2 ^ 62 * 2 = 2 ^ 63) by done.
    assert (Hb0 : game.Snake.Body (game.GameState.Snakes st).1
                  = [game.mkPosition 3 y; game.mkPosition 2 y; game.mkPosition 1 y]).
    { rewrite Hs. simpl. unfold cell_behind, cell_ahead, game.Add, GoInt.add.
      simpl. fold y.
      rewrite !(wrap64_in_range (y + 0)) by (unfold GoInt.in_range; lia).
      rewrite !Z.add_0_r.
      rewrite !(wrap64_in_range y) by (unfold GoInt.in_range; lia). done. }
    assert (Hb1 : game.Snake.Body (game.GameState.Snakes st).2
                  = [game.mkPosition (width - 4) y; game.mkPosition (width - 3) y;
                     game.mkPosition (width - 2) y]).
    { rewrite Hs. simpl. unfold cell_behind, cell_ahead, game.Add, GoInt.add,
        GoInt.sub. simpl. fold y.
      rewrite !(wrap64_in_range (y + 0)) by (unfold GoInt.in_range; lia).
      rewrite !Z.add_0_r.
      rewrite !(wrap64_in_range y) by (unfold GoInt.in_range; lia).
      rewrite (wrap64_in_range (width - 4)) by (unfold GoInt.in_range; lia).
      rewrite (wrap64_in_range (width - 4 + 1)) by (unfold GoInt.in_range; lia).
      rewrite (wrap64_in_range (width - 4 + 1 + 1))
        by (unfold GoInt.in_range; lia).
      repeat f_equal; lia. }
    split; [exact Hb0|]. split; [exact Hb1|]. split; [exact Hy|].
    split.
    + intros pos. rewrite Hb0, Hb1. intros Hin Hin'.
      repeat (apply elem_of_cons in Hin as [->|Hin]);
        try (by apply elem_of_nil in Hin);
        repeat (apply elem_of_cons in Hin' as [Heq|Hin']);
        try (by apply elem_of_nil in Hin');
        injection Heq as Hx; lia.
    + apply Hyes. exists (game.mkPosition 0 y).
      unfold free_cell. rewrite Hw, Hh, Hb0, Hb1. simpl.
      split; [lia|]. split; [lia|].
      split; intros Hin;
        repeat (apply elem_of_cons in Hin as [Heq|Hin]);
        try (by apply elem_of_nil in Hin); injection Heq as Hx; lia.
Qed.

End GameLoop.

Section StepFacts.
Import ai.
Context `{rand.API}.
Local Open Scope Z_scope.

Lemma ContainsPosition_head (s : game.Snake.t) (head : game.Position) :
  game.Head s = Some head -> game.ContainsPosition s head false = true.
Proof.
  intros Hh. apply ContainsPosition_elem. simpl. rewrite drop_0.
  unfold game.Head in Hh. by eapply list_elem_of_lookup_2.
Qed.

Lemma ContainsPosition_short (s : game.Snake.t) (pos : game.Position) :
  (length (game.Snake.Body s) < 2)%nat ->
  game.ContainsPosition s pos true = false.
Proof.
  intros Hl. unfold game.ContainsPosition.
  destruct (game.Snake.Body s) as [|a [|b rest]]; simpl in *; try done. lia.
Qed.

Lemma dies_hits (me other : game.Snake.t) (width height : Z) :
  dies me other width height = true <-> hits me other width height.
Proof.
  unfold dies, hits. destruct (game.Head me) as [head|]; [|split; [done|]].
  - rewrite !orb_true_iff, CheckWallCollision_off_board.
    rewrite (ContainsPosition_elem me head true),
            (ContainsPosition_elem other head false).
    simpl. rewrite drop_0. split.
    + intros Hc. exists head. split; [done|]. tauto.
    + intros (h & [= <-] & Hc). tauto.
  - by intros (h & Hh & _).
Qed.

Lemma non_empty_length {A} (l1 l2 : list A) :
  (0 <? length (l1 ++ l2))%nat = (0 <? length l1)%nat || (0 <? length l2)%nat.
Proof. by destruct l1, l2. Qed.

(** The collisions [CheckAllCollisions] lists for a living snake are not
    empty exactly when the snake hits something. *)
Lemma CheckAllCollisions_died (m0 m1 : game.Snake.t) (width height : Z)
    (n0 n1 : game.Position) :
  game.Snake.Alive m0 = true -> game.Snake.Alive m1 = true ->
  game.Head m0 = Some n0 -> game.Head m1 = Some n1 ->
  exists c0 c1,
    game.CheckAllCollisions (m0, m1) width height = Some (c0, c1) /\
    (0 <? length c0)%nat = dies m0 m1 width height /\
    (0 <? length c1)%nat = dies m1 m0 width height.
Proof.
  intros Ha0 Ha1 Hh0 Hh1.
  unfold game.CheckAllCollisions, game.ownCollisions, game.CheckSelfCollision,
    game.CheckHeadToHeadCollision, game.CheckSnakeCollision, dies.
  simpl. rewrite Ha0, Ha1, Hh0, Hh1. simpl.
  assert (Hself0 : (if (length (game.Snake.Body m0) <? 2)%nat then Some false
                    else Some (game.ContainsPosition m0 n0 true))
                   = Some (game.ContainsPosition m0 n0 true)).
  { destruct (Nat.ltb_spec (length (game.Snake.Body m0)) 2); [|done].
    by rewrite ContainsPosition_short. }
  assert (Hself1 : (if (length (game.Snake.Body m1) <? 2)%nat then Some false
                    else Some (game.ContainsPosition m1 n1 true))
                   = Some (game.ContainsPosition m1 n1 true)).
  { destruct (Nat.ltb_spec (length (game.Snake.Body m1)) 2); [|done].
    by rewrite ContainsPosition_short. }
  rewrite Hself0, Hself1. simpl.
  destruct (game.Equals n0 n1) eqn:Eh; simpl.
  - apply Equals_eq in Eh as <-.
    rewrite (ContainsPosition_head m1 n0 Hh1), (ContainsPosition_head m0 n0 Hh0).
    rewrite !orb_true_r. eexists _, _. split; [reflexivity|].
    rewrite !non_empty_length. simpl. by rewrite !orb_true_r.
  - destruct (game.ContainsPosition m1 n0 false),
             (game.ContainsPosition m0 n1 false); simpl;
      (eexists _, _; split; [reflexivity|]);
      rewrite ?non_empty_length; simpl;
      destruct (game.CheckWallCollision n0 width height),
               (game.CheckWallCollision n1 width height),
               (game.ContainsPosition m0 n0 true),
               (game.ContainsPosition m1 n1 true); done.
Qed.

Lemma willEat_alive (st : game.GameState.t) (s : game.Snake.t)
    (head : game.Position) (action : game.Direction) :
  game.Snake.Alive s = true -> game.Head s = Some head ->
  Game.willEat st s action
  = Some (game.Food.Active (game.GameState.Food st)
          && game.Equals (cell_ahead head action)
               (game.Food.Position (game.GameState.Food st))).
Proof.
  intros Ha Hh. unfold Game.willEat.
  by rewrite Ha, (NextHead_cell_ahead s head action Hh).
Qed.

Lemma after_move_alive (s : game.Snake.t) (head : game.Position)
    (action : game.Direction) (eats : bool) :
  game.Snake.Alive s = true -> game.Head s = Some head ->
  game.Snake.Body (after_move s action eats)
    = cell_ahead head (effective s action) ::
        (if eats then game.Snake.Body s
         else take (length (game.Snake.Body s) - 1) (game.Snake.Body s)) /\
  game.Head (after_move s action eats)
    = Some (cell_ahead head (effective s action)) /\
  game.Snake.Alive (after_move s action eats) = true /\
  game.Snake.Direction (after_move s action eats) = effective s action /\
  game.Snake.Score (after_move s action eats)
    = (if eats then GoInt.add (game.Snake.Score s) 1 else game.Snake.Score s) /\
  game.Snake.ID (after_move s action eats) = game.Snake.ID s /\
  game.Snake.Grew (after_move s action eats) = eats.
Proof.
  intros Ha Hh. unfold after_move.
  rewrite (Move_alive s action eats head Ha Hh). by destruct eats.
Qed.

(** One turn of a game that is not over, both snakes alive. *)
Lemma Step_running (g : Game.t) (a0 a1 : game.Direction)
    (h0 h1 : game.Position) :
  Intn_contract ->
  let st := Game.State g in
  let s0 := (game.GameState.Snakes st).1 in
  let s1 := (game.GameState.Snakes st).2 in
  let food := game.GameState.Food st in
  game.GameState.GameOver st = false ->
  game.Snake.Alive s0 = true -> game.Snake.Alive s1 = true ->
  game.Head s0 = Some h0 -> game.Head s1 = Some h1 ->
  let eat0 := game.Food.Active food
              && game.Equals (cell_ahead h0 a0) (game.Food.Position food) in
  let eat1 := game.Food.Active food
              && game.Equals (cell_ahead h1 a1) (game.Food.Position food) in
  let m0 := after_move s0 a0 eat0 in
  let m1 := after_move s1 a1 eat1 in
  let g1 := Game.mk _
              (Game.set_Snakes
                 (Game.set_Turn st (GoInt.add (game.GameState.Turn st) 1))
                 (m0, m1))
              (Game.rng g) in
  exists g2,
    (if eat0 || eat1 then Game.spawnFood g1 else Some g1) = Some g2 /\
    Game.State g2
      = Game.set_Food (Game.State g1) (game.GameState.Food (Game.State g2)) /\
    let d0 := dies m0 m1 (game.GameState.Width st) (game.GameState.Height st) in
    let d1 := dies m1 m0 (game.GameState.Width st) (game.GameState.Height st) in
    let st3 := Game.set_Snakes (Game.State g2) (survivor d0 m0, survivor d1 m1) in
    Game.Step g (a0, a1)
    = Some (Game.mk _
              (if (outcome d0 d1).1
               then Game.set_Over st3 true (outcome d0 d1).2 else st3)
              (Game.rng g2),
            StepResult.mk (game.calculateRewards (eat0, eat1) (d0, d1))
              (eat0, eat1) (d0, d1) (outcome d0 d1).1 (outcome d0 d1).2).
Proof.
  intros Hintn st s0 s1 food Hover Ha0 Ha1 Hh0 Hh1 eat0 eat1 m0 m1 g1.
  assert (Hg2 : exists g2,
            (if eat0 || eat1 then Game.spawnFood g1 else Some g1) = Some g2 /\
            Game.State g2
            = Game.set_Food (Game.State g1) (game.GameState.Food (Game.State g2))).
  { destruct (eat0 || eat1).
    - destruct (spawnFood_free g1 Hintn) as (g2 & Hs & Hst & _). by exists g2.
    - exists g1. split; [done|]. by destruct g1 as [[] ?]. }
  destruct Hg2 as (g2 & Hspawn & Hst2). exists g2.
  split; [exact Hspawn|]. split; [exact Hst2|].
  intros d0 d1 st3.
  destruct (after_move_alive s0 h0 a0 eat0 Ha0 Hh0) as (_ & Hn0 & Hm0 & _).
  destruct (after_move_alive s1 h1 a1 eat1 Ha1 Hh1) as (_ & Hn1 & Hm1 & _).
  fold m0 in Hn0, Hm0. fold m1 in Hn1, Hm1.
  destruct (CheckAllCollisions_died m0 m1 (game.GameState.Width st)
              (game.GameState.Height st) _ _ Hm0 Hm1 Hn0 Hn1)
    as (c0 & c1 & Hcoll & Hd0 & Hd1).
  fold d0 in Hd0. fold d1 in Hd1.
  unfold Game.Step. fold st. rewrite Hover.
  cbn [game.GameState.Snakes Game.set_Turn game.GameState.Food fst snd].
  fold s0 s1.
  rewrite (willEat_alive _ s0 h0 a0 Ha0 Hh0), (willEat_alive _ s1 h1 a1 Ha1 Hh1).
  cbn [mbind option_bind].
  change (game.GameState.Food
            (Game.set_Turn st (GoInt.add (game.GameState.Turn st) 1)))
    with food.
  fold eat0 eat1. rewrite Ha0, Ha1.
  rewrite (Move_alive s0 a0 eat0 h0 Ha0 Hh0), (Move_alive s1 a1 eat1 h1 Ha1 Hh1).
  cbn [mbind option_bind].
  assert (Em0 : (if eat0
                 then Game.scored
                   {| game.Snake.ID := game.Snake.ID s0;
                      game.Snake.Body :=
                        cell_ahead h0 (effective s0 a0) ::
                          (if eat0 then game.Snake.Body s0
                           else take (length (game.Snake.Body s0) - 1)
                                  (game.Snake.Body s0));
                      game.Snake.Direction := effective s0 a0;
                      game.Snake.Alive := true;
                      game.Snake.Score := game.Snake.Score s0;
                      game.Snake.Grew := eat0 |}
                 else
                   {| game.Snake.ID := game.Snake.ID s0;
                      game.Snake.Body :=
                        cell_ahead h0 (effective s0 a0) ::
                          (if eat0 then game.Snake.Body s0
                           else take (length (game.Snake.Body s0) - 1)
                                  (game.Snake.Body s0));
                      game.Snake.Direction := effective s0 a0;
                      game.Snake.Alive := true;
                      game.Snake.Score := game.Snake.Score s0;
                      game.Snake.Grew := eat0 |}) = m0).
  { subst m0. unfold after_move.
    by rewrite (Move_alive s0 a0 eat0 h0 Ha0 Hh0). }
  assert (Em1 : (if eat1
                 then Game.scored
                   {| game.Snake.ID := game.Snake.ID s1;
                      game.Snake.Body :=
                        cell_ahead h1 (effective s1 a1) ::
                          (if eat1 then game.Snake.Body s1
                           else take (length (game.Snake.Body s1) - 1)
                                  (game.Snake.Body s1));
                      game.Snake.Direction := effective s1 a1;
                      game.Snake.Alive := true;
                      game.Snake.Score := game.Snake.Score s1;
                      game.Snake.Grew := eat1 |}
                 else
                   {| game.Snake.ID := game.Snake.ID s1;
                      game.Snake.Body :=
                        cell_ahead h1 (effective s1 a1) ::
                          (if eat1 then game.Snake.Body s1
                           else take (length (game.Snake.Body s1) - 1)
                                  (game.Snake.Body s1));
                      game.Snake.Direction := effective s1 a1;
                      game.Snake.Alive := true;
                      game.Snake.Score := game.Snake.Score s1;
                      game.Snake.Grew := eat1 |}) = m1).
  { subst m1. unfold after_move.
    by rewrite (Move_alive s1 a1 eat1 h1 Ha1 Hh1). }
  rewrite Em0, Em1. fold g1. rewrite Hspawn. cbn [mbind option_bind].
  assert (Hsn : game.GameState.Snakes (Game.State g2) = (m0, m1) /\
                game.GameState.Width (Game.State g2) = game.GameState.Width st /\
                game.GameState.Height (Game.State g2) = game.GameState.Height st).
  { rewrite Hst2. done. }
  destruct Hsn as (Hsn & Hw & Hh). rewrite Hsn, Hw, Hh, Hcoll.
  cbn [mbind option_bind fst snd]. rewrite Hd0, Hd1.
  subst st3. unfold survivor, outcome.
  destruct d0, d1; simpl; rewrite ?Hm0, ?Hm1; simpl; reflexivity.
Qed.

Lemma hits_survivor (m0 m1 : game.Snake.t) (d0 d1 : bool) (width height : Z) :
  hits (survivor d0 m0) (survivor d1 m1) width height <-> hits m0 m1 width height.
Proof. unfold hits, survivor. by destruct d0, d1. Qed.

Lemma free_cell_bodies (st st' : game.GameState.t) (pos : game.Position) :
  game.GameState.Width st' = game.GameState.Width st ->
  game.GameState.Height st' = game.GameState.Height st ->
  game.Snake.Body (game.GameState.Snakes st').1
    = game.Snake.Body (game.GameState.Snakes st).1 ->
  game.Snake.Body (game.GameState.Snakes st').2
    = game.Snake.Body (game.GameState.Snakes st).2 ->
  free_cell st' pos <-> free_cell st pos.
Proof. unfold free_cell. by intros -> -> -> ->. Qed.

(** X26: one turn of a running game with both snakes alive: movement and
    food. For draws of [Intn] inside their bound [Step] does not panic.
    The turn counter goes up by one and the board keeps its size. Each
    snake moves as [Move] moves it, one cell in the direction asked for
    or straight on if that is a reversal, and grows exactly when it eats.
    A snake eats exactly when the food is active on the cell one step
    from its head in the direction asked for; its score then goes up by
    one, and when the direction asked for is no reversal its new head is
    on the food's cell. When nobody eats, the food and the generator
    stay as they are; when somebody eats, new food is placed on a cell of
    the board that is in neither body after the move, or made inactive
    when there is no such cell. *)
Theorem Step_moves_and_feeds (g : Game.t) (a0 a1 : game.Direction)
    (h0 h1 : game.Position) :
  Intn_contract ->
  let st := Game.State g in
  let s0 := (game.GameState.Snakes st).1 in
  let s1 := (game.GameState.Snakes st).2 in
  let food := game.GameState.Food st in
  game.GameState.GameOver st = false ->
  game.Snake.Alive s0 = true -> game.Snake.Alive s1 = true ->
  game.Head s0 = Some h0 -> game.Head s1 = Some h1 ->
  exists g' r, Game.Step g (a0, a1) = Some (g', r) /\
    let st' := Game.State g' in
    let s0' := (game.GameState.Snakes st').1 in
    let s1' := (game.GameState.Snakes st').2 in
    let ate0 := (StepResult.AteFood r).1 in
    let ate1 := (StepResult.AteFood r).2 in
    game.GameState.Turn st' = GoInt.add (game.GameState.Turn st) 1 /\
    game.GameState.Width st' = game.GameState.Width st /\
    game.GameState.Height st' = game.GameState.Height st /\
    (ate0 = true <-> game.Food.Active food = true /\
                     cell_ahead h0 a0 = game.Food.Position food) /\
    (ate1 = true <-> game.Food.Active food = true /\
                     cell_ahead h1 a1 = game.Food.Position food) /\
    game.Snake.Body s0'
      = cell_ahead h0 (effective s0 a0) ::
          (if ate0 then game.Snake.Body s0
           else take (length (game.Snake.Body s0) - 1) (game.Snake.Body s0)) /\
    game.Snake.Body s1'
      = cell_ahead h1 (effective s1 a1) ::
          (if ate1 then game.Snake.Body s1
           else take (length (game.Snake.Body s1) - 1) (game.Snake.Body s1)) /\
    game.Snake.Direction s0' = effective s0 a0 /\
    game.Snake.Direction s1' = effective s1 a1 /\
    game.Snake.Score s0'
      = (if ate0 then GoInt.add (game.Snake.Score s0) 1
         else game.Snake.Score s0) /\
    game.Snake.Score s1'
      = (if ate1 then GoInt.add (game.Snake.Score s1) 1
         else game.Snake.Score s1) /\
    (game.IsValidAction (game.Snake.Direction s0) a0 = true -> ate0 = true ->
     game.Head s0' = Some (game.Food.Position food)) /\
    (game.IsValidAction (game.Snake.Direction s1) a1 = true -> ate1 = true ->
     game.Head s1' = Some (game.Food.Position food)) /\
    (ate0 = false -> ate1 = false ->
     game.GameState.Food st' = food /\ Game.rng g' = Game.rng g) /\
    (ate0 = true \/ ate1 = true ->
     ((exists pos, free_cell st' pos) ->
      game.Food.Active (game.GameState.Food st') = true /\
      free_cell st' (game.Food.Position (game.GameState.Food st'))) /\
     ((forall pos, ~ free_cell st' pos) ->
      game.GameState.Food st'
        = game.Food.mk (game.Food.Position food) false)).
Proof.
  intros Hintn st s0 s1 food Hover Ha0 Ha1 Hh0 Hh1.
  destruct (Step_running g a0 a1 h0 h1 Hintn Hover Ha0 Ha1 Hh0 Hh1)
    as (g2 & Hspawn & Hst2 & Hstep).
  fold st s0 s1 food in Hspawn, Hst2, Hstep.
  set (eat0 := game.Food.Active food
               && game.Equals (cell_ahead h0 a0) (game.Food.Position food)) in *.
  set (eat1 := game.Food.Active food
               && game.Equals (cell_ahead h1 a1) (game.Food.Position food)) in *.
  set (m0 := after_move s0 a0 eat0) in *.
  set (m1 := after_move s1 a1 eat1) in *.
  set (g1 := Game.mk _ _ (Game.rng g)) in *.
  cbv zeta in Hstep.
  set (d0 := dies m0 m1 _ _) in *. set (d1 := dies m1 m0 _ _) in *.
  eexists _, _. split; [exact Hstep|]. cbv zeta.
  cbn [Game.State Game.rng StepResult.AteFood fst snd].
  destruct (after_move_alive s0 h0 a0 eat0 Ha0 Hh0)
    as (Hb0 & Hn0 & _ & Hdir0 & Hsc0 & _).
  destruct (after_move_alive s1 h1 a1 eat1 Ha1 Hh1)
    as (Hb1 & Hn1 & _ & Hdir1 & Hsc1 & _).
  fold m0 in Hb0, Hn0, Hdir0, Hsc0. fold m1 in Hb1, Hn1, Hdir1, Hsc1.
  assert (Hfinal : forall st3,
    st3 = Game.set_Snakes (Game.State g2) (survivor d0 m0, survivor d1 m1) ->
    let st' := if (outcome d0 d1).1
               then Game.set_Over st3 true (outcome d0 d1).2 else st3 in
    game.GameState.Turn st' = GoInt.add (game.GameState.Turn st) 1 /\
    game.GameState.Width st' = game.GameState.Width st /\
    game.GameState.Height st' = game.GameState.Height st /\
    game.GameState.Food st' = game.GameState.Food (Game.State g2) /\
    (game.GameState.Snakes st').1 = survivor d0 m0 /\
    (game.GameState.Snakes st').2 = survivor d1 m1).
  { intros st3 ->. rewrite Hst2. by destruct (outcome d0 d1).1. }
  specialize (Hfinal _ eq_refl). cbv zeta in Hfinal.
  destruct Hfinal as (Ft & Fw & Fh & Ff & F0 & F1).
  rewrite Ft, Fw, Fh, Ff, F0, F1.
  assert (Hs0 : forall d, game.Snake.Body (survivor d m0) = game.Snake.Body m0 /\
                  game.Snake.Direction (survivor d m0) = game.Snake.Direction m0 /\
                  game.Snake.Score (survivor d m0) = game.Snake.Score m0 /\
                  game.Head (survivor d m0) = game.Head m0) by (by intros []).
  assert (Hs1 : forall d, game.Snake.Body (survivor d m1) = game.Snake.Body m1 /\
                  game.Snake.Direction (survivor d m1) = game.Snake.Direction m1 /\
                  game.Snake.Score (survivor d m1) = game.Snake.Score m1 /\
                  game.Head (survivor d m1) = game.Head m1) by (by intros []).
  destruct (Hs0 d0) as (-> & -> & -> & ->).
  destruct (Hs1 d1) as (-> & -> & -> & ->).
  assert (Heat : forall h a,
    game.Food.Active food
    && game.Equals (cell_ahead h a) (game.Food.Position food) = true <->
    game.Food.Active food = true /\ cell_ahead h a = game.Food.Position food).
  { intros h a. by rewrite andb_true_iff, Equals_eq. }
  assert (Hvalid : forall s a,
    game.IsValidAction (game.Snake.Direction s) a = true -> effective s a = a).
  { intros s a. unfold game.IsValidAction, effective.
    by destruct (game.Direction_eqb a _). }
  do 3 (split; [done|]). split; [apply Heat|]. split; [apply Heat|].
  do 6 (split; [done|]). split.
  { intros Hv He. rewrite Hn0, (Hvalid _ _ Hv). f_equal. by apply Heat. }
  split.
  { intros Hv He. rewrite Hn1, (Hvalid _ _ Hv). f_equal. by apply Heat. }
  split.
  { intros E0 E1. fold eat0 in E0. fold eat1 in E1.
    rewrite E0, E1 in Hspawn. simpl in Hspawn. injection Hspawn as <-. done. }
  intros Hate.
  assert (Hor : eat0 || eat1 = true).
  { apply orb_true_iff. exact Hate. }
  rewrite Hor in Hspawn.
  destruct (spawnFood_free g1 Hintn) as (g2' & Hs' & _ & Hyes & Hno).
  rewrite Hspawn in Hs'. injection Hs' as <-.
  assert (Hfree : forall pos,
    free_cell (if (outcome d0 d1).1
               then Game.set_Over
                      (Game.set_Snakes (Game.State g2)
                         (survivor d0 m0, survivor d1 m1)) true (outcome d0 d1).2
               else Game.set_Snakes (Game.State g2)
                      (survivor d0 m0, survivor d1 m1)) pos
    <-> free_cell (Game.State g1) pos).
  { intros pos. apply free_cell_bodies.
    - rewrite Hst2. by destruct (outcome d0 d1).1.
    - rewrite Hst2. by destruct (outcome d0 d1).1.
    - destruct (outcome d0 d1).1; simpl; by destruct d0.
    - destruct (outcome d0 d1).1; simpl; by destruct d1. }
  split.
  - intros [pos Hpos]. destruct Hyes as [Hact Hcell].
    { exists pos. by apply Hfree. }
    split; [exact Hact|]. by apply Hfree.
  - intros Hnone. apply Hno. intros pos Hpos. apply (Hnone pos). by apply Hfree.
Qed.

Lemma calculateRewards_signs (ate died : bool * bool) :
  let r := game.calculateRewards ate died in
  (died.1 = true -> r.1 = (-1)%float) /\
  (died.1 = false -> PrimFloat.ltb 0 r.1 = true) /\
  (died.2 = true -> r.2 = (-1)%float) /\
  (died.2 = false -> PrimFloat.ltb 0 r.2 = true).
Proof.
  destruct ate as [[] []], died as [[] []]; simpl;
    repeat split; intros; try done; reflexivity.
Qed.

(** X27: one turn of the game: deaths, winner and rewards. On a game
    that is over [Step] changes nothing and reports the game over with
    the stored winner, no death, no food and zero rewards. On a running
    game with both snakes alive (and draws of [Intn] inside their
    bound), a snake dies exactly when its head, after both snakes have
    moved, is off the board, on a later segment of its own body, or on
    any segment of the other snake, the other head included; the snakes
    that die are marked dead and no other. The game is over exactly when
    a snake died: the survivor wins, and two deaths are a tie (-1). A
    snake that died gets the reward -1, whatever it ate; a survivor gets
    a positive reward, 0.01 plus 0.5 for eating plus 1.0 if the other
    snake died. *)
Theorem Step_deaths_and_winner (g : Game.t) (a0 a1 : game.Direction) :
  let st := Game.State g in
  (game.GameState.GameOver st = true ->
   Game.Step g (a0, a1)
   = Some (g, StepResult.mk (0, 0)%float (false, false) (false, false) true
                (game.GameState.Winner st))) /\
  (Intn_contract ->
   game.GameState.GameOver st = false ->
   game.Snake.Alive (game.GameState.Snakes st).1 = true ->
   game.Snake.Alive (game.GameState.Snakes st).2 = true ->
   is_Some (game.Head (game.GameState.Snakes st).1) ->
   is_Some (game.Head (game.GameState.Snakes st).2) ->
   exists g' r, Game.Step g (a0, a1) = Some (g', r) /\
     let st' := Game.State g' in
     let s0' := (game.GameState.Snakes st').1 in
     let s1' := (game.GameState.Snakes st').2 in
     let died0 := (StepResult.Died r).1 in
     let died1 := (StepResult.Died r).2 in
     (died0 = true <->
      hits s0' s1' (game.GameState.Width st) (game.GameState.Height st)) /\
     (died1 = true <->
      hits s1' s0' (game.GameState.Width st) (game.GameState.Height st)) /\
     game.Snake.Alive s0' = negb died0 /\
     game.Snake.Alive s1' = negb died1 /\
     StepResult.GameOver r = died0 || died1 /\
     game.GameState.GameOver st' = StepResult.GameOver r /\
     StepResult.Winner r
       = (if died0 && died1 then -1 else if died0 then 1
          else if died1 then 0 else -1) /\
     game.GameState.Winner st'
       = (if StepResult.GameOver r then StepResult.Winner r
          else game.GameState.Winner st) /\
     StepResult.Rewards r
       = game.calculateRewards (StepResult.AteFood r) (StepResult.Died r) /\
     (died0 = true -> (StepResult.Rewards r).1 = (-1)%float) /\
     (died0 = false -> PrimFloat.ltb 0 (StepResult.Rewards r).1 = true) /\
     (died1 = true -> (StepResult.Rewards r).2 = (-1)%float) /\
     (died1 = false -> PrimFloat.ltb 0 (StepResult.Rewards r).2 = true)).
Proof.
  intros st. split.
  - intros Hover. unfold Game.Step. fold st. by rewrite Hover.
  - intros Hintn Hover Ha0 Ha1 [h0 Hh0] [h1 Hh1].
    destruct (Step_running g a0 a1 h0 h1 Hintn Hover Ha0 Ha1 Hh0 Hh1)
      as (g2 & Hspawn & Hst2 & Hstep).
    fold st in Hspawn, Hst2, Hstep.
    set (s0 := (game.GameState.Snakes st).1) in *.
    set (s1 := (game.GameState.Snakes st).2) in *.
    set (food := game.GameState.Food st) in *.
    set (eat0 := game.Food.Active food
                 && game.Equals (cell_ahead h0 a0) (game.Food.Position food)) in *.
    set (eat1 := game.Food.Active food
                 && game.Equals (cell_ahead h1 a1) (game.Food.Position food)) in *.
    set (m0 := after_move s0 a0 eat0) in *.
    set (m1 := after_move s1 a1 eat1) in *.
    cbv zeta in Hstep.
    set (d0 := dies m0 m1 _ _) in *. set (d1 := dies m1 m0 _ _) in *.
    eexists _, _. split; [exact Hstep|]. cbv zeta.
    cbn [Game.State StepResult.Died StepResult.GameOver StepResult.Winner
         StepResult.Rewards StepResult.AteFood fst snd].
    destruct (after_move_alive s0 h0 a0 eat0 Ha0 Hh0) as (_ & _ & Hm0 & _).
    destruct (after_move_alive s1 h1 a1 eat1 Ha1 Hh1) as (_ & _ & Hm1 & _).
    fold m0 in Hm0. fold m1 in Hm1.
    assert (Hsn : forall st3,
      st3 = Game.set_Snakes (Game.State g2) (survivor d0 m0, survivor d1 m1) ->
      let st' := if (outcome d0 d1).1
                 then Game.set_Over st3 true (outcome d0 d1).2 else st3 in
      game.GameState.Snakes st' = (survivor d0 m0, survivor d1 m1) /\
      game.GameState.GameOver st' = (outcome d0 d1).1 /\
      game.GameState.Winner st'
        = (if (outcome d0 d1).1 then (outcome d0 d1).2
           else game.GameState.Winner st)).
    { intros st3 ->. rewrite Hst2. simpl.
      destruct (outcome d0 d1).1 eqn:Eo; simpl; [done|].
      split; [done|]. split; [|done]. rewrite Hover. done. }
    specialize (Hsn _ eq_refl). cbv zeta in Hsn.
    destruct Hsn as (-> & -> & ->).
    cbn [fst snd]. rewrite !hits_survivor.
    split; [apply dies_hits|]. split; [apply dies_hits|].
    split; [unfold survivor; destruct d0; simpl; [done|exact Hm0]|].
    split; [unfold survivor; destruct d1; simpl; [done|exact Hm1]|].
    split; [unfold outcome; by destruct d0, d1|].
    split; [done|].
    split; [unfold outcome; by destruct d0, d1|].
    split; [done|]. split; [done|].
    apply (calculateRewards_signs (eat0, eat1) (d0, d1)).
Qed.

End StepFacts.

(* ================================================================== *)
(** * An episode of training *)
(* ================================================================== *)

Section EpisodeFacts.
Import ai.
Context `{rand.API}.
Local Open Scope float_scope.

(** Runs the next closed [store] or [storeRelative] of the goal. *)
Ltac run_store :=
  lazymatch goal with
  | |- context [store ?f ?i ?v ≫= _] =>
      let f' := fresh "features" in
      let Hs := fresh "Hs" in
      let Hl := fresh "Hl" in
      destruct (store_22 f i v) as (f' & Hs & Hl); [assumption|lia|];
      rewrite Hs; clear Hs; cbn [mbind option_bind]
  | |- context [storeRelative ?f ?i ?p ?h ≫= _] =>
      let f' := fresh "features" in
      let Hs := fresh "Hs" in
      let Hl := fresh "Hl" in
      destruct (storeRelative_22 f i p h) as (f' & Hs & Hl); [assumption|lia|];
      rewrite Hs; clear Hs; cbn [mbind option_bind]
  end.

(** [EncodeState] returns 22 features for either snake of a position in
    which every living snake has a head. *)
Lemma EncodeState_total (state : game.GameState.t) (snakeID : Z) :
  (snakeID = 0 \/ snakeID = 1)%Z ->
  (game.Snake.Alive (game.GameState.Snakes state).1 = true ->
   is_Some (game.Head (game.GameState.Snakes state).1)) ->
  (game.Snake.Alive (game.GameState.Snakes state).2 = true ->
   is_Some (game.Head (game.GameState.Snakes state).2)) ->
  exists features, EncodeState state snakeID = Some features /\
                   length features = 22%nat.
Proof.
  intros Hid Hh0 Hh1.
  assert (Hsn : exists snake other,
    game.snake_at (game.GameState.Snakes state) snakeID = Some snake /\
    game.snake_at (game.GameState.Snakes state) (GoInt.sub 1 snakeID)
      = Some other /\
    (game.Snake.Alive snake = true -> is_Some (game.Head snake)) /\
    (game.Snake.Alive other = true -> is_Some (game.Head other))).
  { destruct Hid as [-> | ->]; eexists _, _; (split; [reflexivity|]);
      (split; [reflexivity|]); done. }
  destruct Hsn as (snake & other & Hsnake & Hoth & Hhead & Hother).
  unfold EncodeState. cbn [GoInt.make StateSize Z.ltb Z.compare mbind option_bind].
  rewrite Hsnake, Hoth. cbn [mbind option_bind].
  destruct (game.Snake.Alive snake) eqn:Halive; cbn [negb].
  2: { eexists. split; [reflexivity|done]. }
  destruct (Hhead eq_refl) as [head Hhead'].
  set (dir := game.Snake.Direction snake).
  pose proof (fun pos => isDanger_total state snakeID snake pos Hsnake) as Hd.
  destruct (Hd (cell_ahead head dir)) as [ds Hds].
  destruct (Hd (cell_ahead head (game.TurnLeft dir))) as [dl Hdl].
  destruct (Hd (cell_ahead head (game.TurnRight dir))) as [dr Hdr].
  destruct (Hd (cell_ahead (cell_ahead head dir) dir)) as [ds2 Hds2].
  destruct (Hd (cell_ahead (cell_ahead head (game.TurnLeft dir)) (game.TurnLeft dir)))
    as [dl2 Hdl2].
  destruct (Hd (cell_ahead (cell_ahead head (game.TurnRight dir)) (game.TurnRight dir)))
    as [dr2 Hdr2].
  rewrite Hhead'. cbn [mbind option_bind].
  rewrite !(NextHead_cell_ahead snake head _ Hhead'). cbn [mbind option_bind].
  fold dir. rewrite Hds, Hdl, Hdr. cbn [mbind option_bind].
  assert (Hl0 : length (replicate (Z.to_nat 22) F64.zero) = 22%nat) by done.
  assert (Hdir : (0 <= game.Direction_to_int dir < 4)%Z) by (by destruct dir).
  do 4 run_store.
  destruct (game.Food.Active (game.GameState.Food state));
    destruct (game.Snake.Alive other) eqn:Ealive;
    try (destruct (Hother eq_refl) as [oppHead Hopp]; rewrite Hopp);
    cbn [mbind option_bind]; repeat run_store;
    rewrite !setBody0_tempSnake, !NextHead_tempSnake;
    cbn [mbind option_bind];
    rewrite (isDangerExtended_or _ _ _ _ _ _ Hds Hds2),
            (isDangerExtended_or _ _ _ _ _ _ Hdl Hdl2),
            (isDangerExtended_or _ _ _ _ _ _ Hdr Hdr2);
    cbn [mbind option_bind]; do 2 run_store; by apply store_22.
Qed.

Lemma CalculateShapingReward_total (prevState newState : game.GameState.t)
    (snakeID : Z) :
  (snakeID = 0 \/ snakeID = 1)%Z ->
  (game.Snake.Alive (game.GameState.Snakes prevState).1 = true ->
   is_Some (game.Head (game.GameState.Snakes prevState).1)) ->
  (game.Snake.Alive (game.GameState.Snakes prevState).2 = true ->
   is_Some (game.Head (game.GameState.Snakes prevState).2)) ->
  (game.Snake.Alive (game.GameState.Snakes newState).1 = true ->
   is_Some (game.Head (game.GameState.Snakes newState).1)) ->
  (game.Snake.Alive (game.GameState.Snakes newState).2 = true ->
   is_Some (game.Head (game.GameState.Snakes newState).2)) ->
  is_Some (CalculateShapingReward prevState newState snakeID).
Proof.
  intros Hid Hp0 Hp1 Hn0 Hn1. unfold CalculateShapingReward.
  destruct Hid as [-> | ->]; simpl.
  - destruct (game.Snake.Alive (game.GameState.Snakes prevState).1);
      simpl; [|done].
    destruct (game.Snake.Alive (game.GameState.Snakes newState).1);
      simpl; [|done].
    destruct (_ || _); [done|].
    destruct (Hp0 eq_refl) as [hp ->]. destruct (Hn0 eq_refl) as [hn ->].
    simpl. by repeat destruct (_ <? _)%Z.
  - destruct (game.Snake.Alive (game.GameState.Snakes prevState).2);
      simpl; [|done].
    destruct (game.Snake.Alive (game.GameState.Snakes newState).2);
      simpl; [|done].
    destruct (_ || _); [done|].
    destruct (Hp1 eq_refl) as [hp ->]. destruct (Hn1 eq_refl) as [hn ->].
    simpl. by repeat destruct (_ <? _)%Z.
Qed.

Lemma MaxIndex_bound (values : Vector) (i : Z) :
  MaxIndex values = Some i -> (0 <= i < Z.of_nat (length values))%Z.
Proof.
  destruct values as [|v0 rest]; [done|]. simpl. intros [= <-].
  destruct (maxLoop_first rest 0 v0 1) as [[-> _]|(k & -> & Hk & _)]; simpl.
  - lia.
  - apply lookup_lt_Some in Hk. lia.
Qed.

(** An action chosen by [SelectAction] indexes an output. *)
Lemma SelectAction_ready i o (a : DQNAgent.t) (state : Vector) :
  Intn_contract -> ready i o a -> (3 <= o)%Z ->
  (Z.of_nat (length state) <= i)%Z ->
  exists act a', SelectAction a state = Some (act, a') /\
    (0 <= act < o)%Z /\ ready i o a'.
Proof.
  intros Hintn Hready Ho Hlen. unfold SelectAction.
  destruct (rand.Float64 (DQNAgent.rng a)) as [u g].
  destruct (PrimFloat.ltb u (DQNAgent.Epsilon a)).
  - pose proof (Hintn g NumActions ltac:(done)) as Hk.
    destruct (rand.Intn g NumActions) as [k g']. simpl in Hk.
    eexists _, _. split; [reflexivity|].
    split; [unfold NumActions in Hk; lia|exact Hready].
  - unfold SelectActionGreedy. simpl.
    pose proof Hready as ((Hp & _) & _ & Hi & Hoo).
    destruct (ForwardWithCache_Some (DQNAgent.PolicyNet a) state Hp)
      as (out & cache & _ & Hf & Hlo & _); [lia|].
    rewrite Hf. simpl.
    destruct (out) as [|v0 rest] eqn:Eout; [simpl in Hlo; lia|].
    destruct (MaxIndex (v0 :: rest)) as [act|] eqn:Em; [|done].
    apply MaxIndex_bound in Em. simpl.
    eexists _, _. split; [reflexivity|]. split; [|exact Hready].
    rewrite Hlo in Em. lia.
Qed.

Lemma Step_playable (g : Game.t) (actions : game.Direction * game.Direction) :
  Intn_contract -> playable g ->
  exists g' r, Game.Step g actions = Some (g', r) /\
    is_Some (game.Head (game.GameState.Snakes (Game.State g')).1) /\
    is_Some (game.Head (game.GameState.Snakes (Game.State g')).2) /\
    (game.GameState.GameOver (Game.State g') = false -> playable g').
Proof.
  intros Hintn (Hover & Ha0 & Ha1 & [h0 Hh0] & [h1 Hh1]).
  destruct actions as [a0 a1].
  destruct (Step_running g a0 a1 h0 h1 Hintn Hover Ha0 Ha1 Hh0 Hh1)
    as (g2 & Hspawn & Hst2 & Hstep).
  cbv zeta in Hstep.
  set (st := Game.State g) in *.
  set (s0 := (game.GameState.Snakes st).1) in *.
  set (s1 := (game.GameState.Snakes st).2) in *.
  set (food := game.GameState.Food st) in *.
  set (eat0 := game.Food.Active food
               && game.Equals (cell_ahead h0 a0) (game.Food.Position food)) in *.
  set (eat1 := game.Food.Active food
               && game.Equals (cell_ahead h1 a1) (game.Food.Position food)) in *.
  set (m0 := after_move s0 a0 eat0) in *.
  set (m1 := after_move s1 a1 eat1) in *.
  set (d0 := dies m0 m1 _ _) in *. set (d1 := dies m1 m0 _ _) in *.
  destruct (after_move_alive s0 h0 a0 eat0 Ha0 Hh0) as (_ & Hn0 & Hm0 & _).
  destruct (after_move_alive s1 h1 a1 eat1 Ha1 Hh1) as (_ & Hn1 & Hm1 & _).
  fold m0 in Hn0, Hm0. fold m1 in Hn1, Hm1.
  eexists _, _. split; [exact Hstep|]. cbn [Game.State].
  assert (Hsn : forall st3,
    st3 = Game.set_Snakes (Game.State g2) (survivor d0 m0, survivor d1 m1) ->
    let st' := if (outcome d0 d1).1
               then Game.set_Over st3 true (outcome d0 d1).2 else st3 in
    game.GameState.Snakes st' = (survivor d0 m0, survivor d1 m1) /\
    game.GameState.GameOver st' = (outcome d0 d1).1).
  { intros st3 ->. rewrite Hst2. simpl.
    destruct (outcome d0 d1).1 eqn:Eo; simpl; [done|].
    split; [done|]. exact Hover. }
  specialize (Hsn _ eq_refl). cbv zeta in Hsn. destruct Hsn as (Hs & Ho).
  unfold playable. cbn [Game.State]. rewrite Hs, Ho. cbn [fst snd].
  assert (Hhead0 : game.Head (survivor d0 m0) = game.Head m0) by (by destruct d0).
  assert (Hhead1 : game.Head (survivor d1 m1) = game.Head m1) by (by destruct d1).
  rewrite Hhead0, Hhead1, Hn0, Hn1.
  split; [done|]. split; [done|].
  unfold outcome. destruct d0, d1; simpl; try done.
Qed.

Lemma trainingStep_ready i o (agent : DQNAgent.t) (g : Game.t) :
  rand.Perm_contract -> Intn_contract ->
  ready i o agent -> (22 <= i)%Z -> (3 <= o)%Z -> playable g ->
  exists agent' g' reward,
    trainer.trainingStep agent g = Some (agent', g', reward) /\
    ready i o agent' /\
    (game.GameState.GameOver (Game.State g') = false -> playable g').
Proof.
  intros Hperm Hintn Hready Hi Ho Hplay.
  pose proof Hplay as (Hover & Ha0 & Ha1 & Hh0 & Hh1).
  unfold trainer.trainingStep.
  destruct (EncodeState_total (Game.State g) 0) as (state0 & -> & Hl0);
    [by left|done|done|].
  destruct (EncodeState_total (Game.State g) 1) as (state1 & -> & Hl1);
    [by right|done|done|].
  cbn [mbind option_bind].
  destruct (SelectAction_ready i o agent state0 Hintn Hready Ho)
    as (action0 & agent1 & -> & Hact0 & Hready1); [lia|].
  cbn [mbind option_bind].
  destruct (SelectAction_ready i o agent1 state1 Hintn Hready1 Ho)
    as (action1 & agent2 & -> & Hact1 & Hready2); [lia|].
  cbn [mbind option_bind].
  unfold Game.Clone. destruct (rand.Int63 (Game.rng g)) as [seed rng'].
  cbn [Game.State].
  match goal with |- context [Game.Step ?g1 ?acts] =>
    destruct (Step_playable g1 acts Hintn Hplay)
      as (g' & result & -> & Hn0 & Hn1 & Hplay') end.
  cbn [mbind option_bind].
  destruct (EncodeState_total (Game.State g') 0) as (next0 & -> & Hln0);
    [by left|done|done|].
  destruct (EncodeState_total (Game.State g') 1) as (next1 & -> & Hln1);
    [by right|done|done|].
  cbn [mbind option_bind].
  destruct (CalculateShapingReward_total (Game.State g) (Game.State g') 0)
    as [shaping0 ->]; [by left|done..|].
  destruct (CalculateShapingReward_total (Game.State g) (Game.State g') 1)
    as [shaping1 ->]; [by right|done..|].
  cbn [mbind option_bind].
  match goal with |- context [Remember agent2 state0 action0 ?r next0 ?d] =>
    destruct (Remember_ready i o agent2 (Experience.mk state0 action0 r next0 d)
                Hready2) as (agent3 & Hr3 & Hready3) end.
  { simpl. lia. }
  simpl in Hr3. rewrite Hr3. cbn [mbind option_bind].
  match goal with |- context [Remember agent3 state1 action1 ?r next1 ?d] =>
    destruct (Remember_ready i o agent3 (Experience.mk state1 action1 r next1 d)
                Hready3) as (agent4 & Hr4 & Hready4) end.
  { simpl. lia. }
  simpl in Hr4. rewrite Hr4. cbn [mbind option_bind].
  destruct (Train_ready i o agent4 Hperm Hready4) as (agent5 & loss & -> & Hready5).
  cbn [mbind option_bind].
  eexists _, _, _. split; [reflexivity|]. split; [exact Hready5|exact Hplay'].
Qed.

Lemma innerLoop_ready i o (remaining : nat) :
  forall (agent : DQNAgent.t) (g : Game.t) (episodeReward : float * float)
         (steps : Z),
  rand.Perm_contract -> Intn_contract ->
  ready i o agent -> (22 <= i)%Z -> (3 <= o)%Z ->
  (game.GameState.GameOver (Game.State g) = false -> playable g) ->
  exists agent' g' reward steps',
    trainer.innerLoop remaining agent g episodeReward steps
      = Some (agent', g', reward, steps') /\
    ready i o agent' /\
    (steps <= steps' <= steps + Z.of_nat remaining)%Z /\
    ((steps' < steps + Z.of_nat remaining)%Z ->
     game.GameState.GameOver (Game.State g') = true).
Proof.
  induction remaining as [|remaining IH];
    intros agent g episodeReward steps Hperm Hintn Hready Hi Ho Hplay.
  - simpl. eexists _, _, _, _. split; [reflexivity|].
    split; [done|]. split; lia.
  - simpl. destruct (game.GameState.GameOver (Game.State g)) eqn:Hover.
    + eexists _, _, _, _. split; [reflexivity|].
      split; [done|]. split; [lia|done].
    + destruct (trainingStep_ready i o agent g Hperm Hintn Hready Hi Ho
                  (Hplay eq_refl))
        as (agent1 & g1 & reward & -> & Hready1 & Hplay1).
      cbn [mbind option_bind].
      destruct (IH agent1 g1
                  ((episodeReward.1 + reward.1), (episodeReward.2 + reward.2))
                  (steps + 1)%Z Hperm Hintn Hready1 Hi Ho Hplay1)
        as (agent' & g' & reward' & steps' & -> & Hready' & Hsteps & Hearly).
      eexists _, _, _, _. split; [reflexivity|].
      split; [done|]. split; [lia|]. intros Hlt. apply Hearly. lia.
Qed.

Lemma fresh_layout_playable width height (g : Game.t) :
  fresh_layout width height g -> playable g.
Proof.
  intros (_ & _ & _ & Hover & _ & Hs & _). unfold playable. rewrite Hs.
  simpl. done.
Qed.

Lemma NewDQNAgent_Some (cfg : config.TrainingConfig) (seed : Z) :
  (0 <= config.InputSize cfg)%Z -> (0 <= config.HiddenSize1 cfg)%Z ->
  (0 <= config.HiddenSize2 cfg)%Z -> (0 <= config.OutputSize cfg)%Z ->
  (0 <= config.BufferSize cfg)%Z ->
  is_Some (NewDQNAgent cfg seed).
Proof.
  intros Hi H1 H2 Ho Hb. unfold NewDQNAgent.
  destruct (rand.Int63 (rand.New seed)) as [seed1 g1].
  destruct (NewQNetwork_well_shaped (config.InputSize cfg)
              (config.HiddenSize1 cfg) (config.HiddenSize2 cfg)
              (config.OutputSize cfg) (config.LearningRate cfg) seed1
              Hi H1 H2 Ho) as (policy & -> & Hws & _).
  cbn [mbind option_bind].
  destruct (Clone_well_shaped policy Hws) as (target & -> & _).
  cbn [mbind option_bind]. destruct (rand.Int63 g1) as [seed2 g2].
  unfold NewReplayBuffer, GoInt.make.
  destruct (Z.ltb_spec (config.BufferSize cfg) 0); [lia|]. done.
Qed.

(** X28: an episode of training never panics. For a permutation from
    [Perm] and draws of [Intn] inside their bound, an agent on which
    every method can be called, with at least 22 inputs and 3 outputs,
    plays an episode to its end on any game: [Reset], then rounds of
    encoding both snakes, choosing two actions, cloning and stepping the
    game, encoding again, remembering both transitions and training,
    until the game is over or [MaxStepsPerEp] rounds are done. The agent
    comes out as fit as it went in, so episode can follow episode; the
    number of rounds is at most [MaxStepsPerEp], and fewer only when the
    game is over. The agent [NewDQNAgent] makes from the default
    configuration is such an agent. *)
Theorem episode_never_panics :
  rand.Perm_contract -> Intn_contract ->
  (forall i o (agent : DQNAgent.t) (g : Game.t) (maxStepsPerEp : Z),
     ready i o agent -> (22 <= i)%Z -> (3 <= o)%Z ->
     exists agent' g' reward steps,
       trainer.playEpisode maxStepsPerEp agent g
         = Some (agent', g', reward, steps) /\
       ready i o agent' /\
       ready i o (DecayEpsilon agent') /\
       (0 <= steps <= Z.max 0 maxStepsPerEp)%Z /\
       ((steps < maxStepsPerEp)%Z ->
        game.GameState.GameOver (Game.State g') = true)) /\
  (forall seed, exists agent,
     NewDQNAgent config.DefaultTrainingConfig seed = Some agent /\
     ready 22 3 agent).
Proof.
  intros Hperm Hintn. split.
  - intros i o agent g maxStepsPerEp Hready Hi Ho.
    unfold trainer.playEpisode.
    destruct (Reset_fresh g Hintn) as (g1 & -> & Hfresh).
    cbn [mbind option_bind].
    destruct (innerLoop_ready i o (Z.to_nat maxStepsPerEp) agent g1 (0, 0) 0
                Hperm Hintn Hready Hi Ho)
      as (agent' & g' & reward & steps & Hloop & Hready' & Hsteps & Hearly).
    { intros _. by eapply fresh_layout_playable. }
    exists agent', g', reward, steps. split; [exact Hloop|].
    split; [exact Hready'|]. split.
    { rewrite DecayEpsilon_frame. exact Hready'. }
    split; [lia|]. intros Hlt. apply Hearly. lia.
  - intros seed.
    destruct (NewDQNAgent_Some config.DefaultTrainingConfig seed)
      as [agent En]; [done..|].
    exists agent. split; [exact En|].
    by apply (NewDQNAgent_ready config.DefaultTrainingConfig seed agent En).
Qed.

End EpisodeFacts.

(* ================================================================== *)
(** * The properties on concrete runs *)
(* ================================================================== *)

Module Runs.

Import ai Fixtures Scenarios.
Local Open Scope float_scope.

(** Two floats on different sides of [c] are different. *)
Ltac floats_differ H c :=
  apply (f_equal (fun x => PrimFloat.ltb x c)) in H;
  vm_compute in H; discriminate H.

Lemma counterRand_Perm_contract : rand.Perm_contract.
Proof. intros g n. simpl. symmetry. apply Permutation_rev. Qed.

Lemma Train_agent4 : Train agent4 = Some (after agent4, loss_of agent4).
Proof. vm_compute. reflexivity. Qed.

Lemma updates_agent4 : updates agent4.
Proof. split; vm_compute; [discriminate|reflexivity]. Qed.

Lemma Train_solo3 sync :
  sync = 5%Z \/ sync = 4%Z ->
  Train (solo sync 3) = Some (after (solo sync 3), loss_of (solo sync 3)) /\
  updates (solo sync 3).
Proof.
  intros [->| ->]; (split; [vm_compute; reflexivity|]);
    split; vm_compute; (discriminate || reflexivity).
Qed.

Lemma net0_well_shaped : well_shaped net0.
Proof.
  unfold well_shaped, has_shape. simpl.
  repeat split; try done; repeat constructor.
Qed.

(** The scenario agent is one the training loop runs on. *)
Lemma agent4_trainable : trainable agent4.
Proof.
  assert (Hn : DQNAgent.PolicyNet agent4 = net0) by (vm_compute; reflexivity).
  assert (Ht : DQNAgent.TargetNet agent4 = net0) by (vm_compute; reflexivity).
  unfold trainable. rewrite Hn, Ht.
  split; [apply net0_well_shaped|]. split; [apply net0_well_shaped|].
  split; [done|]. split; [done|]. split; [done|].
  split; [vm_compute; discriminate|]. split; [vm_compute; discriminate|].
  split; [vm_compute; discriminate|]. split; [vm_compute; lia|].
  intros i e Hi He.
  change (ReplayBuffer.size (DQNAgent.ReplayBuffer agent4)) with 4%nat in Hi.
  assert (Hb : take 4 (ReplayBuffer.buffer (DQNAgent.ReplayBuffer agent4))
               = [stepExp; terminalExp; stepExp; stepExp])
    by (vm_compute; reflexivity).
  assert (He' : [stepExp; terminalExp; stepExp; stepExp] !! i = Some e)
    by (rewrite <- Hb, lookup_take_lt by done; exact He).
  apply list_elem_of_lookup_2 in He'.
  repeat (apply elem_of_cons in He' as [->|He']);
    [..|by apply elem_of_nil in He']; by vm_compute.
Qed.

Example Train_total_agent4 : exists a' loss, Train agent4 = Some (a', loss).
Proof.
  exact (Train_total agent4 counterRand_Perm_contract agent4_trainable).
Qed.

(** The end-to-end scenario of the specification: with gamma 0.99 the
    target of the terminal transition with reward -1.0 is exactly -1.0. *)
Example terminal_target :
  spec_td_target 0.99 net0 terminalExp = Some (-1).
Proof. reflexivity. Qed.

(** The targets of the batch that call draws: the bootstrap value for the
    three ordinary transitions, the bare reward for the terminal one. *)
Example targets_of_the_fourth_call :
  map (spec_td_target (DQNAgent.Gamma agent4) (DQNAgent.TargetNet agent4))
    <$> (fst <$> Sample (DQNAgent.ReplayBuffer agent4) (DQNAgent.BatchSize agent4))
  = Some [Some 0.93312499999999998; Some 0.93312499999999998; Some (-1);
          Some 0.93312499999999998].
Proof. vm_compute. reflexivity. Qed.

(** C1, on a run: the fourth call of [Train] on a buffer of four
    transitions, one of them terminal. *)
Lemma Train_td_targets_run :
  exists batch rb ts,
    Sample (DQNAgent.ReplayBuffer agent4) (DQNAgent.BatchSize agent4)
      = Some (batch, rb) /\
    BackwardCalls (DQNAgent.PolicyNet agent4) batch ts
      (DQNAgent.PolicyNet (after agent4)) /\
    Forall2
      (fun exp t =>
         if Experience.Done exp then t = Experience.Reward exp
         else exists q m,
             Forward (DQNAgent.TargetNet agent4) (Experience.NextState exp)
               = Some q /\
             Max q = Some m /\
             t = Experience.Reward exp + DQNAgent.Gamma agent4 * m)
      batch ts.
Proof.
  exact (Train_td_targets agent4 (after agent4) (loss_of agent4)
           Train_agent4 updates_agent4).
Defined.

(** C2, on the scenario of the specification: capacity 10, batch size 4,
    three transitions; [Train] returns 0.0 and the weights stay. *)
Lemma Train_early_return_run :
  exists a', Train agent3 = Some (a', 0.0) /\
    a' = DQNAgent.set_StepCount agent3 (GoInt.add (DQNAgent.StepCount agent3) 1) /\
    DQNAgent.PolicyNet a' = DQNAgent.PolicyNet agent3 /\
    DQNAgent.TargetNet a' = DQNAgent.TargetNet agent3.
Proof.
  apply (proj2 (proj2 (proj2 (Train_early_return_is_noop agent3)))).
  left. vm_compute. reflexivity.
Defined.

(** C3 fails as worded: sync interval 5, one transition, batch size 1.
    The fourth call updates the policy; the fifth call returns at the
    train-interval check with the step counter at 5, a multiple of the
    sync interval, and the target still holds the initial weights. *)
Lemma Train_skips_sync_off_interval : ~ Train_syncs_on_every_multiple.
Proof.
  intros Hc.
  specialize (Hc counterRand (solo 5 4) (after (solo 5 4)) (loss_of (solo 5 4))).
  assert (Hw : weights_of (DQNAgent.TargetNet (after (solo 5 4)))
               = weights_of (DQNAgent.PolicyNet (after (solo 5 4)))).
  { apply Hc.
    - vm_compute. reflexivity.
    - exists 1%Z. vm_compute. reflexivity.
    - vm_compute. reflexivity. }
  apply (f_equal (fun w => hd 0 (hd [] w.1.1.1.1.1))) in Hw.
  floats_differ Hw 0.51.
Qed.

(** C3 (amended), on a run: sync interval 4, so the fourth call both
    updates and synchronises. *)
Lemma Train_syncs_target_run :
  weights_of (DQNAgent.TargetNet (after (solo 4 3)))
  = weights_of (DQNAgent.PolicyNet (after (solo 4 3))).
Proof.
  apply (Train_syncs_target_when_updating (solo 4 3) (after (solo 4 3))
           (loss_of (solo 4 3))).
  - apply (Train_solo3 4). by right.
  - apply (Train_solo3 4). by right.
  - exists 1%Z. vm_compute. reflexivity.
  - vm_compute. reflexivity.
Defined.

(** C4 fails as worded: on the fourth call of the one-transition agent
    the returned loss is half the squared TD error of its batch. *)
Lemma Train_loss_is_not_mean_squared : ~ Train_returns_mean_squared_error.
Proof.
  intros Hc.
  pose (a := solo 5 3).
  pose (s := get (Sample (DQNAgent.ReplayBuffer a) (DQNAgent.BatchSize a))
                 ([], DQNAgent.ReplayBuffer a)).
  pose (errs := get (spec_td_errors (DQNAgent.Gamma a) (DQNAgent.TargetNet a)
                       (DQNAgent.PolicyNet a) s.1) []).
  assert (Hl : loss_of a = mean (map squared errs)).
  { apply (Hc counterRand a (after a) (loss_of a) s.1 s.2 errs).
    - apply (Train_solo3 5). by left.
    - apply (Train_solo3 5). by left.
    - vm_compute. reflexivity.
    - vm_compute. reflexivity. }
  vm_compute in Hl. floats_differ Hl 0.005.
Qed.

(** C4 (amended), on the same run. *)
Lemma Train_loss_run :
  exists batch rb errs,
    Sample (DQNAgent.ReplayBuffer (solo 5 3)) (DQNAgent.BatchSize (solo 5 3))
      = Some (batch, rb) /\
    spec_td_errors (DQNAgent.Gamma (solo 5 3)) (DQNAgent.TargetNet (solo 5 3))
      (DQNAgent.PolicyNet (solo 5 3)) batch = Some errs /\
    length errs = length batch /\
    loss_of (solo 5 3) = mean (map half_squared errs).
Proof.
  apply (Train_loss_is_mean_half_squared (solo 5 3) (after (solo 5 3))).
  - apply (Train_solo3 5). by left.
  - apply (Train_solo3 5). by left.
Defined.

(** C5 fails as worded: one value fed to the network of input width 2
    yields an output. *)
Lemma Forward_accepts_short_input : ~ Forward_rejects_every_mismatch.
Proof.
  intros Hc.
  specialize (Hc counterRand net0 [1] net0_well_shaped).
  assert (Hn : Forward net0 [1] = None) by (apply Hc; vm_compute; discriminate).
  vm_compute in Hn. discriminate Hn.
Qed.

(** C5 (amended), on [net0]: three values fail, one value is accepted. *)
Lemma Forward_on_mismatched_input_run :
  Forward net0 [1; 1; 1] = None /\
  exists out, Forward net0 [1] = Some out /\
    Z.of_nat (length out) = QNetwork.OutputSize net0 /\
    Forward (with_W1 net0 (take (length [1]) (QNetwork.W1 net0))) [1]
      = Some out.
Proof.
  split.
  - apply (proj1 (Forward_on_mismatched_input net0 [1; 1; 1] net0_well_shaped));
      vm_compute; reflexivity.
  - apply (proj2 (Forward_on_mismatched_input net0 [1] net0_well_shaped)).
    vm_compute. discriminate.
Defined.

(** C6, on the opening position, for the first snake. *)
Lemma EncodeState_two_step_danger_run :
  exists features f19 f20 f21,
    EncodeState opening 0 = Some features /\
    length features = 22%nat /\
    features !! 19%nat = Some f19 /\
    features !! 20%nat = Some f20 /\
    features !! 21%nat = Some f21 /\
    two_step_flag opening 0 (game.mkPosition 3 10) game.Right GoStraight f19 /\
    two_step_flag opening 0 (game.mkPosition 3 10) game.Right TurnLeft f20 /\
    two_step_flag opening 0 (game.mkPosition 3 10) game.Right TurnRight f21.
Proof.
  apply (EncodeState_two_step_danger opening 0
           (game.GameState.Snakes opening).1 (game.mkPosition 3 10)).
  - reflexivity.
  - reflexivity.
  - reflexivity.
  - intros other [= <-] _. by eexists.
Defined.

(** In a corner the flags light up: the first snake one cell from the
    right wall, heading right, has the wall two steps ahead. *)
Example two_steps_from_the_wall :
  let state :=
    game.GameState.mk 20 20
      (game.Snake.mk 0 [game.mkPosition 18 0; game.mkPosition 17 0]
                     game.Right true 0 false,
       game.Snake.mk 1 [game.mkPosition 5 10; game.mkPosition 6 10]
                     game.Left true 0 false)
      (game.Food.mk (game.mkPosition 10 4) true) 0 false (-1) in
  drop 19 <$> EncodeState state 0 = Some [1; 1; 0] /\
  take 3 <$> EncodeState state 0 = Some [0; 1; 0].
Proof. split; vm_compute; reflexivity. Qed.

(** C7, on a run: five asked of a buffer of three. *)
Lemma Sample_without_replacement_run :
  exists batch rb' indices,
    Sample buffer3 5 = Some (batch, rb') /\
    length batch = min (Z.to_nat 5) (ReplayBuffer.size buffer3) /\
    NoDup indices /\
    Forall (fun i => i < ReplayBuffer.size buffer3) indices /\
    Forall2 (fun i e => ReplayBuffer.buffer buffer3 !! i = Some e) indices batch /\
    ReplayBuffer.buffer rb' = ReplayBuffer.buffer buffer3 /\
    ReplayBuffer.size rb' = ReplayBuffer.size buffer3.
Proof.
  apply (Sample_without_replacement buffer3 5 counterRand_Perm_contract).
  - vm_compute. lia.
  - lia.
Defined.

Example Sample_three_of_three :
  fst <$> Sample buffer3 5 = Some [stepExp; terminalExp; stepExp].
Proof. vm_compute. reflexivity. Qed.

(** C8, on a run: capacity 2, three insertions. *)
Lemma Add_wraps_around_run :
  exists rb,
    addAll (emptyBuffer 2) [stepExp; terminalExp; stepExp] = Some rb /\
    ReplayBuffer.size rb <= 2 /\
    ReplayBuffer.size rb = min 3 2 /\
    length (ReplayBuffer.buffer rb) = 2%nat /\
    ReplayBuffer.position rb = (3 mod 2)%nat /\
    (2 <= 3 ->
       ReplayBuffer.buffer rb ≡ₚ drop (3 - 2) [stepExp; terminalExp; stepExp] /\
       forall j, 3 - 2 <= j < 3 ->
         ReplayBuffer.buffer rb !! (j mod 2)%nat
         = [stepExp; terminalExp; stepExp] !! j).
Proof.
  apply (Add_wraps_around 2 0 (emptyBuffer 2) [stepExp; terminalExp; stepExp]).
  - reflexivity.
  - lia.
Defined.

Example Add_overwrites_oldest :
  ReplayBuffer.buffer <$> addAll (emptyBuffer 2) [stepExp; terminalExp; stepExp]
  = Some [stepExp; terminalExp].
Proof. vm_compute. reflexivity. Qed.



(** C10, on a run: an absent file and a file neither decoder accepts. *)
Lemma Load_failure_run :
  let a := agent0 10 4 1000 in
  let absent : @gob.error noModelFiles := 2%nat in
  let undecodable : @gob.error noModelFiles := 12%nat in
  (exists a', Load a "models/absent.gob" = Some (a', Some absent) /\ a' = a /\
     DQNAgent.PolicyNet a' = DQNAgent.PolicyNet a /\
     DQNAgent.TargetNet a' = DQNAgent.TargetNet a) /\
  (exists a', Load a "models/garbage.gob" = Some (a', Some undecodable) /\
     a' = a /\
     DQNAgent.PolicyNet a' = DQNAgent.PolicyNet a /\
     DQNAgent.TargetNet a' = DQNAgent.TargetNet a).
Proof.
  intros a absent undecodable. split.
  - apply (Load_failure_leaves_agent a "models/absent.gob" absent).
    left. reflexivity.
  - apply (Load_failure_leaves_agent a "models/garbage.gob" undecodable).
    right. by exists tt, 11%nat.
Defined.

(** X2, on a run: snake 0 of the opening position asked to reverse. *)
Lemma Move_shifts_body_run :
  exists s', game.Move snake0 game.Left false = Some s' /\
    game.Head s' = Some (cell_ahead (game.mkPosition 3 10) game.Right) /\
    game.Snake.Body s' =
      cell_ahead (game.mkPosition 3 10) game.Right ::
        take (length (game.Snake.Body snake0) - 1) (game.Snake.Body snake0) /\
    length (game.Snake.Body s') = length (game.Snake.Body snake0) /\
    game.Snake.Direction s' = game.Right /\
    game.Right <> game.Opposite (game.Snake.Direction snake0) /\
    game.Snake.Alive s' = true /\
    game.Snake.Grew s' = false /\
    game.Snake.ID s' = game.Snake.ID snake0 /\
    game.Snake.Score s' = game.Snake.Score snake0.
Proof.
  exact (proj2 (proj2 (Move_shifts_body snake0 game.Left false))
           eq_refl (game.mkPosition 3 10) eq_refl).
Defined.

(** X4, on a run: going straight from the opening position. *)
Lemma clear_flag_means_safe_move_run :
  exists s', game.Move snake0 game.Right true = Some s' /\
    game.Head s' = Some (cell_ahead (game.mkPosition 3 10) game.Right) /\
    game.CheckWallCollision (cell_ahead (game.mkPosition 3 10) game.Right)
      20 20 = false /\
    game.CheckSelfCollision s' = Some false /\
    (game.Snake.Alive (opponent (game.GameState.Snakes opening) 0) = true ->
     cell_ahead (game.mkPosition 3 10) game.Right ∉
       game.Snake.Body (opponent (game.GameState.Snakes opening) 0)).
Proof.
  exact (clear_flag_means_safe_move opening 0 snake0 (game.mkPosition 3 10)
           GoStraight true eq_refl eq_refl eq_refl eq_refl).
Defined.

(** X5, on a run: a head and a food cell of the opening position. *)
Lemma ManhattanDistance_is_a_metric_run :
  let p := game.mkPosition 3 10 in
  let q := game.mkPosition 10 4 in
  game.ManhattanDistance p q
    = (Z.abs (game.X p - game.X q) + Z.abs (game.Y p - game.Y q))%Z /\
  (0 <= game.ManhattanDistance p q)%Z /\
  game.ManhattanDistance p q = game.ManhattanDistance q p /\
  (game.ManhattanDistance p q = 0%Z <-> p = q) /\
  (forall r, near_origin r ->
     (game.ManhattanDistance p q
        <= game.ManhattanDistance p r + game.ManhattanDistance r q)%Z).
Proof.
  apply ManhattanDistance_is_a_metric; unfold near_origin; simpl; lia.
Defined.

(** X6, on a run: the first move of snake 0 brings it closer to the
    food. *)
Lemma CalculateShapingReward_of_a_move_run :
  let food := game.mkPosition 10 4 in
  let before := game.ManhattanDistance (game.mkPosition 3 10) food in
  let after :=
    game.ManhattanDistance
      (cell_ahead (game.mkPosition 3 10) (effective snake0 game.Right)) food in
  (after = before - 1 \/ after = before + 1)%Z /\
  CalculateShapingReward opening opening_moved 0
    = Some (if (after <? before)%Z then 0.1 else (-0.1)).
Proof.
  apply (CalculateShapingReward_of_a_move opening opening_moved 0 snake0
           (get (game.Move snake0 game.Right false) snake0)
           (game.mkPosition 3 10) game.Right false);
    try reflexivity; unfold near_origin; simpl; lia.
Defined.

(** X7, on a run: the snake [Reset] places on the left. *)
Lemma NewSnake_lays_body_behind_head_run :
  exists s, game.NewSnake 0 (game.mkPosition 3 10) game.Right 3 = Some s /\
    game.Length s = 3%Z /\
    game.Head s = Some (game.mkPosition 3 10) /\
    game.Snake.ID s = 0%Z /\
    game.Snake.Direction s = game.Right /\
    game.Snake.Alive s = true /\
    game.Snake.Score s = 0%Z /\
    game.Snake.Grew s = false /\
    (GoInt.in_range 3 -> GoInt.in_range 10 ->
     forall k p q, game.Snake.Body s !! k = Some p ->
       game.Snake.Body s !! S k = Some q ->
       q = cell_behind p game.Right /\ cell_ahead q game.Right = p).
Proof.
  apply (proj2 (NewSnake_lays_body_behind_head 0 (game.mkPosition 3 10)
                  game.Right 3)).
  lia.
Defined.

(** X11, on a run. *)
Lemma Clone_computes_the_same_run :
  exists c, Clone net0 = Some c /\
    weights_of c = weights_of net0 /\
    well_shaped c /\
    QNetwork.InputSize c = QNetwork.InputSize net0 /\
    QNetwork.HiddenSize1 c = QNetwork.HiddenSize1 net0 /\
    QNetwork.HiddenSize2 c = QNetwork.HiddenSize2 net0 /\
    QNetwork.OutputSize c = QNetwork.OutputSize net0 /\
    QNetwork.LearningRate c = QNetwork.LearningRate net0 /\
    forall x, Forward c x = Forward net0 x.
Proof. exact (Clone_computes_the_same net0 net0_well_shaped). Defined.

(** X12, on a run: a step of a 2 x 2 layer with learning rate 0.5. *)
Lemma linearBackward_is_a_gradient_step_run :
  let input := [1; 2] in
  let w := [[1; 2]; [3; 4]] in
  let b := [0; 0] in
  let dOutput := [1; 0.5] in
  let dInput := step0.1.1 in
  let w' := step0.1.2 in
  let b' := step0.2 in
  length dInput = length input /\
  (forall i row, (i < length input)%nat -> w !! i = Some row ->
     dInput !! i = Some (weighted_sum row dOutput)) /\
  (forall i j x d wij, input !! i = Some x -> dOutput !! j = Some d ->
     at2 w i j = Some wij -> at2 w' i j = Some (wij - 0.5 * x * d)) /\
  (forall i j, (length input <= i)%nat \/ (length dOutput <= j)%nat ->
     at2 w' i j = at2 w i j) /\
  (forall j d bj, dOutput !! j = Some d -> b !! j = Some bj ->
     b' !! j = Some (bj - 0.5 * d)) /\
  (forall j, (length dOutput <= j)%nat -> b' !! j = b !! j).
Proof.
  apply (linearBackward_is_a_gradient_step 0.5 [1; 2] [[1; 2]; [3; 4]] [0; 0]
           [1; 0.5] step0.1.1 step0.1.2 step0.2).
  reflexivity.
Defined.

(** X13, on a run: [Backward] on a forward pass of [net0], for the
    action of turning left and a target of 0.5. *)
Lemma Backward_steps_on_the_chosen_action_run :
  exists n' qa,
    Backward net0 pass0.2 pass0.1 1 0.5 = Some n' /\
    GoInt.index pass0.1 1 = Some qa /\
    well_shaped n' /\
    QNetwork.InputSize n' = QNetwork.InputSize net0 /\
    QNetwork.HiddenSize1 n' = QNetwork.HiddenSize1 net0 /\
    QNetwork.HiddenSize2 n' = QNetwork.HiddenSize2 net0 /\
    QNetwork.OutputSize n' = QNetwork.OutputSize net0 /\
    QNetwork.LearningRate n' = QNetwork.LearningRate net0 /\
    let e (j : nat) := if (Z.of_nat j =? 1)%Z then qa - 0.5 else 0 in
    (forall j bj, QNetwork.B3 net0 !! j = Some bj ->
       QNetwork.B3 n' !! j = Some (bj - QNetwork.LearningRate net0 * e j)) /\
    (forall i j hi wij, h2 pass0.2 !! i = Some hi ->
       at2 (QNetwork.W3 net0) i j = Some wij ->
       at2 (QNetwork.W3 n') i j
         = Some (wij - QNetwork.LearningRate net0 * hi * e j)).
Proof.
  apply (proj2 (Backward_steps_on_the_chosen_action net0 [1; 1] pass0.1 pass0.2
                  1 0.5 net0_well_shaped ltac:(simpl; lia) eq_refl)).
  simpl. lia.
Defined.

(** X15, on a run. *)
Lemma SelectActionGreedy_picks_a_best_action_run :
  exists act qValues q,
    SelectActionGreedy (agent0 10 4 1000) [1; 1] = Some act /\
    GetQValues (agent0 10 4 1000) [1; 1] = Some qValues /\
    (0 <= act < 3)%Z /\
    GoInt.index qValues act = Some q /\
    forall v, v ∈ qValues -> PrimFloat.ltb q v = false.
Proof.
  apply (proj2 (SelectActionGreedy_picks_a_best_action (agent0 10 4 1000) [1; 1]
                  net0_well_shaped ltac:(simpl; lia))).
  simpl. lia.
Defined.

Lemma counterRand_Float64_contract : Float64_contract.
Proof. intros g. split; reflexivity. Qed.

(** X16, on a run. *)
Lemma SelectAction_at_the_ends_of_epsilon_run :
  let a := agent0 10 4 1000 in
  let g := (rand.Float64 (DQNAgent.rng a)).2 in
  SelectAction (SetEpsilon a 1) [1; 1]
    = Some ((rand.Intn g NumActions).1,
            DQNAgent.set_rng (SetEpsilon a 1) (rand.Intn g NumActions).2) /\
  SelectAction (SetEpsilon a 0) [1; 1]
    = (act ← SelectActionGreedy a [1; 1];
       Some (act, DQNAgent.set_rng (SetEpsilon a 0) g)).
Proof.
  exact (SelectAction_at_the_ends_of_epsilon (agent0 10 4 1000) [1; 1]
           counterRand_Float64_contract).
Defined.

(** X17, on a run: an episode of two steps on the small agent. *)
Lemma fresh_agent_never_panics_run :
  exists a',
    performAll smallAgent
      [CallSelectAction [1; 1]; CallRemember stepExp; CallTrain;
       CallSelectAction [1; 0]; CallRemember terminalExp; CallTrain;
       CallTrain; CallTrain; CallDecayEpsilon; CallSetEpsilon 0;
       CallSelectActionGreedy [0; 1]; CallUpdateTargetNetwork;
       CallSetState (AgentState.mk 0.5 8); CallGetQValues [1]] = Some a' /\
    ready 2 3 a'.
Proof.
  apply (fresh_agent_never_panics smallConfig 7 smallAgent _
           counterRand_Perm_contract);
    [vm_compute; reflexivity|simpl; lia..|discriminate|].
  repeat (apply List.Forall_cons;
    [first [exact I | vm_compute; intuition discriminate]|]).
  apply List.Forall_nil.
Defined.

(** X19, on a run: with a target-update interval of zero the fourth call
    of [Train] panics. *)
Lemma degenerate_settings_panic_run : Train (solo 0 3) = None.
Proof.
  apply (proj1 (proj2 (degenerate_settings_panic (solo 0 3)))).
  - split; vm_compute; [discriminate|reflexivity].
  - reflexivity.
Defined.

(** X20, on a run: the features of snake 0 in the opening position. *)
Lemma EncodeState_layout_run :
  exists s l r s2 l2 r2,
    isDanger (cell_ahead (game.mkPosition 3 10) game.Right) 0 opening = Some s /\
    isDanger (cell_ahead (game.mkPosition 3 10) game.Up) 0 opening = Some l /\
    isDanger (cell_ahead (game.mkPosition 3 10) game.Down) 0 opening = Some r /\
    isDanger (cell_ahead (cell_ahead (game.mkPosition 3 10) game.Right)
                game.Right) 0 opening = Some s2 /\
    isDanger (cell_ahead (cell_ahead (game.mkPosition 3 10) game.Up)
                game.Up) 0 opening = Some l2 /\
    isDanger (cell_ahead (cell_ahead (game.mkPosition 3 10) game.Down)
                game.Down) 0 opening = Some r2 /\
    EncodeState opening 0 =
      Some ([boolToFloat s; boolToFloat l; boolToFloat r]
            ++ one_hot game.Right
            ++ relative_flags (game.mkPosition 10 4) (game.mkPosition 3 10)
            ++ opponent_flags (game.GameState.Snakes opening).2
                 (game.mkPosition 16 10) (game.mkPosition 3 10)
            ++ opponent_closeness opening (game.GameState.Snakes opening).2
                 (game.mkPosition 16 10) (game.mkPosition 3 10)
            ++ [F64.of_int (game.Length snake0) / maxLength opening;
                opponent_length opening (game.GameState.Snakes opening).2]
            ++ [boolToFloat (s || s2); boolToFloat (l || l2);
                boolToFloat (r || r2)]).
Proof.
  exact (proj2 (proj2 (EncodeState_layout opening 0)) snake0
           (game.mkPosition 3 10) (game.mkPosition 16 10)
           eq_refl eq_refl eq_refl (fun _ => eq_refl)).
Defined.

(** X21, on a run: three stored transitions, cleared, one added. *)
Lemma Clear_forgets_everything_run :
  Size (Clear buffer3) = 0%Z /\
  ReplayBuffer.buffer (Clear buffer3) = ReplayBuffer.buffer buffer3 /\
  exists rb' batch rb'',
    addAll (Clear buffer3) [terminalExp] = Some rb' /\
    Size rb' = Z.of_nat (min 1 10) /\
    IsFull rb' = (10 <=? 1)%nat /\
    Sample rb' 2 = Some (batch, rb'') /\
    Forall (fun e => e ∈ drop (1 - 10) [terminalExp]) batch.
Proof.
  apply (Clear_forgets_everything buffer3 [terminalExp] 2
           counterRand_Perm_contract); [reflexivity|simpl; lia|lia].
Defined.

(** X22, on a run: loading the file [agent0] was saved to. *)
Lemma Load_success_replaces_both_networks_run :
  let a := agent0 4 1 2 in
  let net := restored (saved net0) in
  exists target,
    Load (H0 := disk.reader savedDisk) a "models/agent.gob"
      = Some (DQNAgent.set_TargetNet (DQNAgent.set_PolicyNet a net) target,
              None) /\
    weights_of target = weights_of net /\
    well_shaped target /\
    forall x, Forward target x = Forward net x.
Proof.
  apply (proj2 (Load_success_replaces_both_networks
                  (H0 := disk.reader savedDisk) (agent0 4 1 2)
                  "models/agent.gob" (restored (saved net0))));
    [reflexivity|exact net0_well_shaped].
Defined.

(** X23, on a run: [agent0] saved to an empty disk and loaded into
    another agent. *)
Lemma Save_then_Load_round_trip_run :
  let a := agent0 10 4 1000 in
  let b := agent0 4 1 2 in
  let d' := (DQNAgent_Save a "models/agent.gob" emptyDisk).1 in
  (forall p, p <> "models/agent.gob"%string -> d' p = emptyDisk p) /\
  exists b',
    Load (H0 := disk.reader d') b "models/agent.gob" = Some (b', None) /\
    weights_of (DQNAgent.PolicyNet b') = weights_of (DQNAgent.PolicyNet a) /\
    weights_of (DQNAgent.TargetNet b') = weights_of (DQNAgent.PolicyNet a) /\
    QNetwork.InputSize (DQNAgent.PolicyNet b')
      = QNetwork.InputSize (DQNAgent.PolicyNet a) /\
    QNetwork.OutputSize (DQNAgent.PolicyNet b')
      = QNetwork.OutputSize (DQNAgent.PolicyNet a) /\
    QNetwork.LearningRate (DQNAgent.PolicyNet b')
      = QNetwork.LearningRate (DQNAgent.PolicyNet a) /\
    DQNAgent.Epsilon b' = DQNAgent.Epsilon b /\
    DQNAgent.StepCount b' = DQNAgent.StepCount b /\
    DQNAgent.ReplayBuffer b' = DQNAgent.ReplayBuffer b /\
    forall x, GetQValues b' x = GetQValues a x.
Proof.
  apply (proj2 (Save_then_Load_round_trip (agent0 10 4 1000) (agent0 4 1 2)
                  "models/agent.gob" emptyDisk));
    [reflexivity|reflexivity|exact net0_well_shaped].
Defined.

Lemma counterRand_Intn_contract : Intn_contract.
Proof. intros g n Hn. simpl. lia. Qed.

(** X24, on a run: new food for the opening position. *)
Lemma spawnFood_picks_a_free_cell_run :
  exists g', Game.spawnFood openingGame = Some g' /\
    game.GameState.Snakes (Game.State g') = game.GameState.Snakes opening /\
    game.GameState.Width (Game.State g') = game.GameState.Width opening /\
    game.GameState.Height (Game.State g') = game.GameState.Height opening /\
    game.GameState.Turn (Game.State g') = game.GameState.Turn opening /\
    game.GameState.GameOver (Game.State g') = game.GameState.GameOver opening /\
    game.GameState.Winner (Game.State g') = game.GameState.Winner opening /\
    ((exists pos, free_cell opening pos) ->
     game.Food.Active (game.GameState.Food (Game.State g')) = true /\
     free_cell opening
       (game.Food.Position (game.GameState.Food (Game.State g')))) /\
    ((forall pos, ~ free_cell opening pos) ->
     game.GameState.Food (Game.State g')
       = game.Food.mk (game.Food.Position (game.GameState.Food opening)) false /\
     Game.rng g' = Game.rng openingGame).
Proof.
  exact (spawnFood_picks_a_free_cell openingGame counterRand_Intn_contract).
Defined.

(** X25, on a run: the default board. *)
Lemma Reset_lays_out_a_new_game_run :
  exists g', Game.NewGame config.DefaultGameConfig 1 = Some g' /\
    fresh_layout 20 20 g'.
Proof.
  exact (proj1 (proj2 (Reset_lays_out_a_new_game counterRand_Intn_contract))
           config.DefaultGameConfig 1%Z).
Defined.

(** X26, on a run: the first turn from the opening position, both
    snakes going straight. *)
Lemma Step_moves_and_feeds_run :
  let st := opening in
  let s0 := (game.GameState.Snakes st).1 in
  let s1 := (game.GameState.Snakes st).2 in
  let food := game.GameState.Food st in
  let h0 := game.mkPosition 3 10 in
  let h1 := game.mkPosition 16 10 in
  let a0 := game.Right in
  let a1 := game.Left in
  exists g' r, Game.Step openingGame (a0, a1) = Some (g', r) /\
    let st' := Game.State g' in
    let s0' := (game.GameState.Snakes st').1 in
    let s1' := (game.GameState.Snakes st').2 in
    let ate0 := (StepResult.AteFood r).1 in
    let ate1 := (StepResult.AteFood r).2 in
    game.GameState.Turn st' = GoInt.add (game.GameState.Turn st) 1 /\
    game.GameState.Width st' = game.GameState.Width st /\
    game.GameState.Height st' = game.GameState.Height st /\
    (ate0 = true <-> game.Food.Active food = true /\
                     cell_ahead h0 a0 = game.Food.Position food) /\
    (ate1 = true <-> game.Food.Active food = true /\
                     cell_ahead h1 a1 = game.Food.Position food) /\
    game.Snake.Body s0'
      = cell_ahead h0 (effective s0 a0) ::
          (if ate0 then game.Snake.Body s0
           else take (length (game.Snake.Body s0) - 1) (game.Snake.Body s0)) /\
    game.Snake.Body s1'
      = cell_ahead h1 (effective s1 a1) ::
          (if ate1 then game.Snake.Body s1
           else take (length (game.Snake.Body s1) - 1) (game.Snake.Body s1)) /\
    game.Snake.Direction s0' = effective s0 a0 /\
    game.Snake.Direction s1' = effective s1 a1 /\
    game.Snake.Score s0'
      = (if ate0 then GoInt.add (game.Snake.Score s0) 1
         else game.Snake.Score s0) /\
    game.Snake.Score s1'
      = (if ate1 then GoInt.add (game.Snake.Score s1) 1
         else game.Snake.Score s1) /\
    (game.IsValidAction (game.Snake.Direction s0) a0 = true -> ate0 = true ->
     game.Head s0' = Some (game.Food.Position food)) /\
    (game.IsValidAction (game.Snake.Direction s1) a1 = true -> ate1 = true ->
     game.Head s1' = Some (game.Food.Position food)) /\
    (ate0 = false -> ate1 = false ->
     game.GameState.Food st' = food /\ Game.rng g' = Game.rng openingGame) /\
    (ate0 = true \/ ate1 = true ->
     ((exists pos, free_cell st' pos) ->
      game.Food.Active (game.GameState.Food st') = true /\
      free_cell st' (game.Food.Position (game.GameState.Food st'))) /\
     ((forall pos, ~ free_cell st' pos) ->
      game.GameState.Food st'
        = game.Food.mk (game.Food.Position food) false)).
Proof.
  exact (Step_moves_and_feeds openingGame game.Right game.Left
           (game.mkPosition 3 10) (game.mkPosition 16 10)
           counterRand_Intn_contract eq_refl eq_refl eq_refl eq_refl eq_refl).
Defined.

(** X27, on a run: the same turn. *)
Lemma Step_deaths_and_winner_run :
  exists g' r, Game.Step openingGame (game.Right, game.Left) = Some (g', r) /\
    let st' := Game.State g' in
    let s0' := (game.GameState.Snakes st').1 in
    let s1' := (game.GameState.Snakes st').2 in
    let died0 := (StepResult.Died r).1 in
    let died1 := (StepResult.Died r).2 in
    (died0 = true <-> hits s0' s1' 20 20) /\
    (died1 = true <-> hits s1' s0' 20 20) /\
    game.Snake.Alive s0' = negb died0 /\
    game.Snake.Alive s1' = negb died1 /\
    StepResult.GameOver r = died0 || died1 /\
    game.GameState.GameOver st' = StepResult.GameOver r /\
    StepResult.Winner r
      = (if died0 && died1 then -1 else if died0 then 1
         else if died1 then 0 else -1)%Z /\
    game.GameState.Winner st'
      = (if StepResult.GameOver r then StepResult.Winner r
         else game.GameState.Winner opening) /\
    StepResult.Rewards r
      = game.calculateRewards (StepResult.AteFood r) (StepResult.Died r) /\
    (died0 = true -> (StepResult.Rewards r).1 = (-1)) /\
    (died0 = false -> PrimFloat.ltb 0 (StepResult.Rewards r).1 = true) /\
    (died1 = true -> (StepResult.Rewards r).2 = (-1)) /\
    (died1 = false -> PrimFloat.ltb 0 (StepResult.Rewards r).2 = true).
Proof.
  apply (proj2 (Step_deaths_and_winner openingGame game.Right game.Left)
           counterRand_Intn_contract eq_refl eq_refl eq_refl);
    by eexists.
Defined.

(** X28, on a run: an episode of at most three rounds from the opening
    position. *)
Lemma episode_never_panics_run :
  exists agent' g' reward steps,
    trainer.playEpisode 3 episodeAgent openingGame
      = Some (agent', g', reward, steps) /\
    ready 22 3 agent' /\
    ready 22 3 (DecayEpsilon agent') /\
    (0 <= steps <= Z.max 0 3)%Z /\
    ((steps < 3)%Z -> game.GameState.GameOver (Game.State g') = true).
Proof.
  apply (proj1 (episode_never_panics counterRand_Perm_contract
                  counterRand_Intn_contract) 22%Z 3%Z episodeAgent openingGame 3%Z);
    [|lia|lia].
  apply (NewDQNAgent_ready episodeConfig 1%Z);
    [vm_compute; reflexivity|simpl; lia..|discriminate].
Defined.

End Runs.
